(** * spatialstats.particles: pair statistics in a periodic box

    A shallow embedding of [particle_correlations.py] (module
    [Correlations]) and [particle_cloud.py] (module [Cloud]).

    Floating-point numbers are idealised as real numbers.  A numpy vector
    is a [list R], a two-dimensional array a list of rows (with at least
    one row, so that its second dimension can be read off the first row),
    an n-dimensional grid a shape together with its entries in row-major
    order.  Values that may come out of a division are of type [fl]: an
    [option R] whose [None] stands for a non-finite entry (NaN or Inf),
    which every later addition, subtraction and multiplication keeps
    non-finite.

    The kernels are compiled by numba.  What that changes is modelled:
    a call whose arguments numba cannot type raises before the kernel
    runs, and inside a kernel the division of one number by another
    raises on a zero divisor, where the same division on arrays gives a
    non-finite entry. *)

From Stdlib Require Import String ZArith Reals Lra Lia Arith Bool List
  RNsatz.
From Stdlib Require Finite.
Import ListNotations.
Open Scope R_scope.

(** ** Numbers *)

Definition fl := option R.

Definition fl_lift1 (f : R -> R) (a : fl) : fl :=
  match a with Some x => Some (f x) | None => None end.

Definition fl_lift2 (f : R -> R -> R) (a b : fl) : fl :=
  match a, b with Some x, Some y => Some (f x y) | _, _ => None end.

Definition fl_add := fl_lift2 Rplus.
Definition fl_sub := fl_lift2 Rminus.
Definition fl_mul := fl_lift2 Rmult.
Definition fl_opp := fl_lift1 Ropp.
Definition fl_sin := fl_lift1 sin.
Definition fl_cos := fl_lift1 cos.

(** [a / b]: dividing by zero gives NaN or Inf. *)
Definition fl_div (a b : fl) : fl :=
  match a, b with
  | Some x, Some y => if Req_dec_T y 0 then None else Some (x / y)
  | _, _ => None
  end.

(** [np.sqrt]: NaN below zero. *)
Definition fl_sqrt (a : fl) : fl :=
  match a with
  | Some x => if Rlt_dec x 0 then None else Some (sqrt x)
  | None => None
  end.

(** [np.arccos]: NaN outside [-1, 1]. *)
Definition fl_arccos (a : fl) : fl :=
  match a with
  | Some x =>
      if Rle_dec (-1) x
      then if Rle_dec x 1 then Some (acos x) else None
      else None
  | None => None
  end.

(** The arithmetic the helper kernels [_dot], [_norm], [_matvec] and
    [_matmul] need; they run on exact and on possibly non-finite
    entries alike. *)
Class Num (A : Type) := {
  zero : A;
  add : A -> A -> A;
  mul : A -> A -> A;
  root : A -> A
}.

#[export] Instance Num_R : Num R :=
  {| zero := 0; add := Rplus; mul := Rmult; root := sqrt |}.

#[export] Instance Num_fl : Num fl :=
  {| zero := Some 0; add := fl_add; mul := fl_mul; root := fl_sqrt |}.

(** ** Arrays *)

Definition vec := list R.

(** [a[i]] *)
Definition at_ (a : vec) (i : nat) : R := nth i a 0.

(** [a - b] on arrays of one length. *)
Fixpoint vsub (a b : vec) : vec :=
  match a, b with
  | x :: a', y :: b' => (x - y) :: vsub a' b'
  | _, _ => []
  end.

(** [np.prod] *)
Definition prod (a : vec) : R := fold_left Rmult a 1.

(** [max] of a non-empty list of numbers. *)
Definition vmax (a : vec) : R :=
  match a with
  | [] => 0
  | x :: t => fold_left Rmax t x
  end.

(** [a.shape] of a two-dimensional array. *)
Definition shape2 {A : Type} (a : list (list A)) : nat * nat :=
  (length a, length (hd [] a)).

Definition shape2_eqb (s t : nat * nat) : bool :=
  (fst s =? fst t)%nat && (snd s =? snd t)%nat.

(** [a[i] = x] *)
Fixpoint upd {A : Type} (i : nat) (x : A) (l : list A) : list A :=
  match l, i with
  | [], _ => []
  | _ :: t, O => x :: t
  | y :: t, S i' => y :: upd i' x t
  end.

(** An n-dimensional array: its shape and its entries in row-major
    order. *)
Record ndarray := mk_ndarray { shape : list nat; data : list fl }.

(** [np.linspace(start, stop, num)] *)
Definition linspace (start stop : R) (num : nat) : vec :=
  map (fun i => start + INR i * ((stop - start) / INR (num - 1)))
      (seq 0 num).

(** ** Exceptions *)

(** [ValueError] is raised by the two modules and by numpy.  The other
    two come from numba, which compiles the kernels: [TypingError] when
    it finds no type for a jitted function at the arguments of a call,
    [KernelError] when a jitted function raises while it runs (a
    [ZeroDivisionError]; how numba hands it out of a parallel loop is not
    modelled, only that the call raises). *)
Inductive exn :=
| ValueError (msg : string)
| TypingError
| KernelError.

Inductive result (A : Type) :=
| Ok (a : A)
| Raise (e : exn).
Arguments Ok {A} a.
Arguments Raise {A} e.

Definition bind {A B : Type} (r : result A) (k : A -> result B)
  : result B :=
  match r with
  | Ok a => k a
  | Raise e => Raise e
  end.

(** Every element of a list through a function that may raise. *)
Fixpoint map_result {A B : Type} (f : A -> result B) (l : list A)
  : result (list B) :=
  match l with
  | [] => Ok []
  | x :: t =>
      bind (f x) (fun y => bind (map_result f t) (fun t' => Ok (y :: t')))
  end.

(** ** Numbers inside a jitted function

    numba compiles the kernels with its default error model: a division
    of one number by another raises when the divisor is zero, as in
    Python, while a division of arrays gives NaN or Inf, as in numpy. *)

(** [a / b] on two numbers. *)
Definition scalar_div (a b : fl) : result fl :=
  match b with
  | Some y => if Req_dec_T y 0 then Raise KernelError else Ok (fl_div a b)
  | None => Ok None
  end.

(** [a ** z] for a number [a] and an integer [z]: a negative power is
    the inverse of the positive one, and divides by zero on a zero
    base. *)
Definition scalar_pow (a : R) (z : Z) : result fl :=
  if (z <? 0)%Z
  then if Req_dec_T a 0 then Raise KernelError else Ok (Some (powerRZ a z))
  else Ok (Some (powerRZ a z)).

(** ** Library routines

    numpy and scipy routines the two modules call.  [histogramdd]
    receives its sample either as an array with one row per point or as
    a sequence with one array per coordinate. *)

Inductive sample :=
| Rows (points : list (list fl))
| Columns (coords : list (list fl)).

Class Library := {
  (** [scipy.integrate.simps(y, x)] *)
  simps : vec -> vec -> R;
  (** [scipy.special.jv(v, z)] *)
  jv : R -> R -> R;
  (** [np.arange(start, stop, step)] *)
  arange : R -> R -> R -> vec;
  (** [np.arctan2(y, x)] *)
  arctan2 : fl -> fl -> fl;
  (** [scipy.spatial.cKDTree(coords, boxsize=boxsize).query_pairs(r)] *)
  query_pairs : list vec -> vec -> R -> list (nat * nat);
  (** [np.histogramdd(sample, bins=bins, weights=weights)]: the count
      grid *)
  histogramdd : sample -> list vec -> option (list fl) -> result ndarray;
  (** [a / b] for arrays of different shapes (broadcasting) *)
  broadcast_divide : ndarray -> ndarray -> result ndarray
}.

(** ** Helper kernels: [_dot], [_norm], [_matvec], [_matmul] *)

Section Kernels.
Context {A : Type} `{Num A}.

Definition _dot (a b : list A) : A :=
  fold_left (fun dot i => add dot (mul (nth i a zero) (nth i b zero)))
            (seq 0 (length a)) zero.

Definition _norm (x : list A) : A := root (_dot x x).

Definition _matvec (M : list (list A)) (x : list A) : list A :=
  let m := length M in
  map (fun i => if (i <? m)%nat then _dot (nth i M []) x else zero)
      (seq 0 (length x)).

(** [B[:, j]] *)
Definition column (B : list (list A)) (j : nat) : list A :=
  map (fun row => nth j row zero) B.

Definition _matmul (M B : list (list A)) : list (list A) :=
  let n := length (hd [] M) in
  map (fun row => map (fun j => _dot row (column B j)) (seq 0 n)) M.

End Kernels.

(** [np.linalg.norm] of a vector is the same number as [_norm]. *)
Definition linalg_norm {A : Type} `{Num A} (x : list A) : A := _norm x.

(** ** Periodic boundary conditions: [_impose_pbc]

    The function is the same in both modules.  Each [while] loop runs
    on a budget of iterations; [None] means the budget ran out. *)

(** [while p[i] < 0: p[i] = p[i] + boxsize[i]] *)
Fixpoint while_below (fuel : nat) (side x : R) : option R :=
  if Rlt_dec x 0
  then match fuel with
       | O => None
       | S fuel' => while_below fuel' side (x + side)
       end
  else Some x.

(** [while p[i] > boxsize[i]: p[i] = p[i] - boxsize[i]] *)
Fixpoint while_above (fuel : nat) (side x : R) : option R :=
  if Rgt_dec x side
  then match fuel with
       | O => None
       | S fuel' => while_above fuel' side (x - side)
       end
  else Some x.

(** The two loops on component [i] of one particle. *)
Definition wrap_component (fuel : nat) (side x : R) : option R :=
  match while_below fuel side x with
  | Some x' => while_above fuel side x'
  | None => None
  end.

(** Every element of a list through a partial function. *)
Fixpoint traverse {A B : Type} (f : A -> option B) (l : list A)
  : option (list B) :=
  match l with
  | [] => Some []
  | x :: t =>
      match f x, traverse f t with
      | Some y, Some t' => Some (y :: t')
      | _, _ => None
      end
  end.

(** [for i in range(dim)] over the components of one particle [p];
    components beyond [dim] are not touched. *)
Definition wrap_particle (fuel : nat) (boxsize p : vec) : option vec :=
  let dim := length boxsize in
  traverse (fun ix : nat * R =>
              let (i, x) := ix in
              if (i <? dim)%nat
              then wrap_component fuel (at_ boxsize i) x
              else Some x)
           (combine (seq 0 (length p)) p).

(** The coordinates array after the call; the caller's array is
    rewritten in place. *)
Definition _impose_pbc (fuel : nat) (coords : list vec) (boxsize : vec)
  : option (list vec) :=
  traverse (wrap_particle fuel boxsize) coords.

(** ** Closest periodic image: [_closest_point1d], [_closest_image]

    The same in both modules. *)

(** [np.argmin]: the first index holding the least entry. *)
Fixpoint argmin_from (best_i : nat) (best : R) (i : nat) (l : vec) : nat :=
  match l with
  | [] => best_i
  | x :: t =>
      if Rlt_dec x best
      then argmin_from i x (S i) t
      else argmin_from best_i best (S i) t
  end.

Definition argmin (l : vec) : nat :=
  match l with
  | [] => 0%nat
  | x :: t => argmin_from 0 x 1 t
  end.

Definition _closest_point1d (target : R) (positions : vec) : R * nat :=
  let distance := map (fun p => Rabs (p - target)) positions in
  let ind := argmin distance in
  (at_ positions ind, ind).

(** The source asserts that [source] has the length of [target].  The
    kernels call it on two rows of one array, where the assertion
    holds; the definition gives the image on that domain, and every
    statement about it assumes the two lengths equal. *)
Definition _closest_image (target source boxsize : vec) : vec :=
  let dim := length target in
  map (fun i =>
         let pts := [at_ source i;
                     at_ source i - at_ boxsize i;
                     at_ source i + at_ boxsize i] in
         fst (_closest_point1d (at_ target i) pts))
      (seq 0 dim).

(** The displacement of an ordered pair before any rotation: the first
    lines of the loop body of [_get_displacements] in both modules. *)
Definition displacement (r_i r_j boxsize : vec) (rmax : R) : vec :=
  let r_ij := vsub r_j r_i in
  if Rge_dec (_norm r_ij) rmax
  then let image := _closest_image r_i r_j boxsize in vsub image r_i
  else r_ij.

(** ** Volume elements: [_get_volume]

    The same in both modules.  [ndim] is the number of box sides; the
    division by it is a division by a number that is not zero at every
    call the two modules make with a box of two or three sides. *)

Definition _get_volume (count : ndarray) (r phi theta : vec) (ndim : nat)
  : list (list (list R)) :=
  let nr := (length r - 1)%nat in
  let nphi := (length phi - 1)%nat in
  let ntheta := (length theta - 1)%nat in
  map (fun n =>
    let dr := (at_ r (n + 1) ^ ndim - at_ r n ^ ndim) / INR ndim in
    map (fun m =>
      let dphi := at_ phi (m + 1) - at_ phi m in
      map (fun l =>
        let v := dphi * dr in
        if (ndim =? 3)%nat
        then v * (cos (at_ theta l) - cos (at_ theta (l + 1)))
        else v)
        (seq 0 ntheta))
      (seq 0 nphi))
    (seq 0 nr).

(** [vol[n, m, l]] *)
Definition cell (vol : list (list (list R))) (n m l : nat) : R :=
  nth l (nth m (nth n vol []) []) 0.

(** [np.squeeze(_get_volume(count, r, phi, theta, ndim))]: axes of
    length one are dropped, the entries stay in row-major order. *)
Definition squeezed_volume (count : ndarray) (r phi theta : vec) (ndim : nat)
  : ndarray :=
  let dims := [length r - 1; length phi - 1; length theta - 1]%nat in
  mk_ndarray (filter (fun n => negb (n =? 1)%nat) dims)
             (map Some (concat (concat (_get_volume count r phi theta ndim)))).

(** ** Normalisation of the count grid *)

Fixpoint zip_with {A B C : Type} (f : A -> B -> C) (a : list A) (b : list B)
  : list C :=
  match a, b with
  | x :: a', y :: b' => f x y :: zip_with f a' b'
  | _, _ => []
  end.

(** [N*vol*density] *)
Definition normalisation (N : nat) (vol : ndarray) (density : fl) : ndarray :=
  mk_ndarray (shape vol)
             (map (fun v => fl_mul (fl_mul (Some (INR N)) v) density)
                  (data vol)).

(** [a / b] on grids: entry by entry when the shapes agree. *)
Definition divide `{Library} (a b : ndarray) : result ndarray :=
  if list_eq_dec Nat.eq_dec (shape a) (shape b)
  then Ok (mk_ndarray (shape a) (zip_with fl_div (data a) (data b)))
  else broadcast_divide a b.

(** The last three lines of [_get_distribution] in both modules. *)
Definition scale_count `{Library} (count : ndarray) (N : nat)
    (boxsize r_n phi_m theta_l : vec) : result ndarray :=
  let ndim := length boxsize in
  let density := fl_div (Some (INR N)) (Some (prod boxsize)) in
  let vol := squeezed_volume count r_n phi_m theta_l ndim in
  divide count (normalisation N vol density).

(** ** The caller's arrays

    [corr] and [sdf] receive references to arrays the caller owns; the
    state of those arrays is threaded through the call. *)

Record arrays := mk_arrays {
  positions : list vec;
  orientations : option (list vec);
  weights : option (list vec)
}.

Definition set_positions (a : arrays) (coords : list vec) : arrays :=
  mk_arrays coords (orientations a) (weights a).

Definition swap (pair : nat * nat) : nat * nat := (snd pair, fst pair).

Definition dimension_message : string :=
  "Dimension of space must be 2 or 3"%string.

(** [p[i] / norm(p[i])] *)
Definition normalised (p_i : vec) : list fl :=
  let v := map Some p_i in
  map (fun c => fl_div c (_norm v)) v.

(** Matrix sum and product by a scalar. *)
Definition mat_add (M B : list (list fl)) : list (list fl) :=
  zip_with (zip_with fl_add) M B.

Definition mat_scale (c : fl) (M : list (list fl)) : list (list fl) :=
  map (map (fl_mul c)) M.

(** [np.eye(3)] *)
Definition eye3 : list (list fl) :=
  [[Some 1; Some 0; Some 0];
   [Some 0; Some 1; Some 0];
   [Some 0; Some 0; Some 1]].

(** [a[i]] on possibly non-finite entries. *)
Definition fat (a : list fl) (i : nat) : fl := nth i a (Some 0).

(** One slot for every coordinate that is binned; [r_ij[2] / norm]
    divides one number by another. *)
Definition write_coords `{Library} (row r_ij : list fl) (nr nphi ntheta : nat)
  : result (list fl) :=
  let norm := _norm r_ij in
  let k := 0%nat in
  let (row, k) :=
    if (1 <? nr)%nat then (upd k norm row, S k) else (row, k) in
  let (row, k) :=
    if (1 <? nphi)%nat
    then (upd k (arctan2 (fat r_ij 1) (fat r_ij 0)) row, S k)
    else (row, k) in
  if (1 <? ntheta)%nat
  then bind (scalar_div (fat r_ij 2) norm)
            (fun q => Ok (upd k (fl_arccos q) row))
  else Ok row.

(** ** particle_correlations.py *)

Module Correlations.

(** The name [spatial] is bound to the imported module
    [scipy.spatial], which is true in a condition. *)
Definition spatial : bool := true.

Section WithLibrary.
Context `{Library}.

(** The inner function [S(q)] of [fourier_corr]. *)
Definition S (gr r : vec) (N : nat) (boxsize : vec) (ndim : nat) (q : R)
  : R :=
  let rho := INR N / prod boxsize in
  let g := if spatial then map (fun x => x - 1) gr else gr in
  if (ndim =? 3)%nat
  then let f := zip_with (fun r_k g_k => sin (q * r_k) * r_k * g_k) r g in
       1 + 4 * PI * rho * simps f r / q
  else let f := zip_with (fun r_k g_k => jv 0 (q * r_k) * r_k * g_k) r g in
       1 + 2 * PI * rho * simps f r.

Definition fourier_corr (gr r : vec) (N : nat) (boxsize : vec)
    (q : option vec) : result (vec * vec) :=
  let ndim := length boxsize in
  if negb ((ndim =? 2)%nat || (ndim =? 3)%nat)
  then Raise (ValueError dimension_message)
  else
    let q := match q with
             | Some q => q
             | None => let dq := 2 * PI / vmax boxsize in
                       arange dq (200 * dq) dq
             end in
    Ok (map (S gr r N boxsize ndim) q, q).

Definition _rotation_matrix (p : list fl) : list (list fl) :=
  let cos := last p (Some 0) in
  let sin := fl_sin (fl_arccos (last p (Some 0))) in
  if (length p =? 2)%nat
  then [[cos; fl_opp sin]; [sin; cos]]
  else
    let k := [fat p 1; fl_opp (fat p 0); Some 0] in
    let k := map (fun c => fl_div c (_norm k)) k in
    let K := [[Some 0; fl_opp (fat k 2); fat k 1];
              [fat k 2; Some 0; fl_opp (fat k 0)];
              [fl_opp (fat k 1); fat k 0; Some 0]] in
    mat_add (mat_add eye3 (mat_scale sin K))
            (mat_scale (fl_sub (Some 1) cos) (_matmul K K)).

Definition _get_pairs (coords : list vec) (boxsize : vec) (rmax : R)
  : list (nat * nat) :=
  query_pairs coords boxsize rmax.

(** The iterations of the two nested loops of [_get_displacements]:
    the buffer slot [index] and the ordered pair [(i, j)] handled
    there. *)
Definition schedule (pairs : list (nat * nat)) : list (nat * (nat * nat)) :=
  let nthreads := length pairs in
  flat_map (fun idx1 =>
    map (fun idx2 =>
           let pair := nth idx1 pairs (0, 0)%nat in
           let index := (idx1 + nthreads * idx2)%nat in
           (index, if (idx2 =? 0)%nat then pair else swap pair))
        (seq 0 2))
    (seq 0 nthreads).

(** The loop body for one slot; the power of the weights and the
    quotient under [np.arccos] work on numbers and may raise. *)
Definition fill_slot (r w : list vec) (z : Z) (p : list vec) (boxsize : vec)
    (rmax : R) (nr nphi ntheta : nat) (rotate : bool)
    (buffers : list (list fl) * list fl) (step : nat * (nat * nat))
  : result (list (list fl) * list fl) :=
  let (rbuff, wbuff) := buffers in
  let (index, pair) := step in
  let (i, j) := pair in
  let r_i := nth i r [] in
  let r_j := nth j r [] in
  let r_ij := map Some (displacement r_i r_j boxsize rmax) in
  let r_ij :=
    if rotate
    then let p_i := normalised (nth i p []) in
         let R := _rotation_matrix p_i in
         _matvec R r_ij
    else r_ij in
  bind (if (1 <? length wbuff)%nat
        then bind (scalar_pow (_dot (nth i w []) (nth j w [])) z)
                  (fun x => Ok (upd index x wbuff))
        else Ok wbuff) (fun wbuff =>
  bind (write_coords (nth index rbuff []) r_ij nr nphi ntheta) (fun row =>
  Ok (upd index row rbuff, wbuff))).

(** The two loops; an iteration that raises ends the call. *)
Definition _get_displacements (rbuff : list (list fl)) (wbuff : list fl)
    (pairs : list (nat * nat)) (r w : list vec) (z : Z) (p : list vec)
    (boxsize : vec) (rmax : R) (nr nphi ntheta : nat)
  : result (list (list fl) * list fl) :=
  let rotate := shape2_eqb (shape2 p) (shape2 r) in
  fold_left (fun buffers step =>
               bind buffers (fun buffers =>
                 fill_slot r w z p boxsize rmax nr nphi ntheta rotate
                           buffers step))
            (schedule pairs) (Ok (rbuff, wbuff)).

Definition _get_distribution (rij : list (list fl)) (wiwj : list fl)
    (N : nat) (boxsize r_n phi_m theta_l : vec) : result ndarray :=
  let bins := filter (fun b => (2 <? length b)%nat) [r_n; phi_m; theta_l] in
  let weights := if (1 <? length wiwj)%nat then Some wiwj else None in
  bind (histogramdd (Rows rij) bins weights) (fun count =>
  scale_count count N boxsize r_n phi_m theta_l).

(** A bin count: [1 if n is None or n < 1 else n]. *)
Definition bin_count (n : option nat) : nat :=
  match n with
  | None => 1%nat
  | Some n => if (n <? 1)%nat then 1%nat else n
  end.

Definition output : Type := ndarray * vec * vec * option vec.

(** [corr]: the caller's arrays after the call and what the call
    returns or raises; [None] when a loop of [_impose_pbc] exceeds the
    budget. *)
Definition corr (fuel : nat) (caller : arrays) (boxsize : vec) (z : Z)
    (rmin rmax : option R) (nr nphi ntheta : option nat)
  : option (arrays * result output) :=
  let (N, ndim) := shape2 (positions caller) in
  if negb ((ndim =? 2)%nat || (ndim =? 3)%nat)
  then Some (caller, Raise (ValueError dimension_message))
  else
  let orientations_ok :=
    match orientations caller with
    | Some o => shape2_eqb (shape2 o) (N, ndim)
    | None => true
    end in
  if negb orientations_ok
  then Some (caller, Raise (ValueError
         "Shape of orientations must match positions array"%string))
  else
  let p := match orientations caller with
           | Some o => o
           | None => [repeat 0 ndim]
           end in
  let weights_ok :=
    match weights caller with
    | Some w => shape2_eqb (shape2 w) (N, ndim)
    | None => true
    end in
  if negb weights_ok
  then Some (caller, Raise (ValueError
         "Shape of weights must match positions array"%string))
  else
  let w := match weights caller with
           | Some w => w
           | None => [repeat 0 ndim]
           end in
  let rmin := match rmin with None => 0 | Some x => x end in
  let rmax := match rmax with None => vmax boxsize / 2 | Some x => x end in
  let nr := bin_count nr in
  let nphi := bin_count nphi in
  let ntheta := if (ndim =? 2)%nat then 1%nat else bin_count ntheta in
  let ncoords := length (filter (fun n => (1 <? n)%nat) [nr; nphi; ntheta]) in
  match _impose_pbc fuel (positions caller) boxsize with
  | None => None
  | Some coords =>
      let caller := set_positions caller coords in
      let pairs := _get_pairs coords boxsize rmax in
      let npairs := length pairs in
      if (npairs =? 0)%nat
      then Some (caller, Raise (ValueError
             "Counted 0 pairs. Try increasing rmax"%string))
      else
        let rbuff := repeat (repeat (Some 0) ncoords) (2 * npairs) in
        let wbuff := if (1 <? fst (shape2 w))%nat
                     then repeat (Some 0) (2 * npairs)
                     else [] in
        let r_n := linspace rmin rmax (nr + 1) in
        let phi_m :=
          map (fun x => 2 * PI * x - PI) (linspace 0 1 (nphi + 1)) in
        let theta_l := map (fun x => PI * x) (linspace 0 1 (ntheta + 1)) in
        Some (caller,
              bind (_get_displacements rbuff wbuff pairs coords w z p
                                       boxsize rmax nr nphi ntheta)
                   (fun buffers =>
              let (rij, wiwj) := buffers in
              bind (_get_distribution rij wiwj N boxsize r_n phi_m theta_l)
                   (fun g =>
                      Ok (g, removelast r_n, removelast phi_m,
                          if (ndim =? 3)%nat
                          then Some (removelast theta_l)
                          else None))))
  end.

End WithLibrary.

End Correlations.

(** ** particle_cloud.py *)

Module Cloud.

Section WithLibrary.
Context `{Library}.

(** The inner function [S(q)] of [structure_factor]. *)
Definition S (gr r : vec) (N : nat) (boxsize : vec) (ndim : nat) (q : R)
  : R :=
  let rho := INR N / prod boxsize in
  if (ndim =? 3)%nat
  then let f := zip_with (fun r_k g_k => sin (q * r_k) * r_k * (g_k - 1))
                         r gr in
       1 + 4 * PI * rho * simps f r / q
  else let f := zip_with (fun r_k g_k => jv 0 (q * r_k) * r_k * (g_k - 1))
                         r gr in
       1 + 2 * PI * rho * simps f r.

Definition structure_factor (gr r : vec) (N : nat) (boxsize : vec)
    (q : option vec) : result (vec * vec) :=
  let ndim := length boxsize in
  if negb ((ndim =? 2)%nat || (ndim =? 3)%nat)
  then Raise (ValueError dimension_message)
  else
    let q := match q with
             | Some q => q
             | None => let dq := 2 * PI / vmax boxsize in
                       arange dq (200 * dq) dq
             end in
    Ok (map (S gr r N boxsize ndim) q, q).

(** The matrix [R] built inside [_get_displacements] from the
    normalised orientation [p_i]. *)
Definition rotation (ndim : nat) (p_i : list fl) : list (list fl) :=
  let angle := fl_arccos (last p_i (Some 0)) in
  let c := fl_cos angle in
  let s := fl_sin angle in
  if (ndim =? 2)%nat
  then [[c; fl_opp s]; [s; c]]
  else [[c; fl_opp s; Some 0]; [s; c; Some 0]; [Some 0; Some 0; Some 1]].

(** The displacement of one ordered pair after the optional rotation. *)
Definition pair_displacement (r p : list vec) (boxsize : vec) (rmax : R)
    (rotate : bool) (ndim : nat) (pair : nat * nat) : list fl :=
  let (i, j) := pair in
  let r_i := nth i r [] in
  let r_j := nth j r [] in
  let r_ij := map Some (displacement r_i r_j boxsize rmax) in
  if rotate
  then let p_i := normalised (nth i p []) in
       _matvec (rotation ndim p_i) r_ij
  else r_ij.

(** The orientations argument [p] is a two-dimensional array, or
    ([None]) the array [np.array([])] that [sdf] passes when the caller
    gives no orientations.  That array has one axis, so [p[i]] is a
    number, [np.linalg.norm(p[i])] has no type, and numba refuses the
    call.  [r_ij[2] / norm] divides one number by another and may
    raise. *)
Definition _get_displacements (r : list vec) (p : option (list vec))
    (pairs : list (nat * nat)) (boxsize : vec) (rmax : R)
    (nr nphi ntheta : nat)
  : result (list fl * list fl * list fl) :=
  match p with
  | None => Raise TypingError
  | Some p =>
      let rotate := shape2_eqb (shape2 p) (shape2 r) in
      let ndim := snd (shape2 r) in
      let r_of := pair_displacement r p boxsize rmax rotate ndim in
      let rnorm :=
        if (1 <? nr)%nat
        then map (fun pair => linalg_norm (r_of pair)) pairs
        else [Some 0] in
      let phi :=
        if (1 <? nphi)%nat
        then map (fun pair =>
                    arctan2 (fat (r_of pair) 1) (fat (r_of pair) 0))
                 pairs
        else [Some 0] in
      bind (if (1 <? ntheta)%nat
            then map_result
                   (fun pair =>
                      bind (scalar_div (fat (r_of pair) 2)
                                       (linalg_norm (r_of pair)))
                           (fun q => Ok (fl_arccos q)))
                   pairs
            else Ok [Some 0]) (fun theta =>
      Ok (rnorm, phi, theta))
  end.

Definition _get_pairs (coords : list vec) (boxsize : vec) (rmax : R)
  : list (nat * nat) :=
  let temp := query_pairs coords boxsize rmax in
  temp ++ map swap temp.

Definition _get_distribution (r phi theta : list fl) (N : nat)
    (boxsize r_n phi_m theta_l : vec) : result ndarray :=
  let chosen :=
    filter (fun sb : list fl * vec => (1 <? length (fst sb))%nat)
           [(r, r_n); (phi, phi_m); (theta, theta_l)] in
  let samples := map fst chosen in
  let bins := map snd chosen in
  bind (histogramdd (Columns samples) bins None) (fun count =>
  scale_count count N boxsize r_n phi_m theta_l).

Definition output : Type := ndarray * vec * vec * option vec.

(** [sdf]: the caller's arrays after the call and what the call returns
    or raises; [None] when a loop of [_impose_pbc] exceeds the budget.
    The module has no weights. *)
Definition sdf (fuel : nat) (caller : arrays) (boxsize : vec)
    (rmin rmax : option R) (nr : nat) (nphi ntheta : option nat)
  : option (arrays * result output) :=
  let (N, ndim) := shape2 (positions caller) in
  if negb ((ndim =? 2)%nat || (ndim =? 3)%nat)
  then Some (caller, Raise (ValueError dimension_message))
  else
  let orientations_ok :=
    match orientations caller with
    | Some o => shape2_eqb (shape2 o) (N, ndim)
    | None => true
    end in
  if negb orientations_ok
  then Some (caller, Raise (ValueError
         "Shape of orientations array must match positions array"%string))
  else
  let p := orientations caller in
  let rmin := match rmin with None => 0 | Some x => x end in
  let rmax := match rmax with None => vmax boxsize / 2 | Some x => x end in
  let nphi := match nphi with None => 1%nat | Some n => n end in
  let ntheta := match ntheta with
                | None => 1%nat
                | Some n => if (ndim =? 2)%nat then 1%nat else n
                end in
  match _impose_pbc fuel (positions caller) boxsize with
  | None => None
  | Some coords =>
      let caller := set_positions caller coords in
      let pairs := _get_pairs coords boxsize rmax in
      let r_n := linspace rmin rmax (nr + 1) in
      let phi_m := map (fun x => 2 * PI * x - PI) (linspace 0 1 (nphi + 1)) in
      let theta_l := map (fun x => PI * x) (linspace 0 1 (ntheta + 1)) in
      Some (caller,
            bind (_get_displacements coords p pairs boxsize rmax
                                     nr nphi ntheta)
                 (fun samples =>
            let '(r, phi, theta) := samples in
            bind (_get_distribution r phi theta N boxsize r_n phi_m theta_l)
                 (fun g =>
                    Ok (g, removelast r_n, removelast phi_m,
                        if (ndim =? 3)%nat
                        then Some (removelast theta_l)
                        else None))))
  end.

End WithLibrary.

End Cloud.

(** ** The histogram

    Modelled from the spec: [np.histogramdd] is a numpy routine and not
    part of the repository.  Section 4.5 fixes what the claims need of
    it: the samples are binned over the binned axes only, every bin is
    closed on the left and open on the right, except the last bin of an
    axis, which also holds its right edge; a weighted sample adds its
    weight instead of one.  A sample outside every bin of some axis,
    or with a NaN coordinate, is in no cell. *)

Module Histogram.

(** Bin [k] of an axis with the given edges holds [x]. *)
Definition in_bin (edges : vec) (k : nat) (x : R) : bool :=
  let nbins := (length edges - 1)%nat in
  let lo := at_ edges k in
  let hi := at_ edges (k + 1) in
  if Rle_dec lo x
  then if Rlt_dec x hi then true
       else if Req_dec_T x hi then (S k =? nbins)%nat else false
  else false.

(** The bin of [x] on one axis. *)
Definition bin_of (edges : vec) (x : fl) : option nat :=
  match x with
  | None => None
  | Some x => find (fun k => in_bin edges k x) (seq 0 (length edges - 1))
  end.

(** The cell of a sample point: its bin on every axis. *)
Fixpoint cell_of (bins : list vec) (point : list fl) : option (list nat) :=
  match bins, point with
  | [], [] => Some []
  | edges :: bins', x :: point' =>
      match bin_of edges x, cell_of bins' point' with
      | Some k, Some c => Some (k :: c)
      | _, _ => None
      end
  | _, _ => None
  end.

(** All cells of a grid of the given shape, in row-major order. *)
Fixpoint cells (shp : list nat) : list (list nat) :=
  match shp with
  | [] => [[]]
  | n :: rest => flat_map (fun k => map (cons k) (cells rest)) (seq 0 n)
  end.

Definition cell_eqb (c d : list nat) : bool :=
  if list_eq_dec Nat.eq_dec c d then true else false.

Definition lands_in (bins : list vec) (c : list nat) (point : list fl)
  : bool :=
  match cell_of bins point with
  | Some d => cell_eqb c d
  | None => false
  end.

(** The entry of one cell: the weights of the samples that land in it
    added up. *)
Definition cell_total (bins : list vec) (points : list (list fl))
    (ws : list fl) (c : list nat) : fl :=
  fold_left (fun acc (pw : list fl * fl) =>
               if lands_in bins c (fst pw) then fl_add acc (snd pw) else acc)
            (combine points ws) (Some 0).

(** The sample as one point per row. *)
Definition points_of (s : sample) : list (list fl) :=
  match s with
  | Rows points => points
  | Columns coords =>
      map (fun n => map (fun col => fat col n) coords)
          (seq 0 (length (hd [] coords)))
  end.

(** The number of coordinates of a sample point; numpy reads an empty
    sequence as one empty coordinate. *)
Definition sample_dim (s : sample) : nat :=
  match s with
  | Rows points => length (hd [] points)
  | Columns [] => 1%nat
  | Columns coords => length coords
  end.

(** The count grid; numpy wants one array of edges for every
    coordinate of the sample. *)
Definition histogramdd (s : sample) (bins : list vec)
    (weights : option (list fl)) : result ndarray :=
  if negb (length bins =? sample_dim s)%nat
  then Raise (ValueError
         "The dimension of bins must be equal to the dimension of the sample"%string)
  else
    let points := points_of s in
    let ws := match weights with
              | Some w => w
              | None => repeat (Some 1) (length points)
              end in
    let shp := map (fun edges => (length edges - 1)%nat) bins in
    Ok (mk_ndarray shp (map (cell_total bins points ws) (cells shp))).

(** A sample point is counted: it lands in some cell. *)
Definition counted (bins : list vec) (point : list fl) : bool :=
  match cell_of bins point with
  | Some _ => true
  | None => false
  end.

End Histogram.

(** All entries of a grid added up. *)
Definition fl_sum (l : list fl) : fl := fold_right fl_add (Some 0) l.

(** A library whose histogram is the one above. *)
Definition with_histogram (L : Library) : Library :=
  {| simps := @simps L;
     jv := @jv L;
     arange := @arange L;
     arctan2 := @arctan2 L;
     query_pairs := @query_pairs L;
     histogramdd := Histogram.histogramdd;
     broadcast_divide := @broadcast_divide L |}.

(** The edges of an axis increase. *)
Fixpoint increasing (edges : vec) : Prop :=
  match edges with
  | [] => True
  | x :: t =>
      match t with
      | [] => True
      | y :: _ => x < y /\ increasing t
      end
  end.

(** A library whose tree reports the given pairs. *)
Definition with_pairs (L : Library) (found : list (nat * nat)) : Library :=
  {| simps := @simps L;
     jv := @jv L;
     arange := @arange L;
     arctan2 := @arctan2 L;
     query_pairs := fun _ _ _ => found;
     histogramdd := @histogramdd L;
     broadcast_divide := @broadcast_divide L |}.

(** Equality of index pairs is decidable. *)
Definition pair_eq_dec (x y : nat * nat) : {x = y} + {x <> y}.
Proof. decide equality; apply Nat.eq_dec. Defined.

(** A library to run the two modules on concrete data: its tree
    reports a fixed list of pairs and its histogram is the one above;
    the quadrature, the Bessel function, the wavenumber grid and the
    angle are fixed values. *)
Definition fixed_library (found : list (nat * nat)) : Library :=
  {| simps := fun _ _ => 0;
     jv := fun _ _ => 0;
     arange := fun _ _ _ => [];
     arctan2 := fun _ _ => Some 0;
     query_pairs := fun _ _ _ => found;
     histogramdd := Histogram.histogramdd;
     broadcast_divide := fun _ _ =>
       Raise (ValueError "operands could not be broadcast together"%string) |}.

(** Every side of the box is positive. *)
Definition positive_sides (boxsize : vec) : Prop :=
  Forall (fun side => 0 < side) boxsize.

(** Every component of the particle that has a box side lies between
    zero and that side, both ends included. *)
Definition within (boxsize p : vec) : Prop :=
  forall i : nat,
    (i < length boxsize)%nat -> (i < length p)%nat ->
    0 <= at_ p i <= at_ boxsize i.

Definition in_box (boxsize : vec) (coords : list vec) : Prop :=
  Forall (within boxsize) coords.

(** A sample point lies inside the edges on every axis: every
    coordinate is a number between the first and the last edge of its
    axis, both included. *)
Definition inside_axis (edges : vec) (x : fl) : Prop :=
  exists v : R,
    x = Some v /\ at_ edges 0 <= v <= at_ edges (length edges - 1).

Definition inside (bins : list vec) (point : list fl) : Prop :=
  Forall2 inside_axis bins point.

(** An entry is a number; an entry is a number other than zero. *)
Definition finite (v : fl) : Prop := exists x : R, v = Some x.

Definition finite_nonzero (v : fl) : Prop :=
  exists x : R, v = Some x /\ x <> 0.

(** The number of entries of a grid of the given shape. *)
Definition size (shp : list nat) : nat := fold_right Nat.mul 1%nat shp.

(** ** Vocabulary of the statements *)

(** What [_impose_pbc] does to one particle: the length is kept, a
    component with a box side ends between zero and the side and has
    moved by a whole number of sides, a component without a box side
    is left alone. *)
Definition wrapped (boxsize p p' : vec) : Prop :=
  length p' = length p
  /\ forall i : nat, (i < length p)%nat ->
       ((i < length boxsize)%nat ->
        0 <= at_ p' i <= at_ boxsize i
        /\ exists k : Z, at_ p' i = at_ p i + IZR k * at_ boxsize i)
       /\ ((length boxsize <= i)%nat -> at_ p' i = at_ p i).

(** The entries of an array added up. *)
Definition Rsum (l : vec) : R := fold_right Rplus 0 l.

(** The displacement the minimum-image rule asks for, for a target
    [r_i], a source [r_j] and a cutoff [rmax]: the difference itself
    while its norm is below the cutoff; from the cutoff on, image minus
    target, where the image takes on every axis, whatever it takes on
    the other axes, the one of source, source - side and source + side
    that is nearest to the target coordinate. *)
Definition minimum_image (r_i r_j boxsize : vec) (rmax : R) (d : vec)
  : Prop :=
  (_norm (vsub r_j r_i) < rmax -> d = vsub r_j r_i)
  /\ (_norm (vsub r_j r_i) >= rmax ->
      exists image : vec,
        d = vsub image r_i
        /\ length image = length r_i
        /\ forall k : nat, (k < length r_i)%nat ->
             let candidates := [at_ r_j k;
                                at_ r_j k - at_ boxsize k;
                                at_ r_j k + at_ boxsize k] in
             In (at_ image k) candidates
             /\ forall c, In c candidates ->
                  Rabs (at_ image k - at_ r_i k) <= Rabs (c - at_ r_i k)).

(** The vector a kernel takes the coordinates of: the displacement
    itself, or, when orientations are given, the displacement turned by
    the matrix [M] of the orientation of the target. *)
Definition turned (rotate : bool) (M : list (list fl)) (d : vec) : list fl :=
  if rotate then _matvec M (map Some d) else map Some d.

(** The vector [particle_correlations.py] takes the coordinates of
    for the ordered pair (i, j), and the number it raises to the power
    z for the weight of the pair. *)
Definition corr_vector (r p : list vec) (boxsize : vec) (rmax : R)
    (rotate : bool) (pair : nat * nat) : list fl :=
  turned rotate
         (Correlations._rotation_matrix (normalised (nth (fst pair) p [])))
         (displacement (nth (fst pair) r []) (nth (snd pair) r [])
                       boxsize rmax).

Definition pair_weight (w : list vec) (pair : nat * nat) : R :=
  _dot (nth (fst pair) w []) (nth (snd pair) w []).

(** The columns of the buffer of [particle_correlations.py]: one for
    every coordinate with more than one bin, in the order r, phi,
    theta. *)
Definition phi_column (nr : nat) : nat :=
  if (1 <? nr)%nat then 1%nat else 0%nat.

Definition theta_column (nr nphi : nat) : nat :=
  (phi_column nr + if (1 <? nphi)%nat then 1 else 0)%nat.

Definition ncoords (nr nphi ntheta : nat) : nat :=
  length (filter (fun n => (1 <? n)%nat) [nr; nphi; ntheta]).

(** An orientation the rotation of [particle_correlations.py] can
    handle: not the zero vector, and in three dimensions not parallel to
    the z axis. *)
Definition turnable (p_i : vec) : Prop :=
  0 < _norm p_i
  /\ (length p_i = 3%nat -> 0 < at_ p_i 0 * at_ p_i 0 + at_ p_i 1 * at_ p_i 1).

(** The particles the pairs name are rows with [ndim] entries: what a
    two-dimensional array with [ndim] columns gives for indices in
    range. *)
Definition rows_of (ndim : nat) (a : list vec) (pairs : list (nat * nat))
  : Prop :=
  forall i j : nat, In (i, j) pairs ->
    length (nth i a []) = ndim /\ length (nth j a []) = ndim.

(** The tests [corr] and [sdf] make on the shapes of their arrays, in
    the order they make them. *)
Definition dimension_ok (a : arrays) : bool :=
  let ndim := snd (shape2 (positions a)) in
  (ndim =? 2)%nat || (ndim =? 3)%nat.

Definition orientations_ok (a : arrays) : bool :=
  match orientations a with
  | Some o => shape2_eqb (shape2 o) (shape2 (positions a))
  | None => true
  end.

Definition weights_ok (a : arrays) : bool :=
  match weights a with
  | Some w => shape2_eqb (shape2 w) (shape2 (positions a))
  | None => true
  end.

(** [other] is a periodic image of [source]: on every axis it differs
    from it by a whole number of box sides. *)
Definition periodic_image (boxsize source other : vec) : Prop :=
  length other = length source
  /\ forall k : nat, (k < length source)%nat ->
       exists m : Z, at_ other k = at_ source k + IZR m * at_ boxsize k.

(** A 3 x 3 matrix without a single number in it. *)
Definition all_nan : list (list fl) :=
  [[None; None; None]; [None; None; None]; [None; None; None]].

(** An accepted call: the shape tests of [corr], and those of [sdf],
    which has no weights. *)
Definition accepted_by_corr (a : arrays) : bool :=
  dimension_ok a && orientations_ok a && weights_ok a.

Definition accepted_by_sdf (a : arrays) : bool :=
  dimension_ok a && orientations_ok a.

(** The message of numpy when the number of edge arrays is not the
    number of coordinates of the sample. *)
Definition bins_message : string :=
  "The dimension of bins must be equal to the dimension of the sample"%string.

(** The message of [corr] when the tree finds no pair. *)
Definition zero_pairs_message : string :=
  "Counted 0 pairs. Try increasing rmax"%string.

(** * Properties *)

(** ** Lists *)

Section ListFacts.
Context {A B C : Type}.

Lemma nth_map_seq (f : nat -> A) (len i : nat) (d : A) :
  (i < len)%nat -> nth i (map f (seq 0 len)) d = f i.
Proof.
  intros Hi.
  rewrite (nth_indep _ d (f 0%nat)) by now rewrite length_map, length_seq.
  rewrite (map_nth f (seq 0 len) 0%nat i).
  now rewrite seq_nth.
Qed.

Lemma zip_with_map_r (f : A -> B -> C) (g : B -> B) (a : list A) (b : list B) :
  zip_with f a (map g b) = zip_with (fun x y => f x (g y)) a b.
Proof.
  revert b; induction a as [|x a IH]; intros [|y b]; simpl; trivial.
  now rewrite IH.
Qed.

Lemma zip_with_ext (f g : A -> B -> C) (a : list A) (b : list B) :
  (forall x y, f x y = g x y) -> zip_with f a b = zip_with g a b.
Proof.
  intros E; revert b; induction a as [|x a IH]; intros [|y b]; simpl; trivial.
  now rewrite E, IH.
Qed.

End ListFacts.

(** ** Volume elements *)

(** C1: for dimension 2 or 3 the volume element of cell (n, m, l) is
    the product of the radial factor (r_{n+1}^d - r_n^d)/d and the
    azimuthal width phi_{m+1} - phi_m, multiplied by
    cos(theta_l) - cos(theta_{l+1}) exactly when d = 3; the grid does not
    depend on the count array that is passed in. *)
Theorem C1_volume_element :
  forall (count count' : ndarray) (r phi theta : vec) (d n m l : nat),
    d = 2%nat \/ d = 3%nat ->
    (n < length r - 1)%nat ->
    (m < length phi - 1)%nat ->
    (l < length theta - 1)%nat ->
    cell (_get_volume count r phi theta d) n m l
    = (at_ r (n + 1) ^ d - at_ r n ^ d) / INR d
      * (at_ phi (m + 1) - at_ phi m)
      * (if (d =? 3)%nat
         then cos (at_ theta l) - cos (at_ theta (l + 1))
         else 1)
    /\ _get_volume count r phi theta d = _get_volume count' r phi theta d.
Proof.
  intros count count' r phi theta d n m l Hd Hn Hm Hl.
  split; [|reflexivity].
  unfold cell, _get_volume.
  rewrite (nth_map_seq _ _ n) by assumption.
  rewrite (nth_map_seq _ _ m) by assumption.
  rewrite (nth_map_seq _ _ l) by assumption.
  destruct Hd as [-> | ->]; cbn [Nat.eqb]; ring.
Qed.

Lemma C1_volume_element_witness :
  cell (_get_volume (mk_ndarray [] []) [0; 1; 2] [0; 1] [0; 1] 3) 1 0 0
  = (at_ [0; 1; 2] (1 + 1) ^ 3 - at_ [0; 1; 2] 1 ^ 3) / INR 3
    * (at_ [0; 1] (0 + 1) - at_ [0; 1] 0)
    * (if (3 =? 3)%nat
       then cos (at_ [0; 1] 0) - cos (at_ [0; 1] (0 + 1))
       else 1)
  /\ _get_volume (mk_ndarray [] []) [0; 1; 2] [0; 1] [0; 1] 3
     = _get_volume (mk_ndarray [2%nat] [Some 5; Some 7])
                   [0; 1; 2] [0; 1] [0; 1] 3.
Proof.
  apply (C1_volume_element
           (mk_ndarray [] []) (mk_ndarray [2%nat] [Some 5; Some 7])
           [0; 1; 2] [0; 1] [0; 1] 3 1 0 0);
    [right; reflexivity | simpl; lia | simpl; lia | simpl; lia].
Defined.

(** ** Structure factor *)

(** C2: in a three-dimensional box both transforms return, for every
    wavenumber of the grid and in the order of the grid,
    1 + 4 pi rho / q * simps(r sin(q r) (g - 1), r); in a two-dimensional
    box 1 + 2 pi rho * simps(r J0(q r) (g - 1), r), with rho = N / V;
    the grid itself is returned unchanged beside the values. *)
Theorem C2_structure_factor_transform :
  forall (L : Library) (gr r : vec) (N : nat) (a b c : R) (q : option vec),
    let grid := fun boxsize =>
      match q with
      | Some q => q
      | None => let dq := 2 * PI / vmax boxsize in arange dq (200 * dq) dq
      end in
    let G := map (fun g => g - 1) gr in
    let S3 := fun q_j =>
      1 + 4 * PI * (INR N / prod [a; b; c]) / q_j
          * simps (zip_with (fun r_k G_k => r_k * sin (q_j * r_k) * G_k) r G)
                  r in
    let S2 := fun q_j =>
      1 + 2 * PI * (INR N / prod [a; b])
          * simps (zip_with (fun r_k G_k => r_k * jv 0 (q_j * r_k) * G_k) r G)
                  r in
    Correlations.fourier_corr gr r N [a; b; c] q
    = Ok (map S3 (grid [a; b; c]), grid [a; b; c])
    /\ Cloud.structure_factor gr r N [a; b; c] q
       = Ok (map S3 (grid [a; b; c]), grid [a; b; c])
    /\ Correlations.fourier_corr gr r N [a; b] q
       = Ok (map S2 (grid [a; b]), grid [a; b])
    /\ Cloud.structure_factor gr r N [a; b] q
       = Ok (map S2 (grid [a; b]), grid [a; b]).
Proof.
  intros L gr r N a b c q grid G S3 S2.
  unfold Correlations.fourier_corr, Cloud.structure_factor;
    cbn [length Nat.eqb orb negb].
  repeat split; do 2 f_equal; apply map_ext; intros q_j;
    unfold Correlations.S, Cloud.S, S3, S2, G, Correlations.spatial;
    cbn [Nat.eqb];
    rewrite ?zip_with_map_r.
  - rewrite (zip_with_ext _ (fun x y => x * sin (q_j * x) * (y - 1)))
      by (intros; ring).
    unfold Rdiv; ring.
  - rewrite (zip_with_ext _ (fun x y => x * sin (q_j * x) * (y - 1)))
      by (intros; ring).
    unfold Rdiv; ring.
  - rewrite (zip_with_ext _ (fun x y => x * jv 0 (q_j * x) * (y - 1)))
      by (intros; ring).
    reflexivity.
  - rewrite (zip_with_ext _ (fun x y => x * jv 0 (q_j * x) * (y - 1)))
      by (intros; ring).
    reflexivity.
Qed.

(** ** Minimum image *)

Lemma argmin_from_spec (l : vec) :
  forall (best_i : nat) (best : R) (i : nat),
    let res := argmin_from best_i best i l in
    (res = best_i /\ forall x, In x l -> best <= x)
    \/ (exists k, (k < length l)%nat /\ res = (i + k)%nat
                  /\ nth k l 0 < best
                  /\ forall x, In x l -> nth k l 0 <= x).
Proof.
  induction l as [|x t IH]; intros best_i best i; simpl.
  - left; split; [reflexivity | intros y []].
  - destruct (Rlt_dec x best) as [Hlt | Hge].
    + destruct (IH i x (S i)) as [[E Hall] | [k [Hk [E [Hb Hall]]]]].
      * right; exists 0%nat; simpl; repeat split.
        -- lia.
        -- rewrite E; lia.
        -- assumption.
        -- intros y [<- | Hy]; [lra | now apply Hall].
      * right; exists (S k); simpl; repeat split.
        -- lia.
        -- rewrite E; lia.
        -- lra.
        -- intros y [<- | Hy]; [lra | now apply Hall].
    + destruct (IH best_i best (S i)) as [[E Hall] | [k [Hk [E [Hb Hall]]]]].
      * left; split; [assumption|].
        intros y [<- | Hy]; [lra | now apply Hall].
      * right; exists (S k); simpl; repeat split.
        -- lia.
        -- rewrite E; lia.
        -- assumption.
        -- intros y [<- | Hy]; [lra | now apply Hall].
Qed.

Lemma argmin_spec (l : vec) :
  l <> [] ->
  (argmin l < length l)%nat /\ forall x, In x l -> nth (argmin l) l 0 <= x.
Proof.
  destruct l as [|x t]; [congruence | intros _].
  unfold argmin.
  destruct (argmin_from_spec t 0%nat x 1%nat)
    as [[E Hall] | [k [Hk [E [Hb Hall]]]]]; rewrite E; simpl.
  - split; [lia|]. intros y [<- | Hy]; [lra | now apply Hall].
  - split; [lia|]. intros y [<- | Hy]; [lra | now apply Hall].
Qed.

(** [_closest_point1d] returns an entry of [positions] that is at least
    as close to the target as every other entry. *)
Lemma _closest_point1d_spec (target : R) (positions : vec) :
  positions <> [] ->
  let pos := fst (_closest_point1d target positions) in
  In pos positions
  /\ forall p, In p positions -> Rabs (pos - target) <= Rabs (p - target).
Proof.
  intros Hne; unfold _closest_point1d; cbn [fst].
  set (distance := map (fun p => Rabs (p - target)) positions).
  assert (Hd : distance <> []).
  { unfold distance; destruct positions; simpl; congruence. }
  destruct (argmin_spec distance Hd) as [Hlt Hmin].
  assert (Hlen : length distance = length positions)
    by apply length_map.
  split.
  - apply nth_In; lia.
  - intros p Hp.
    assert (E : nth (argmin distance) distance 0
                = Rabs (at_ positions (argmin distance) - target)).
    { unfold at_.
      rewrite (nth_indep _ 0 (Rabs (0 - target))) by assumption.
      apply (map_nth (fun p => Rabs (p - target))). }
    rewrite <- E; apply Hmin.
    unfold distance; apply in_map_iff; now exists p.
Qed.

Lemma _closest_image_at (target source boxsize : vec) (k : nat) :
  (k < length target)%nat ->
  at_ (_closest_image target source boxsize) k
  = fst (_closest_point1d (at_ target k)
           [at_ source k;
            at_ source k - at_ boxsize k;
            at_ source k + at_ boxsize k]).
Proof.
  intros Hk; unfold _closest_image.
  unfold at_ at 1.
  now rewrite nth_map_seq.
Qed.

(** [displacement] follows the minimum-image rule. *)
Lemma displacement_minimum_image (r_i r_j boxsize : vec) (rmax : R) :
  minimum_image r_i r_j boxsize rmax (displacement r_i r_j boxsize rmax).
Proof.
  split.
  - intros Hlt; unfold displacement.
    destruct (Rge_dec _ rmax) as [Hge | _]; [lra | reflexivity].
  - intros Hge; exists (_closest_image r_i r_j boxsize).
    split; [|split].
    + unfold displacement.
      destruct (Rge_dec _ rmax) as [_ | Hn]; [reflexivity | contradiction].
    + unfold _closest_image; now rewrite length_map, length_seq.
    + intros k Hk candidates.
      unfold candidates; rewrite _closest_image_at by assumption.
      apply _closest_point1d_spec; discriminate.
Qed.

Lemma norm_8_0 : _norm (vsub [9; 5] [1; 5]) = 8.
Proof.
  unfold _norm, _dot; simpl.
  replace (0 + (9 - 1) * (9 - 1) + (5 - 5) * (5 - 5)) with (8 * 8) by ring.
  apply sqrt_square; lra.
Qed.

(** Deciding the comparisons of a concrete computation. *)
Ltac decide_reals :=
  repeat match goal with
         | |- context [Rabs ?x] =>
             let v := fresh "v" in
             let E := fresh "E" in
             remember (Rabs x) as v eqn:E;
             unfold Rabs in E; destruct (Rcase_abs x) in E; try lra
         end;
  subst;
  repeat match goal with
         | |- context [Rlt_dec ?a ?b] => destruct (Rlt_dec a b); try lra
         | |- context [Rle_dec ?a ?b] => destruct (Rle_dec a b); try lra
         | |- context [Rgt_dec ?a ?b] => destruct (Rgt_dec a b); try lra
         | |- context [Rge_dec ?a ?b] => destruct (Rge_dec a b); try lra
         | |- context [Req_dec_T ?a ?b] => destruct (Req_dec_T a b); try lra
         end.

(** A pair that straddles a face of a 10 x 10 box: the particle at
    x = 9 is seen from x = 1 through the face, at x = -1. *)
Example displacement_across_face :
  displacement [1; 5] [9; 5] [10; 10] 5 = [-2; 0].
Proof.
  unfold displacement; rewrite norm_8_0.
  destruct (Rge_dec 8 5) as [_ | Hn]; [|lra].
  unfold _closest_image, _closest_point1d, argmin; simpl.
  unfold at_; simpl.
  decide_reals; simpl; f_equal; try ring; f_equal; ring.
Qed.

(** ** Rotation into the frame of the orientation *)

Lemma nth_map_Some (a : vec) (i : nat) :
  nth i (map Some a) (Some 0) = Some (nth i a 0).
Proof. apply (map_nth Some). Qed.

Lemma fold_dot_Some (a b : vec) (l : list nat) (acc : R) :
  fold_left (fun dot i =>
               fl_add dot (fl_mul (nth i (map Some a) (Some 0))
                                  (nth i (map Some b) (Some 0))))
            l (Some acc)
  = Some (fold_left (fun dot i => dot + nth i a 0 * nth i b 0) l acc).
Proof.
  revert acc; induction l as [|i l IH]; intros acc; simpl; [reflexivity|].
  rewrite !nth_map_Some; simpl.
  apply IH.
Qed.

Lemma _dot_Some (a b : vec) :
  _dot (map Some a) (map Some b) = Some (_dot a b).
Proof.
  unfold _dot; rewrite length_map.
  apply fold_dot_Some.
Qed.

Lemma fold_dot_nonneg (a : vec) (l : list nat) (acc : R) :
  0 <= acc ->
  0 <= fold_left (fun dot i => dot + nth i a 0 * nth i a 0) l acc.
Proof.
  revert acc; induction l as [|i l IH]; intros acc Hacc; simpl; [assumption|].
  apply IH.
  pose proof (Rle_0_sqr (nth i a 0)) as Hs; unfold Rsqr in Hs; lra.
Qed.

Lemma _dot_self_nonneg (a : vec) : 0 <= _dot a a.
Proof. unfold _dot; apply fold_dot_nonneg; simpl; lra. Qed.

Lemma _norm_Some (a : vec) : _norm (map Some a) = Some (_norm a).
Proof.
  unfold _norm; rewrite _dot_Some; simpl.
  destruct (Rlt_dec (_dot a a) 0) as [Hneg | _]; [|reflexivity].
  pose proof (_dot_self_nonneg a); lra.
Qed.

(** Normalising a vector of length one changes nothing. *)
Lemma normalised_unit (p : vec) : _norm p = 1 -> normalised p = map Some p.
Proof.
  intros Hp; unfold normalised.
  rewrite _norm_Some, Hp, map_map.
  apply map_ext; intros c; simpl.
  destruct (Req_dec_T 1 0) as [H | _]; [lra|].
  f_equal; field.
Qed.

Lemma norm_minus_x_2d : _norm [-1; 0] = 1.
Proof.
  unfold _norm, _dot; simpl.
  replace (0 + -1 * -1 + 0 * 0) with 1 by ring.
  apply sqrt_1.
Qed.

Lemma norm_x_3d : _norm [1; 0; 0] = 1.
Proof.
  unfold _norm, _dot; simpl.
  replace (0 + 1 * 1 + 0 * 0 + 0 * 0) with 1 by ring.
  apply sqrt_1.
Qed.

Lemma norm_y_2d : _norm [0; 1] = 1.
Proof.
  unfold _norm, _dot; simpl.
  replace (0 + 0 * 0 + 1 * 1) with 1 by ring.
  apply sqrt_1.
Qed.

Lemma norm_z_3d : _norm [0; 0; 1] = 1.
Proof.
  unfold _norm, _dot; simpl.
  replace (0 + 0 * 0 + 0 * 0 + 1 * 1) with 1 by ring.
  apply sqrt_1.
Qed.

(** C4: the rotation does not always take the orientation to the
    reference axis.  In two dimensions both modules send the unit
    orientation (-1, 0) to (0, -1), not to (0, 1); in three dimensions
    the matrix of [particle_cloud.py] turns about the z axis and sends
    (1, 0, 0) to (0, 1, 0), not to (0, 0, 1). *)
Theorem C4_orientation_not_taken_to_reference_axis :
  _matvec (Correlations._rotation_matrix (normalised [-1; 0]))
          (normalised [-1; 0])
  = [Some 0; Some (-1)]
  /\ _matvec (Cloud.rotation 2 (normalised [-1; 0])) (normalised [-1; 0])
     = [Some 0; Some (-1)]
  /\ _matvec (Cloud.rotation 3 (normalised [1; 0; 0])) (normalised [1; 0; 0])
     = [Some 0; Some 1; Some 0].
Proof.
  rewrite (normalised_unit _ norm_minus_x_2d).
  rewrite (normalised_unit _ norm_x_3d).
  unfold Correlations._rotation_matrix, Cloud.rotation; simpl.
  decide_reals; simpl.
  rewrite acos_0, sin_PI2, cos_PI2.
  unfold _matvec, _dot; simpl.
  repeat split; repeat f_equal; ring.
Qed.

(** C5: in [particle_correlations.py] an orientation equal to the
    reference axis +z gives a rotation axis of length zero; dividing by
    that length makes every entry of the matrix, and so every component
    of every rotated displacement, non-finite. *)
Theorem C5_aligned_orientation_not_finite :
  forall x y z : R,
    Correlations._rotation_matrix (normalised [0; 0; 1])
    = [[None; None; None]; [None; None; None]; [None; None; None]]
    /\ _matvec (Correlations._rotation_matrix (normalised [0; 0; 1]))
               [Some x; Some y; Some z]
       = [None; None; None].
Proof.
  intros x y z.
  rewrite (normalised_unit _ norm_z_3d).
  unfold Correlations._rotation_matrix; cbn [length Nat.eqb last map].
  unfold _norm at 1 2 3 4 5 6; unfold _dot at 1 2 3 4 5 6; unfold fat; simpl.
  replace (0 + 0 * 0 + - 0 * - 0 + 0 * 0) with 0 by ring.
  rewrite sqrt_0.
  decide_reals; simpl.
  split; reflexivity.
Qed.

(** Where the aligned orientation is harmless: in two dimensions, and
    in both dimensions of [particle_cloud.py], the matrix is the
    identity. *)
Lemma aligned_orientation_identity :
  forall x y z : R,
    _matvec (Correlations._rotation_matrix (normalised [0; 1]))
            [Some x; Some y]
    = [Some x; Some y]
    /\ _matvec (Cloud.rotation 2 (normalised [0; 1])) [Some x; Some y]
       = [Some x; Some y]
    /\ _matvec (Cloud.rotation 3 (normalised [0; 0; 1]))
               [Some x; Some y; Some z]
       = [Some x; Some y; Some z].
Proof.
  intros x y z.
  rewrite (normalised_unit _ norm_y_2d).
  rewrite (normalised_unit _ norm_z_3d).
  unfold Correlations._rotation_matrix, Cloud.rotation; simpl.
  decide_reals; simpl.
  rewrite acos_1, sin_0, cos_0.
  unfold _matvec, _dot; simpl.
  repeat split; repeat f_equal; ring.
Qed.

(** Where the rotation does what its comment says.  In two dimensions
    an orientation of length one with a non-negative x component is
    taken to +y by both modules. *)
Lemma planar_rotation_aligns (a b : R) :
  a * a + b * b = 1 ->
  0 <= a ->
  _matvec (Correlations._rotation_matrix (normalised [a; b]))
          (normalised [a; b])
  = [Some 0; Some 1]
  /\ _matvec (Cloud.rotation 2 (normalised [a; b])) (normalised [a; b])
     = [Some 0; Some 1].
Proof.
  intros Hunit Ha.
  assert (Hnorm : _norm [a; b] = 1).
  { unfold _norm, _dot; simpl.
    replace (0 + a * a + b * b) with 1 by lra.
    apply sqrt_1. }
  rewrite (normalised_unit _ Hnorm).
  assert (Hb : -1 <= b <= 1) by (split; nra).
  assert (Hsin : sin (acos b) = a).
  { rewrite sin_acos by lra.
    replace (1 - b²) with (a²) by (unfold Rsqr; lra).
    now apply sqrt_Rsqr. }
  unfold Correlations._rotation_matrix, Cloud.rotation; simpl.
  destruct (Rle_dec (-1) b) as [_ | Hn]; [|lra].
  destruct (Rle_dec b 1) as [_ | Hn]; [|lra].
  simpl; rewrite Hsin, cos_acos by lra.
  unfold _matvec, _dot; simpl.
  split; repeat f_equal; try ring; rewrite <- Hunit; ring.
Qed.

(** In three dimensions the matrix of [particle_correlations.py] is
    Rodrigues' matrix about k = p x z, and takes an orientation of
    length one that is not parallel to the z axis to +z. *)
Lemma rodrigues_aligns (a b c : R) :
  a * a + b * b + c * c = 1 ->
  0 < a * a + b * b ->
  _matvec (Correlations._rotation_matrix (normalised [a; b; c]))
          (normalised [a; b; c])
  = [Some 0; Some 0; Some 1].
Proof.
  intros Hunit Hpos.
  assert (Hnorm : _norm [a; b; c] = 1).
  { unfold _norm, _dot; simpl.
    replace (0 + a * a + b * b + c * c) with 1 by lra.
    apply sqrt_1. }
  rewrite (normalised_unit _ Hnorm).
  assert (Hc : -1 <= c <= 1) by (split; nra).
  set (s := sqrt (a * a + b * b)).
  assert (Hs : s * s = a * a + b * b) by (apply sqrt_sqrt; lra).
  assert (Hs0 : s <> 0) by (intros E; rewrite E in Hs; lra).
  assert (Hsin : sin (acos c) = s).
  { rewrite sin_acos by lra; unfold s; f_equal; unfold Rsqr; lra. }
  unfold Correlations._rotation_matrix; cbn [length Nat.eqb last map].
  unfold _norm at 1 2 3; unfold _dot at 1 2 3; unfold fat; simpl.
  replace (0 + b * b + - a * - a + 0 * 0) with (a * a + b * b) by ring.
  fold s.
  destruct (Rlt_dec (a * a + b * b) 0) as [Hn | _]; [lra|].
  destruct (Req_dec_T s 0) as [E | _]; [contradiction|].
  destruct (Rle_dec (-1) c) as [_ | Hn]; [|lra].
  destruct (Rle_dec c 1) as [_ | Hn]; [|lra].
  simpl; rewrite Hsin.
  unfold _matvec, _matmul, _dot, column, mat_add, mat_scale; simpl.
  clearbody s; clear Hsin.
  repeat f_equal; field_simplify_eq; trivial.
  - replace (s ^ 2) with (a * a + b * b) by (rewrite <- Hs; ring); ring.
  - replace (s ^ 2) with (a * a + b * b) by (rewrite <- Hs; ring); ring.
  - replace (s ^ 2) with (a * a + b * b) by (rewrite <- Hs; ring).
    transitivity ((a * a + b * b) * (a * a + b * b + c * c)); [ring|].
    rewrite Hunit; ring.
Qed.

(** ** The doubled pair list *)

Lemma swap_injective (x y : nat * nat) : swap x = swap y -> x = y.
Proof. destruct x, y; unfold swap; simpl; congruence. Qed.

Lemma in_map_swap (temp : list (nat * nat)) (i j : nat) :
  In (i, j) (map swap temp) <-> In (j, i) temp.
Proof.
  rewrite in_map_iff; split.
  - intros [[a b] [E Hin]]; unfold swap in E; simpl in E.
    now inversion E; subst.
  - intros Hin; now exists (j, i).
Qed.

(** The slots the loops of [_get_displacements] write are all
    different. *)
Lemma slots_distinct (n a m : nat) :
  (a + m <= n)%nat ->
  NoDup (flat_map (fun i => [i; i + n]%nat) (seq a m)).
Proof.
  revert a; induction m as [|m IH]; intros a Ham; simpl; [constructor|].
  assert (Hrest : forall x, In x (flat_map (fun i => [i; i + n]%nat)
                                            (seq (S a) m)) ->
                            (a < x)%nat /\ x <> (a + n)%nat).
  { intros x Hx; apply in_flat_map in Hx.
    destruct Hx as [i [Hi Hx]]; apply in_seq in Hi.
    simpl in Hx; destruct Hx as [<- | [<- | []]]; lia. }
  constructor.
  - intros [E | Hin]; [lia|]. apply Hrest in Hin; lia.
  - constructor.
    + intros Hin; apply Hrest in Hin; lia.
    + apply IH; lia.
Qed.

Lemma schedule_slots_aux (pairs : list (nat * nat)) (n : nat) (l : list nat) :
  map fst
    (flat_map (fun idx1 =>
       map (fun idx2 =>
              ((idx1 + n * idx2)%nat,
               if (idx2 =? 0)%nat
               then nth idx1 pairs (0, 0)%nat
               else swap (nth idx1 pairs (0, 0)%nat)))
           (seq 0 2)) l)
  = flat_map (fun i => [i; i + n]%nat) l.
Proof.
  induction l as [|i l IH]; simpl; [reflexivity|].
  simpl in IH; rewrite IH; repeat f_equal; lia.
Qed.

Lemma schedule_slots (pairs : list (nat * nat)) :
  map fst (Correlations.schedule pairs)
  = flat_map (fun i => [i; i + length pairs]%nat) (seq 0 (length pairs)).
Proof. unfold Correlations.schedule; cbv zeta; apply schedule_slots_aux. Qed.

Lemma length_slots (n : nat) (l : list nat) :
  length (flat_map (fun i => [i; i + n]%nat) l) = (2 * length l)%nat.
Proof. induction l as [|i l IH]; simpl; [reflexivity | rewrite IH; lia]. Qed.

(** C6: the ordered pair list has twice as many entries as the tree
    found pairs, so an even number; every pair (i, j) the tree found
    is there exactly once as (i, j) and exactly once as (j, i); every
    entry is one of these, and none has i = j.  [particle_cloud.py]
    builds the list in [_get_pairs]; the loops of
    [particle_correlations.py] visit the same list, slot [k] of the
    buffers taking entry [k], each slot once. *)
Theorem C6_ordered_pairs_doubled :
  forall (L : Library) (coords : list vec) (boxsize : vec) (rmax : R),
    let temp := query_pairs coords boxsize rmax in
    NoDup temp ->
    (forall i j, In (i, j) temp -> (i < j)%nat) ->
    let pairs := Cloud._get_pairs coords boxsize rmax in
    let steps :=
      Correlations.schedule (Correlations._get_pairs coords boxsize rmax) in
    length pairs = (2 * length temp)%nat
    /\ Nat.Even (length pairs)
    /\ (forall i j, In (i, j) temp ->
          count_occ pair_eq_dec pairs (i, j) = 1%nat
          /\ count_occ pair_eq_dec pairs (j, i) = 1%nat)
    /\ (forall i j, In (i, j) pairs ->
          i <> j /\ (In (i, j) temp \/ In (j, i) temp))
    /\ length steps = length pairs
    /\ NoDup (map fst steps)
    /\ (forall index pair, In (index, pair) steps ->
          (index < length pairs)%nat /\ nth index pairs (0, 0)%nat = pair).
Proof.
  intros L coords boxsize rmax temp Hnd Hlt pairs steps.
  assert (Hlen : length pairs = (2 * length temp)%nat).
  { unfold pairs, Cloud._get_pairs; fold temp.
    rewrite length_app, length_map; lia. }
  assert (Hnot : forall i j, In (i, j) temp -> ~ In (j, i) temp).
  { intros i j Hij Hji; apply Hlt in Hij; apply Hlt in Hji; lia. }
  split; [exact Hlen|].
  split; [exists (length temp); exact Hlen|].
  split; [|split; [|split; [|split]]].
  - intros i j Hij.
    unfold pairs, Cloud._get_pairs; fold temp.
    rewrite !count_occ_app.
    pose proof (proj1 (NoDup_count_occ' pair_eq_dec temp) Hnd) as Hone.
    split.
    + rewrite (Hone _ Hij).
      assert (E : count_occ pair_eq_dec (map swap temp) (i, j) = 0%nat).
      { apply count_occ_not_In; rewrite in_map_swap; now apply Hnot. }
      rewrite E; reflexivity.
    + assert (E : count_occ pair_eq_dec temp (j, i) = 0%nat).
      { apply count_occ_not_In; now apply Hnot. }
      rewrite E.
      change (j, i) with (swap (i, j)).
      rewrite <- (count_occ_map swap pair_eq_dec pair_eq_dec swap_injective).
      rewrite (Hone _ Hij); reflexivity.
  - intros i j Hin.
    unfold pairs, Cloud._get_pairs in Hin; fold temp in Hin.
    apply in_app_or in Hin; destruct Hin as [Hin | Hin].
    + split; [apply Hlt in Hin; lia | now left].
    + apply (proj1 (in_map_swap temp i j)) in Hin.
      split; [apply Hlt in Hin; lia | now right].
  - unfold steps, Correlations._get_pairs; fold temp.
    rewrite <- (length_map fst), schedule_slots, Hlen.
    now rewrite length_slots, length_seq.
  - unfold steps, Correlations._get_pairs; fold temp.
    rewrite schedule_slots; apply slots_distinct; lia.
  - intros index pair Hin.
    unfold steps, Correlations._get_pairs, Correlations.schedule in Hin.
    fold temp in Hin.
    apply in_flat_map in Hin; destruct Hin as [idx1 [H1 Hin]].
    apply in_seq in H1; simpl in Hin.
    unfold pairs, Cloud._get_pairs; fold temp.
    destruct Hin as [E | [E | []]]; injection E as <- <-.
    + split; [rewrite length_app; lia|].
      replace (idx1 + length temp * 0)%nat with idx1 by lia.
      apply app_nth1; lia.
    + split; [rewrite length_app, length_map; lia|].
      rewrite app_nth2 by lia.
      replace (idx1 + length temp * 1 - length temp)%nat with idx1 by lia.
      apply (map_nth swap temp (0, 0)%nat idx1).
Qed.

Lemma C6_ordered_pairs_doubled_witness :
  length (@Cloud._get_pairs (fixed_library [(0, 1); (1, 2)]%nat)
            [[0; 0]; [1; 0]; [2; 0]] [10; 10] (3 / 2))
  = (2 * 2)%nat.
Proof.
  apply (C6_ordered_pairs_doubled (fixed_library [(0, 1); (1, 2)]%nat)
           [[0; 0]; [1; 0]; [2; 0]] [10; 10] (3 / 2)).
  - simpl; repeat constructor; simpl; intuition congruence.
  - simpl; intros i j [E | [E | []]]; injection E as <- <-; lia.
Defined.

(** ** Periodic boundary conditions *)

Lemma while_below_enough (side : R) (n : nat) :
  forall x : R,
    0 <= x + INR n * side ->
    forall fuel : nat, (n <= fuel)%nat ->
      exists y, while_below fuel side x = Some y
                /\ 0 <= y
                /\ (x < 0 -> y < side)
                /\ (0 <= x -> y = x).
Proof.
  induction n as [|n IH]; intros x Hx fuel Hfuel.
  - simpl in Hx.
    exists x; destruct fuel; simpl;
      (destruct (Rlt_dec x 0) as [Hneg | _]; [lra|]);
      repeat split; trivial; lra.
  - destruct fuel as [|fuel]; [lia|]; simpl.
    destruct (Rlt_dec x 0) as [Hneg | Hpos].
    + rewrite S_INR in Hx.
      destruct (IH (x + side)) with (fuel := fuel)
        as [y [E [H0 [Hlt Heq]]]]; [lra | lia |].
      exists y; repeat split; trivial; [|lra].
      intros _.
      destruct (Rlt_dec (x + side) 0) as [H1 | H1];
        [lra | rewrite Heq; lra].
    + exists x; repeat split; trivial; lra.
Qed.

Lemma while_above_enough (side : R) (n : nat) :
  forall x : R,
    x - INR n * side <= side ->
    forall fuel : nat, (n <= fuel)%nat ->
      exists y, while_above fuel side x = Some y
                /\ y <= side
                /\ (x > side -> 0 < y)
                /\ (x <= side -> y = x).
Proof.
  induction n as [|n IH]; intros x Hx fuel Hfuel.
  - simpl in Hx.
    exists x; destruct fuel; simpl;
      (destruct (Rgt_dec x side) as [Hgt | _]; [lra|]);
      repeat split; trivial; lra.
  - destruct fuel as [|fuel]; [lia|]; simpl.
    destruct (Rgt_dec x side) as [Hgt | Hle].
    + rewrite S_INR in Hx.
      destruct (IH (x - side)) with (fuel := fuel)
        as [y [E [H0 [Hlt Heq]]]]; [lra | lia |].
      exists y; repeat split; trivial; [|lra].
      intros _.
      destruct (Rgt_dec (x - side) side) as [H1 | H1];
        [lra | rewrite Heq; lra].
    + exists x; repeat split; trivial; lra.
Qed.

(** With a positive side both loops stop, and the component ends
    between zero and the side, the side itself included. *)
Lemma wrap_component_enough (side x : R) :
  0 < side ->
  exists n : nat, forall fuel : nat, (n <= fuel)%nat ->
    exists y, wrap_component fuel side x = Some y /\ 0 <= y <= side.
Proof.
  intros Hside.
  destruct (INR_archimed side (- x) Hside) as [n1 Hn1].
  destruct (INR_archimed side x Hside) as [n2 Hn2].
  exists (Nat.max n1 n2); intros fuel Hfuel.
  destruct (while_below_enough side n1 x) with (fuel := fuel)
    as [y1 [E1 [H0 [Hlt Heq]]]]; [lra | lia |].
  assert (Hy1 : y1 - INR n2 * side <= side).
  { destruct (Rlt_dec x 0) as [Hneg | Hpos];
      [specialize (Hlt Hneg) | rewrite Heq by lra]; try lra.
    pose proof (pos_INR n2) as Hp.
    assert (0 <= INR n2 * side) by (apply Rmult_le_pos; lra).
    lra. }
  destruct (while_above_enough side n2 y1 Hy1) with (fuel := fuel)
    as [y2 [E2 [Hle [Hgt Heq2]]]]; [lia|].
  exists y2; unfold wrap_component; rewrite E1; split; [exact E2|].
  split; [|exact Hle].
  destruct (Rgt_dec y1 side) as [H1 | H1];
    [specialize (Hgt H1); lra | rewrite Heq2; lra].
Qed.

(** A component already between zero and the side is left alone,
    whatever the budget. *)
Lemma wrap_component_fixed (fuel : nat) (side x : R) :
  0 <= x <= side -> wrap_component fuel side x = Some x.
Proof.
  intros [H0 H1]; unfold wrap_component.
  destruct fuel; simpl;
    (destruct (Rlt_dec x 0) as [Hneg | _]; [lra|]);
    (destruct (Rgt_dec x side) as [Hgt | _]; [lra | reflexivity]).
Qed.

Section Traverse.
Context {A B : Type}.

Lemma traverse_enough (f : nat -> A -> option B) (P : A -> B -> Prop)
    (l : list A) :
  (forall x, In x l ->
     exists n : nat, forall fuel : nat, (n <= fuel)%nat ->
       exists y, f fuel x = Some y /\ P x y) ->
  exists n : nat, forall fuel : nat, (n <= fuel)%nat ->
    exists ys, traverse (f fuel) l = Some ys /\ Forall2 P l ys.
Proof.
  induction l as [|x l IH]; intros Hall.
  - exists 0%nat; intros fuel _; exists []; simpl; split; constructor.
  - destruct (Hall x (or_introl eq_refl)) as [n1 Hx].
    destruct IH as [n2 Hl]; [intros y Hy; apply Hall; now right|].
    exists (Nat.max n1 n2); intros fuel Hfuel.
    destruct (Hx fuel) as [y [Ey Py]]; [lia|].
    destruct (Hl fuel) as [ys [Eys Pys]]; [lia|].
    exists (y :: ys); simpl; rewrite Ey, Eys; split; [reflexivity|].
    now constructor.
Qed.

Lemma Forall2_nth_both (P : A -> B -> Prop) (l : list A) (ys : list B)
    (da : A) (db : B) :
  Forall2 P l ys ->
  length ys = length l
  /\ forall i : nat, (i < length l)%nat -> P (nth i l da) (nth i ys db).
Proof.
  induction 1 as [|x y l ys Hxy Hrest [IHlen IHnth]]; simpl.
  - split; [reflexivity | intros i Hi; lia].
  - split; [now rewrite IHlen|].
    intros [|i] Hi; [assumption | apply IHnth; lia].
Qed.

End Traverse.

Lemma traverse_fixed {A : Type} (f : A -> option A) (l : list A) :
  (forall x, In x l -> f x = Some x) -> traverse f l = Some l.
Proof.
  induction l as [|x l IH]; intros Hall; simpl; [reflexivity|].
  rewrite (Hall x (or_introl eq_refl)), IH; [reflexivity|].
  intros y Hy; apply Hall; now right.
Qed.

Lemma traverse_snd {A B : Type} (g : A * B -> option B) (l : list (A * B)) :
  (forall ix, In ix l -> g ix = Some (snd ix)) ->
  traverse g l = Some (map snd l).
Proof.
  induction l as [|x l IH]; intros Hall; simpl; [reflexivity|].
  rewrite (Hall x (or_introl eq_refl)), IH; [reflexivity|].
  intros y Hy; apply Hall; now right.
Qed.

Lemma snd_combine_seq (p : vec) (a : nat) :
  map snd (combine (seq a (length p)) p) = p.
Proof.
  revert a; induction p as [|x p IH]; intros a; simpl; [reflexivity|].
  now rewrite IH.
Qed.

Lemma nth_combine_seq (p : vec) (i : nat) :
  (i < length p)%nat ->
  nth i (combine (seq 0 (length p)) p) (0%nat, 0) = (i, at_ p i).
Proof.
  intros Hi.
  rewrite combine_nth by apply length_seq.
  now rewrite seq_nth.
Qed.

Lemma in_combine_seq (p : vec) (i : nat) (x : R) :
  In (i, x) (combine (seq 0 (length p)) p) ->
  (i < length p)%nat /\ x = at_ p i.
Proof.
  intros Hin.
  apply (In_nth _ _ (0%nat, 0)) in Hin.
  destruct Hin as [k [Hk E]].
  rewrite length_combine, length_seq, Nat.min_id in Hk.
  rewrite nth_combine_seq in E by assumption.
  injection E as <- <-; split; [assumption | reflexivity].
Qed.

(** The loops on one particle stop, and leave it inside the closed
    box. *)
Lemma wrap_particle_enough (boxsize p : vec) :
  positive_sides boxsize ->
  exists n : nat, forall fuel : nat, (n <= fuel)%nat ->
    exists p', wrap_particle fuel boxsize p = Some p'
               /\ length p' = length p /\ within boxsize p'.
Proof.
  intros Hpos; unfold wrap_particle.
  set (dim := length boxsize).
  set (f := fun (fuel : nat) (ix : nat * R) =>
              let (i, x) := ix in
              if (i <? dim)%nat
              then wrap_component fuel (at_ boxsize i) x
              else Some x).
  set (P := fun (ix : nat * R) (y : R) =>
              (fst ix < dim)%nat -> 0 <= y <= at_ boxsize (fst ix)).
  destruct (traverse_enough f P (combine (seq 0 (length p)) p)) as [n Hn].
  - intros [i x] _; unfold f, P; simpl.
    destruct (i <? dim)%nat eqn:Hi.
    + apply Nat.ltb_lt in Hi.
      assert (Hside : 0 < at_ boxsize i).
      { unfold positive_sides in Hpos; rewrite Forall_forall in Hpos.
        apply Hpos, nth_In; exact Hi. }
      destruct (wrap_component_enough (at_ boxsize i) x Hside) as [n Hn].
      exists n; intros fuel Hfuel.
      destruct (Hn fuel Hfuel) as [y [E Hy]]; exists y; now split.
    + apply Nat.ltb_ge in Hi.
      exists 0%nat; intros fuel _; exists x; split; [reflexivity | lia].
  - exists n; intros fuel Hfuel.
    destruct (Hn fuel Hfuel) as [p' [E HP]]; exists p'.
    split; [exact E|].
    destruct (Forall2_nth_both P _ _ (0%nat, 0) 0 HP) as [Hlen Hnth].
    rewrite length_combine, length_seq, Nat.min_id in Hlen, Hnth.
    split; [exact Hlen|].
    intros i Hi Hip; rewrite Hlen in Hip.
    specialize (Hnth i Hip); rewrite nth_combine_seq in Hnth by assumption.
    apply Hnth; exact Hi.
Qed.

(** With positive sides [_impose_pbc] returns once the budget is
    large enough, and every component then lies between zero and the
    side, both ends included. *)
Lemma _impose_pbc_enough (coords : list vec) (boxsize : vec) :
  positive_sides boxsize ->
  exists n : nat, forall fuel : nat, (n <= fuel)%nat ->
    exists coords', _impose_pbc fuel coords boxsize = Some coords'
                    /\ length coords' = length coords
                    /\ in_box boxsize coords'.
Proof.
  intros Hpos; unfold _impose_pbc.
  destruct (traverse_enough
              (fun fuel => wrap_particle fuel boxsize)
              (fun p p' => length p' = length p /\ within boxsize p')
              coords) as [n Hn].
  - intros p _; apply wrap_particle_enough; exact Hpos.
  - exists n; intros fuel Hfuel.
    destruct (Hn fuel Hfuel) as [coords' [E HP]]; exists coords'.
    split; [exact E|].
    split; [now apply Forall2_length in HP|].
    unfold in_box; clear E Hn.
    induction HP as [|p p' l l' Hpp _ IH].
    + constructor.
    + constructor; [apply Hpp | exact IH].
Qed.

(** Coordinates already inside the closed box are returned as they
    are, whatever the budget. *)
Lemma _impose_pbc_fixed (fuel : nat) (coords : list vec) (boxsize : vec) :
  in_box boxsize coords -> _impose_pbc fuel coords boxsize = Some coords.
Proof.
  intros Hin; unfold _impose_pbc.
  apply traverse_fixed; intros p Hp.
  unfold in_box in Hin; rewrite Forall_forall in Hin.
  specialize (Hin p Hp); unfold wrap_particle.
  rewrite traverse_snd; [now rewrite snd_combine_seq|].
  intros [i x] Hix; simpl.
  apply in_combine_seq in Hix; destruct Hix as [Hi ->].
  destruct (i <? length boxsize)%nat eqn:Hb; [|reflexivity].
  apply Nat.ltb_lt in Hb.
  apply wrap_component_fixed, Hin; assumption.
Qed.

(** C9: a component that sits exactly on the upper face of the box is
    not brought into the box: the second loop runs only while the
    component is greater than the side, so 10 stays 10 in a box of side
    10, and 20 stops at 10. *)
Theorem C9_upper_face_not_wrapped :
  forall fuel : nat,
    _impose_pbc fuel [[10; 3]] [10; 10] = Some [[10; 3]]
    /\ _impose_pbc (S fuel) [[20; 3]] [10; 10] = Some [[20 - 10; 3]]
    /\ ~ (20 - 10 < at_ [10; 10] 0).
Proof.
  intros fuel; repeat split.
  - apply _impose_pbc_fixed.
    constructor; [|constructor].
    intros [|[|i]] Hb Hp; unfold at_; simpl in *; try lia; lra.
  - unfold _impose_pbc, wrap_particle, wrap_component; simpl.
    unfold at_; simpl.
    destruct fuel; simpl; decide_reals; reflexivity.
  - unfold at_; simpl; lra.
Qed.

(** ** Binning *)

Lemma fl_sum_counts {A : Type} (f : A -> nat) (cs : list A) :
  fl_sum (map (fun c => Some (INR (f c))) cs)
  = Some (INR (list_sum (map f cs))).
Proof.
  unfold fl_sum; induction cs as [|c cs IH]; [reflexivity|].
  cbn [map fold_right list_sum]; rewrite IH; simpl.
  now rewrite plus_INR.
Qed.

(** Without weights the entry of a cell is the number of samples that
    land in it. *)
Lemma cell_total_unweighted (bins : list vec) (points : list (list fl))
    (c : list nat) :
  Histogram.cell_total bins points (repeat (Some 1) (length points)) c
  = Some (INR (length (filter (Histogram.lands_in bins c) points))).
Proof.
  unfold Histogram.cell_total.
  assert (G : forall acc : R,
    fold_left (fun (a : fl) (pw : list fl * fl) =>
                 if Histogram.lands_in bins c (fst pw)
                 then fl_add a (snd pw) else a)
              (combine points (repeat (Some 1) (length points)))
              (Some acc)
    = Some (acc
            + INR (length (filter (Histogram.lands_in bins c) points)))).
  { induction points as [|p ps IH]; intros acc; simpl.
    - f_equal; ring.
    - destruct (Histogram.lands_in bins c p); simpl.
      + rewrite IH; f_equal.
        destruct (length (filter (Histogram.lands_in bins c) ps)); simpl;
          [ring|]; destruct n; ring.
      + apply IH. }
  rewrite G; f_equal; ring.
Qed.

Lemma list_sum_indicator (cs : list (list nat)) (d : list nat) :
  NoDup cs ->
  list_sum (map (fun c => if Histogram.cell_eqb c d then 1 else 0)%nat cs)
  = if in_dec (list_eq_dec Nat.eq_dec) d cs then 1%nat else 0%nat.
Proof.
  induction 1 as [|c cs Hnotin Hnd IH]; simpl; [reflexivity|].
  rewrite IH; unfold Histogram.cell_eqb.
  destruct (list_eq_dec Nat.eq_dec c d) as [-> | Hne].
  - destruct (list_eq_dec Nat.eq_dec d d) as [_ | Hdd]; [|congruence].
    destruct (in_dec (list_eq_dec Nat.eq_dec) d cs); [contradiction|].
    reflexivity.
  - destruct (list_eq_dec Nat.eq_dec c d) as [E | _]; [contradiction|].
    destruct (in_dec (list_eq_dec Nat.eq_dec) d cs); reflexivity.
Qed.

Lemma list_sum_zero {A : Type} (cs : list A) :
  list_sum (map (fun _ => 0%nat) cs) = 0%nat.
Proof. induction cs; simpl; auto. Qed.

Lemma list_sum_plus {A : Type} (f g : A -> nat) (cs : list A) :
  list_sum (map (fun c => (f c + g c)%nat) cs)
  = (list_sum (map f cs) + list_sum (map g cs))%nat.
Proof. induction cs as [|c cs IH]; simpl; [reflexivity | rewrite IH; lia]. Qed.

(** The cells of a grid. *)
Lemma in_cells (shp : list nat) (d : list nat) :
  In d (Histogram.cells shp) <-> Forall2 (fun k n => (k < n)%nat) d shp.
Proof.
  revert d; induction shp as [|n rest IH]; intros d; simpl.
  - split.
    + intros [<- | []]; constructor.
    + intros Hd; inversion Hd; now left.
  - rewrite in_flat_map; split.
    + intros [k [Hk Hd]]; apply in_seq in Hk.
      apply in_map_iff in Hd; destruct Hd as [c [<- Hc]].
      constructor; [lia | now apply IH].
    + intros Hd; inversion Hd as [|k n' c rest' Hk Hc]; subst.
      exists k; split; [apply in_seq; lia|].
      apply in_map_iff; exists c; split; [reflexivity | now apply IH].
Qed.

Lemma NoDup_cells (shp : list nat) : NoDup (Histogram.cells shp).
Proof.
  induction shp as [|n rest IH]; simpl.
  - constructor; [intros [] | constructor].
  - generalize 0%nat; induction n as [|n IHn]; intros a; simpl;
      [constructor|].
    apply NoDup_app.
    + apply Finite.Injective_map_NoDup; [|exact IH].
      intros x y E; now injection E.
    + apply IHn.
    + intros c Hc Hc'.
      apply in_map_iff in Hc; destruct Hc as [c0 [<- _]].
      apply in_flat_map in Hc'; destruct Hc' as [k [Hk Hc']].
      apply in_seq in Hk.
      apply in_map_iff in Hc'; destruct Hc' as [c1 [E _]].
      injection E as E _; lia.
Qed.

Lemma bin_of_bound (edges : vec) (x : fl) (k : nat) :
  Histogram.bin_of edges x = Some k -> (k < length edges - 1)%nat.
Proof.
  destruct x as [x|]; simpl; [|discriminate].
  intros Hf; apply find_some in Hf; destruct Hf as [Hin _].
  apply in_seq in Hin; lia.
Qed.

Lemma cell_of_in_cells (bins : list vec) (point : list fl) (d : list nat) :
  Histogram.cell_of bins point = Some d ->
  In d (Histogram.cells (map (fun edges => (length edges - 1)%nat) bins)).
Proof.
  intros Hd; apply in_cells; revert point d Hd.
  induction bins as [|edges bins IH]; intros [|x point] d; simpl;
    try discriminate.
  - intros E; injection E as <-; constructor.
  - destruct (Histogram.bin_of edges x) as [k|] eqn:Hk; [|discriminate].
    destruct (Histogram.cell_of bins point) as [c|] eqn:Hc; [|discriminate].
    intros E; injection E as <-.
    constructor; [now apply bin_of_bound in Hk | now apply IH with point].
Qed.

(** Summed over the cells, the samples that land in a cell are the
    samples that are counted. *)
Lemma landed_total (bins : list vec) (points : list (list fl)) :
  let shp := map (fun edges => (length edges - 1)%nat) bins in
  list_sum (map (fun c => length (filter (Histogram.lands_in bins c) points))
                (Histogram.cells shp))
  = length (filter (Histogram.counted bins) points).
Proof.
  intros shp; induction points as [|p ps IH]; simpl.
  - apply list_sum_zero.
  - rewrite (map_ext _
      (fun c => ((if Histogram.lands_in bins c p then 1 else 0)
                 + length (filter (Histogram.lands_in bins c) ps))%nat)).
    2:{ intros c; destruct (Histogram.lands_in bins c p); reflexivity. }
    rewrite list_sum_plus, IH.
    unfold Histogram.lands_in, Histogram.counted.
    destruct (Histogram.cell_of bins p) as [d|] eqn:Hd.
    + rewrite list_sum_indicator by apply NoDup_cells.
      destruct (in_dec _ d (Histogram.cells shp)) as [_ | Hn];
        [reflexivity|].
      exfalso; apply Hn; now apply cell_of_in_cells with p.
    + now rewrite list_sum_zero.
Qed.

Lemma increasing_tail (x : R) (t : vec) : increasing (x :: t) -> increasing t.
Proof. destruct t as [|y t]; simpl; [trivial | intros [_ H]; exact H]. Qed.

Lemma increasing_nth (edges : vec) :
  increasing edges ->
  forall i j : nat,
    (i <= j)%nat -> (j < length edges)%nat -> at_ edges i <= at_ edges j.
Proof.
  unfold at_; induction edges as [|x t IH]; intros Hinc i j Hij Hj;
    [simpl in Hj; lia|].
  destruct j as [|j].
  - assert (i = 0%nat) by lia; subst; lra.
  - destruct i as [|i].
    + simpl. destruct t as [|y t]; [simpl in Hj; lia|].
      destruct Hinc as [Hxy Hinc].
      specialize (IH Hinc 0%nat j); simpl in IH, Hj.
      assert (y <= nth j (y :: t) 0) by (apply IH; lia).
      lra.
    + simpl; apply IH; [now apply increasing_tail in Hinc | lia |].
      simpl in Hj; lia.
Qed.

(** A value between the first edge and a later edge lies in one of the
    half-open bins in between. *)
Lemma bracket (edges : vec) (v : R) (m : nat) :
  at_ edges 0 <= v < at_ edges m ->
  exists k : nat, (k < m)%nat /\ at_ edges k <= v < at_ edges (k + 1).
Proof.
  induction m as [|m IH]; intros [Hlo Hhi]; [lra|].
  destruct (Rlt_dec v (at_ edges m)) as [Hlt | Hge].
  - destruct IH as [k [Hk Hb]]; [lra|].
    exists k; split; [lia | exact Hb].
  - exists m; split; [lia|].
    replace (m + 1)%nat with (S m) by lia; lra.
Qed.

(** On an axis with increasing edges a coordinate is in some bin
    exactly when it lies between the first and the last edge, the last
    edge included. *)
Lemma bin_of_inside (edges : vec) (x : fl) :
  increasing edges -> (2 <= length edges)%nat ->
  (Histogram.bin_of edges x <> None <-> inside_axis edges x).
Proof.
  intros Hinc Hlen; unfold inside_axis; split.
  - destruct x as [v|]; simpl; [|congruence].
    destruct (find _ _) as [k|] eqn:Hf; [intros _ | congruence].
    apply find_some in Hf; destruct Hf as [Hk Hb].
    apply in_seq in Hk; unfold Histogram.in_bin in Hb.
    exists v; split; [reflexivity|].
    pose proof (increasing_nth edges Hinc 0 k) as H0.
    pose proof (increasing_nth edges Hinc (k + 1) (length edges - 1)) as H1.
    destruct (Rle_dec (at_ edges k) v) as [Hlo | _]; [|discriminate].
    destruct (Rlt_dec v (at_ edges (k + 1))) as [Hhi | _].
    + split; [specialize (H0 ltac:(lia) ltac:(lia)); lra|].
      specialize (H1 ltac:(lia) ltac:(lia)); lra.
    + destruct (Req_dec_T v (at_ edges (k + 1))) as [Heq | _];
        [|discriminate].
      split; [specialize (H0 ltac:(lia) ltac:(lia)); lra|].
      specialize (H1 ltac:(lia) ltac:(lia)); lra.
  - intros [v [-> [Hlo Hhi]]]; simpl.
    set (nbins := (length edges - 1)%nat) in *.
    assert (Hex : exists k, (k < nbins)%nat
                            /\ Histogram.in_bin edges k v = true).
    { destruct (Rlt_dec v (at_ edges nbins)) as [Hlt | Hge].
      - destruct (bracket edges v nbins) as [k [Hk [Hk1 Hk2]]]; [lra|].
        exists k; split; [exact Hk|]; unfold Histogram.in_bin.
        destruct (Rle_dec (at_ edges k) v); [|lra].
        destruct (Rlt_dec v (at_ edges (k + 1))); [reflexivity | lra].
      - exists (nbins - 1)%nat; split; [unfold nbins; lia|].
        unfold Histogram.in_bin; fold nbins.
        replace (nbins - 1 + 1)%nat with nbins by (unfold nbins; lia).
        pose proof (increasing_nth edges Hinc (nbins - 1) nbins) as Hm.
        specialize (Hm ltac:(lia) ltac:(unfold nbins; lia)).
        destruct (Rle_dec (at_ edges (nbins - 1)) v); [|lra].
        destruct (Rlt_dec v (at_ edges nbins)); [lra|].
        destruct (Req_dec_T v (at_ edges nbins)); [|lra].
        apply Nat.eqb_eq; unfold nbins; lia. }
    destruct Hex as [k [Hk Hb]].
    destruct (find _ _) eqn:Hf; [discriminate|].
    exfalso.
    rewrite (find_none _ _ Hf k) in Hb; [discriminate | apply in_seq; lia].
Qed.

(** With increasing edges on every axis a sample is counted exactly
    when it lies inside the edges on every axis. *)
Lemma counted_inside (bins : list vec) :
  Forall increasing bins ->
  Forall (fun edges => (2 <= length edges)%nat) bins ->
  forall point : list fl,
    Histogram.counted bins point = true <-> inside bins point.
Proof.
  unfold Histogram.counted, inside.
  induction bins as [|edges bins IH]; intros Hinc Hlen [|x point]; simpl.
  - split; [constructor | reflexivity].
  - split; [discriminate | intros H; inversion H].
  - split; [discriminate | intros H; inversion H].
  - inversion Hinc as [|? ? Hi Hinc']; inversion Hlen as [|? ? Hl Hlen'];
      subst.
    specialize (IH Hinc' Hlen' point).
    pose proof (bin_of_inside edges x Hi Hl) as Hb.
    destruct (Histogram.bin_of edges x) as [k|].
    + destruct (Histogram.cell_of bins point) as [c|].
      * split; [|reflexivity]. intros _; constructor.
        -- apply Hb; discriminate.
        -- now apply IH.
      * split; [discriminate|].
        intros H; inversion H; subst.
        apply IH; assumption.
    + split; [discriminate|].
      intros H; inversion H; subst.
      exfalso; apply (proj2 Hb); [assumption | reflexivity].
Qed.

(** The count grid without weights: its entries add up to the number
    of counted samples. *)
Lemma histogramdd_total (s : sample) (bins : list vec) (count : ndarray) :
  Histogram.histogramdd s bins None = Ok count ->
  fl_sum (data count)
  = Some (INR (length (filter (Histogram.counted bins)
                              (Histogram.points_of s)))).
Proof.
  unfold Histogram.histogramdd.
  destruct (negb _); [discriminate|].
  intros E; injection E as <-; cbn [data].
  rewrite (map_ext _ (fun c =>
             Some (INR (length (filter (Histogram.lands_in bins c)
                                       (Histogram.points_of s))))))
    by (intros c; apply cell_total_unweighted).
  rewrite fl_sum_counts.
  now rewrite landed_total.
Qed.

Lemma filter_all {A : Type} (f : A -> bool) (l : list A) :
  (forall x, In x l -> f x = true) -> filter f l = l.
Proof.
  induction l as [|x l IH]; intros Hall; simpl; [reflexivity|].
  rewrite (Hall x (or_introl eq_refl)), IH; [reflexivity|].
  intros y Hy; apply Hall; now right.
Qed.

Lemma histogramdd_total_inside (s : sample) (bins : list vec)
    (count : ndarray) :
  Histogram.histogramdd s bins None = Ok count ->
  Forall increasing bins ->
  Forall (fun edges => (2 <= length edges)%nat) bins ->
  Forall (inside bins) (Histogram.points_of s) ->
  fl_sum (data count) = Some (INR (length (Histogram.points_of s))).
Proof.
  intros E Hinc Hlen Hin.
  rewrite (histogramdd_total s bins count E).
  rewrite filter_all; [reflexivity|].
  intros p Hp; apply counted_inside; trivial.
  rewrite Forall_forall in Hin; now apply Hin.
Qed.

(** The grids are well formed, and the normalisation can be undone
    cell by cell where it is a number other than zero. *)
Lemma length_concat_const {A B : Type} (f : A -> list B) (l : list A)
    (k : nat) :
  (forall x, In x l -> length (f x) = k) ->
  length (concat (map f l)) = (length l * k)%nat.
Proof.
  induction l as [|x l IH]; intros Hall; simpl; [reflexivity|].
  rewrite length_app, (Hall x (or_introl eq_refl)), IH; [reflexivity|].
  intros y Hy; apply Hall; now right.
Qed.

Lemma length_cells (shp : list nat) :
  length (Histogram.cells shp) = size shp.
Proof.
  induction shp as [|n rest IH]; simpl; [reflexivity|].
  rewrite flat_map_concat_map.
  rewrite (length_concat_const _ _ (size rest)).
  - now rewrite length_seq.
  - intros k _; now rewrite length_map.
Qed.

Lemma length_concat_all {B : Type} (L : list (list B)) (k : nat) :
  (forall x, In x L -> length x = k) ->
  length (concat L) = (length L * k)%nat.
Proof.
  intros Hall.
  rewrite <- (map_id L) at 1.
  now apply length_concat_const.
Qed.

Lemma length_volume (count : ndarray) (r phi theta : vec) (d : nat) :
  length (concat (concat (_get_volume count r phi theta d)))
  = ((length r - 1) * (length phi - 1) * (length theta - 1))%nat.
Proof.
  unfold _get_volume.
  rewrite (length_concat_all _ (length theta - 1)).
  - rewrite (length_concat_const _ _ (length phi - 1)).
    + now rewrite length_seq.
    + intros n _; now rewrite length_map, length_seq.
  - intros row Hrow.
    apply in_concat in Hrow; destruct Hrow as [plane [Hplane Hrow]].
    apply in_map_iff in Hplane; destruct Hplane as [n [<- _]].
    apply in_map_iff in Hrow; destruct Hrow as [m [<- _]].
    now rewrite length_map, length_seq.
Qed.

Lemma size_squeezed (a b c : nat) :
  size (filter (fun n => negb (n =? 1)%nat) [a; b; c]) = (a * b * c)%nat.
Proof.
  simpl.
  destruct (a =? 1)%nat eqn:Ea; destruct (b =? 1)%nat eqn:Eb;
    destruct (c =? 1)%nat eqn:Ec; simpl;
    rewrite ?Nat.eqb_eq in *; subst; lia.
Qed.

Lemma normalisation_wf (count : ndarray) (N : nat) (r phi theta : vec)
    (d : nat) (density : fl) :
  let norm := normalisation N (squeezed_volume count r phi theta d) density in
  length (data norm) = size (shape norm).
Proof.
  simpl; rewrite !length_map, length_volume.
  symmetry; apply size_squeezed.
Qed.

Lemma histogramdd_wf (s : sample) (bins : list vec) (count : ndarray) :
  Histogram.histogramdd s bins None = Ok count ->
  length (data count) = size (shape count)
  /\ Forall finite (data count).
Proof.
  unfold Histogram.histogramdd.
  destruct (negb _); [discriminate|].
  intros E; injection E as <-; cbn [data shape]; split.
  - now rewrite length_map, length_cells.
  - apply Forall_forall; intros v Hv.
    apply in_map_iff in Hv; destruct Hv as [c [<- _]].
    rewrite cell_total_unweighted; now eexists.
Qed.

Lemma divide_undone (A B : list fl) :
  length A = length B ->
  Forall finite A ->
  Forall finite_nonzero B ->
  zip_with fl_mul (zip_with fl_div A B) B = A.
Proof.
  revert B; induction A as [|x A IH]; intros [|y B] Hlen HA HB;
    simpl in *; try discriminate; [reflexivity|].
  inversion HA as [|? ? [u ->] HA']; inversion HB as [|? ? [v [-> Hv]] HB'];
    subst.
  rewrite IH by (try lia; assumption).
  simpl; destruct (Req_dec_T v 0) as [E | _]; [contradiction|].
  simpl; do 2 f_equal; now field.
Qed.

Lemma scale_count_undone (L : Library) (count g : ndarray) (N : nat)
    (boxsize r_n phi_m theta_l : vec) :
  let norm :=
    normalisation N
      (squeezed_volume count r_n phi_m theta_l (length boxsize))
      (fl_div (Some (INR N)) (Some (prod boxsize))) in
  scale_count count N boxsize r_n phi_m theta_l = Ok g ->
  length (data count) = size (shape count) ->
  Forall finite (data count) ->
  shape count = shape norm ->
  Forall finite_nonzero (data norm) ->
  zip_with fl_mul (data g) (data norm) = data count.
Proof.
  intros norm Hg Hwf Hfin Hshape Hnz.
  unfold scale_count, divide in Hg; fold norm in Hg.
  destruct (list_eq_dec Nat.eq_dec (shape count) (shape norm)) as [_ | Hn];
    [|contradiction].
  injection Hg as <-; cbn [data].
  apply divide_undone; trivial.
  rewrite Hwf, Hshape.
  symmetry; apply normalisation_wf.
Qed.

(** C8, as the code has it: the entries of the unweighted count grid
    add up to the number of samples that lie inside the edges on every
    binned axis, a sample on the last edge of an axis included; samples
    outside the edges are dropped.  When every sample lies inside the
    edges, the entries add up to the number of samples.  Where the
    factor N * density * cell volume is a number other than zero in
    every cell, g times that factor gives the count back cell by
    cell. *)
Theorem C8_count_conserved_inside_edges :
  forall (L : Library) (N : nat) (boxsize r_n phi_m theta_l : vec),
    (forall (rij : list (list fl)) (g : ndarray),
        let bins :=
          filter (fun b => (2 <? length b)%nat) [r_n; phi_m; theta_l] in
        @Correlations._get_distribution (with_histogram L)
          rij [] N boxsize r_n phi_m theta_l = Ok g ->
        exists count : ndarray,
          Histogram.histogramdd (Rows rij) bins None = Ok count
          /\ @scale_count (with_histogram L)
               count N boxsize r_n phi_m theta_l = Ok g
          /\ fl_sum (data count)
             = Some (INR (length (filter (Histogram.counted bins) rij)))
          /\ (Forall increasing bins ->
              (forall p, In p rij ->
                 (Histogram.counted bins p = true <-> inside bins p))
              /\ (Forall (inside bins) rij ->
                  fl_sum (data count) = Some (INR (length rij))))
          /\ (let norm :=
                normalisation N
                  (squeezed_volume count r_n phi_m theta_l (length boxsize))
                  (fl_div (Some (INR N)) (Some (prod boxsize))) in
              shape count = shape norm ->
              Forall finite_nonzero (data norm) ->
              zip_with fl_mul (data g) (data norm) = data count))
    /\ (forall (r phi theta : list fl) (g : ndarray),
        let chosen :=
          filter (fun sb : list fl * vec => (1 <? length (fst sb))%nat)
                 [(r, r_n); (phi, phi_m); (theta, theta_l)] in
        let s := Columns (map fst chosen) in
        let bins := map snd chosen in
        @Cloud._get_distribution (with_histogram L)
          r phi theta N boxsize r_n phi_m theta_l = Ok g ->
        exists count : ndarray,
          Histogram.histogramdd s bins None = Ok count
          /\ @scale_count (with_histogram L)
               count N boxsize r_n phi_m theta_l = Ok g
          /\ fl_sum (data count)
             = Some (INR (length (filter (Histogram.counted bins)
                                         (Histogram.points_of s))))
          /\ (Forall increasing bins ->
              Forall (fun edges => (2 <= length edges)%nat) bins ->
              (forall p, In p (Histogram.points_of s) ->
                 (Histogram.counted bins p = true <-> inside bins p))
              /\ (Forall (inside bins) (Histogram.points_of s) ->
                  fl_sum (data count)
                  = Some (INR (length (Histogram.points_of s)))))
          /\ (let norm :=
                normalisation N
                  (squeezed_volume count r_n phi_m theta_l (length boxsize))
                  (fl_div (Some (INR N)) (Some (prod boxsize))) in
              shape count = shape norm ->
              Forall finite_nonzero (data norm) ->
              zip_with fl_mul (data g) (data norm) = data count)).
Proof.
  intros L N boxsize r_n phi_m theta_l; split.
  - intros rij g bins Hg.
    unfold Correlations._get_distribution in Hg; cbv zeta in Hg.
    fold bins in Hg.
    change (1 <? length (@nil fl))%nat with false in Hg; cbv iota in Hg.
    change (@histogramdd (with_histogram L)) with Histogram.histogramdd in Hg.
    destruct (Histogram.histogramdd (Rows rij) bins None) as [count|e] eqn:E;
      [|simpl in Hg; discriminate].
    exists count; split; [reflexivity|].
    split; [exact Hg|].
    split; [exact (histogramdd_total _ _ _ E)|].
    destruct (histogramdd_wf _ _ _ E) as [Hwf Hfin].
    split; [|intros norm;
              now apply (scale_count_undone (with_histogram L))].
    intros Hinc.
    assert (Hlen : Forall (fun edges => (2 <= length edges)%nat) bins).
    { apply Forall_forall; intros b Hb.
      apply filter_In in Hb; destruct Hb as [_ Hb].
      apply Nat.ltb_lt in Hb; lia. }
    split; [intros p _; now apply counted_inside|].
    intros Hin; exact (histogramdd_total_inside _ _ _ E Hinc Hlen Hin).
  - intros r phi theta g chosen s bins Hg.
    unfold Cloud._get_distribution in Hg; cbv zeta in Hg.
    fold chosen in Hg; fold s in Hg; fold bins in Hg.
    change (@histogramdd (with_histogram L)) with Histogram.histogramdd in Hg.
    destruct (Histogram.histogramdd s bins None) as [count|e] eqn:E;
      [|simpl in Hg; discriminate].
    exists count; split; [reflexivity|].
    split; [exact Hg|].
    split; [exact (histogramdd_total _ _ _ E)|].
    destruct (histogramdd_wf _ _ _ E) as [Hwf Hfin].
    split; [|intros norm;
              now apply (scale_count_undone (with_histogram L))].
    intros Hinc Hlen.
    split; [intros p _; now apply counted_inside|].
    intros Hin; exact (histogramdd_total_inside _ _ _ E Hinc Hlen Hin).
Qed.

(** Evaluating the histogram on concrete data. *)
Ltac run_histogram :=
  unfold Histogram.histogramdd, Histogram.cell_total, Histogram.lands_in,
    Histogram.counted;
  simpl;
  unfold Histogram.in_bin, at_; simpl;
  decide_reals; simpl.

(** Two ordered samples of a pair at distance 1/2, binned from
    rmin = 1 on: both are below the first edge and the grid stays
    empty. *)
Lemma C8_samples_below_rmin_dropped :
  Histogram.histogramdd (Rows [[Some (1 / 2)]; [Some (1 / 2)]])
                        [[1; 2; 3]] None
  = Ok (mk_ndarray [2%nat] [Some 0; Some 0])
  /\ fl_sum [Some 0; Some 0]
     <> Some (INR (length [[Some (1 / 2)]; [Some (1 / 2)]])).
Proof.
  split.
  - run_histogram; reflexivity.
  - unfold fl_sum; simpl; intros E; injection E as E; lra.
Qed.

Lemma C8_count_conserved_inside_edges_witness :
  exists count g : ndarray,
    Histogram.histogramdd (Rows [[Some (3 / 2)]; [Some 3]]) [[1; 2; 3]] None
    = Ok count
    /\ fl_sum (data count)
       = Some (INR (length [[Some (3 / 2)]; [Some 3]]))
    /\ zip_with fl_mul (data g)
         (data (normalisation 2
                  (squeezed_volume count [1; 2; 3] [- PI; PI] [0; PI] 2)
                  (fl_div (Some (INR 2)) (Some (prod [10; 10])))))
       = data count.
Proof.
  pose (L := with_histogram (fixed_library [])).
  assert (Hg : exists g,
    @Correlations._get_distribution L [[Some (3 / 2)]; [Some 3]] [] 2
      [10; 10] [1; 2; 3] [- PI; PI] [0; PI] = Ok g).
  { unfold Correlations._get_distribution, scale_count, divide; simpl.
    eexists; reflexivity. }
  destruct Hg as [g Hg].
  destruct (proj1 (C8_count_conserved_inside_edges
                     (fixed_library []) 2 [10; 10] [1; 2; 3]
                     [- PI; PI] [0; PI])
                  [[Some (3 / 2)]; [Some 3]] g Hg)
    as [count [Hc [_ [_ [Hall Hnorm]]]]].
  exists count, g; split; [exact Hc|]; split.
  - apply Hall.
    + simpl; repeat constructor; lra.
    + repeat constructor; unfold inside_axis, at_; simpl.
      * exists (3 / 2); split; [reflexivity | lra].
      * exists 3; split; [reflexivity | lra].
  - apply Hnorm.
    + unfold Histogram.histogramdd in Hc; simpl in Hc.
      injection Hc as <-; reflexivity.
    + pose proof PI_RGT_0 as Hpi.
      unfold normalisation, squeezed_volume, _get_volume, prod, at_; simpl.
      destruct (Req_dec_T (1 * 10 * 10) 0) as [E | _]; [lra|].
      repeat constructor; eexists; (split; [reflexivity|]); simpl; nra.
Defined.

(** * Further properties *)

(** ** More on the periodic wrap *)

Lemma while_below_result (side : R) (fuel : nat) :
  forall x y : R,
    while_below fuel side x = Some y ->
    0 <= y /\ (0 <= x -> y = x)
    /\ exists k : nat, y = x + INR k * side.
Proof.
  induction fuel as [|fuel IH]; intros x y; simpl;
    destruct (Rlt_dec x 0) as [Hneg | Hpos]; try discriminate.
  - intros E; injection E as <-; repeat split; try lra.
    exists 0%nat; simpl; ring.
  - intros E; destruct (IH _ _ E) as [H0 [_ [k Hk]]].
    repeat split; [assumption | lra |].
    exists (S k); rewrite S_INR, Hk; ring.
  - intros E; injection E as <-; repeat split; try lra.
    exists 0%nat; simpl; ring.
Qed.

Lemma while_above_result (side : R) (fuel : nat) :
  forall x y : R,
    while_above fuel side x = Some y ->
    y <= side /\ (x <= side -> y = x) /\ (0 <= x -> 0 <= y)
    /\ exists k : nat, y = x - INR k * side.
Proof.
  induction fuel as [|fuel IH]; intros x y; simpl;
    destruct (Rgt_dec x side) as [Hgt | Hle]; try discriminate.
  - intros E; injection E as <-; repeat split; try lra.
    exists 0%nat; simpl; ring.
  - intros E; destruct (IH _ _ E) as [H0 [Hsame [Hpos [k Hk]]]].
    repeat split; [assumption | lra | |].
    + intros Hx.
      destruct (Rgt_dec (x - side) side) as [H1 | H1].
      * apply Hpos.
        destruct (Rle_dec 0 side); [lra|].
        (* side < 0 <= x: then x - side > 0 *) lra.
      * rewrite Hsame by lra.
        destruct (Rle_dec 0 side); lra.
    + exists (S k); rewrite S_INR, Hk; ring.
  - intros E; injection E as <-; repeat split; try lra.
    exists 0%nat; simpl; ring.
Qed.

Lemma wrap_component_result (fuel : nat) (side x y : R) :
  wrap_component fuel side x = Some y ->
  0 <= y <= side /\ exists k : Z, y = x + IZR k * side.
Proof.
  unfold wrap_component.
  destruct (while_below fuel side x) as [y1|] eqn:E1; [|discriminate].
  intros E2.
  destruct (while_below_result _ _ _ _ E1) as [H0 [_ [k1 Hk1]]].
  destruct (while_above_result _ _ _ _ E2) as [Hle [_ [Hpos [k2 Hk2]]]].
  split; [split; [now apply Hpos | exact Hle]|].
  exists (Z.of_nat k1 - Z.of_nat k2)%Z.
  rewrite minus_IZR, <- !INR_IZR_INZ, Hk2, Hk1; ring.
Qed.

(** A larger budget changes nothing once a loop has stopped. *)
Lemma while_below_more (side : R) (fuel : nat) :
  forall (x y : R) (fuel' : nat),
    while_below fuel side x = Some y -> (fuel <= fuel')%nat ->
    while_below fuel' side x = Some y.
Proof.
  induction fuel as [|fuel IH]; intros x y fuel' E Hle.
  - simpl in E; destruct (Rlt_dec x 0) as [H|H] eqn:D; [discriminate|].
    destruct fuel'; simpl; rewrite D; exact E.
  - destruct fuel' as [|fuel']; [lia|]; simpl in *.
    destruct (Rlt_dec x 0); [apply IH; [exact E | lia] | exact E].
Qed.

Lemma while_above_more (side : R) (fuel : nat) :
  forall (x y : R) (fuel' : nat),
    while_above fuel side x = Some y -> (fuel <= fuel')%nat ->
    while_above fuel' side x = Some y.
Proof.
  induction fuel as [|fuel IH]; intros x y fuel' E Hle.
  - simpl in E; destruct (Rgt_dec x side) as [H|H] eqn:D; [discriminate|].
    destruct fuel'; simpl; rewrite D; exact E.
  - destruct fuel' as [|fuel']; [lia|]; simpl in *.
    destruct (Rgt_dec x side); [apply IH; [exact E | lia] | exact E].
Qed.

Lemma wrap_component_more (side x y : R) (fuel fuel' : nat) :
  wrap_component fuel side x = Some y -> (fuel <= fuel')%nat ->
  wrap_component fuel' side x = Some y.
Proof.
  unfold wrap_component; intros E Hle.
  destruct (while_below fuel side x) as [y1|] eqn:E1; [|discriminate].
  rewrite (while_below_more _ _ _ _ _ E1 Hle).
  now apply while_above_more with fuel.
Qed.

Lemma traverse_more {A B : Type} (f : nat -> A -> option B) (l : list A) :
  (forall fuel fuel' x y, f fuel x = Some y -> (fuel <= fuel')%nat ->
                          f fuel' x = Some y) ->
  forall fuel fuel' ys,
    traverse (f fuel) l = Some ys -> (fuel <= fuel')%nat ->
    traverse (f fuel') l = Some ys.
Proof.
  intros Hf fuel fuel'; induction l as [|x l IH]; intros ys E Hle;
    simpl in *; [exact E|].
  destruct (f fuel x) as [y|] eqn:Ey; [|discriminate].
  destruct (traverse (f fuel) l) as [t|] eqn:Et; [|discriminate].
  rewrite (Hf _ _ _ _ Ey Hle), (IH _ eq_refl Hle); exact E.
Qed.

Lemma _impose_pbc_more (coords coords' : list vec) (boxsize : vec)
    (fuel fuel' : nat) :
  _impose_pbc fuel coords boxsize = Some coords' -> (fuel <= fuel')%nat ->
  _impose_pbc fuel' coords boxsize = Some coords'.
Proof.
  unfold _impose_pbc.
  apply (traverse_more (fun fuel => wrap_particle fuel boxsize)).
  intros f f' p p' E Hle; unfold wrap_particle in *.
  revert E Hle.
  apply (traverse_more
           (fun fuel (ix : nat * R) =>
              let (i, x) := ix in
              if (i <? length boxsize)%nat
              then wrap_component fuel (at_ boxsize i) x
              else Some x)).
  intros g g' [i x] y E Hle.
  destruct (i <? length boxsize)%nat; [|exact E].
  now apply wrap_component_more with g.
Qed.

Lemma traverse_Forall2 {A B : Type} (f : A -> option B) (l : list A)
    (ys : list B) :
  traverse f l = Some ys -> Forall2 (fun x y => f x = Some y) l ys.
Proof.
  revert ys; induction l as [|x l IH]; intros ys E; simpl in E.
  - injection E as <-; constructor.
  - destruct (f x) as [y|] eqn:Ey; [|discriminate].
    destruct (traverse f l) as [t|] eqn:Et; [|discriminate].
    injection E as <-; constructor; [exact Ey | now apply IH].
Qed.

Lemma wrap_particle_result (fuel : nat) (boxsize p p' : vec) :
  wrap_particle fuel boxsize p = Some p' -> wrapped boxsize p p'.
Proof.
  unfold wrap_particle; intros E.
  apply traverse_Forall2 in E.
  destruct (Forall2_nth_both _ _ _ (0%nat, 0) 0 E) as [Hlen Hnth].
  rewrite length_combine, length_seq, Nat.min_id in Hlen, Hnth.
  split; [exact Hlen|].
  intros i Hi; specialize (Hnth i Hi).
  rewrite nth_combine_seq in Hnth by assumption.
  fold (at_ p' i) in Hnth.
  destruct (i <? length boxsize)%nat eqn:Hb.
  - apply Nat.ltb_lt in Hb; split; [|lia].
    intros _; now apply wrap_component_result with fuel.
  - apply Nat.ltb_ge in Hb; split; [lia|].
    intros _; now injection Hnth.
Qed.

Lemma Forall2_wrapped (fuel : nat) (coords coords' : list vec)
    (boxsize : vec) :
  _impose_pbc fuel coords boxsize = Some coords' ->
  Forall2 (wrapped boxsize) coords coords'.
Proof.
  unfold _impose_pbc; intros E; apply traverse_Forall2 in E.
  induction E as [|p p' l l' Hp _ IH]; constructor; [|exact IH].
  now apply wrap_particle_result with fuel.
Qed.

(** With positive sides [_impose_pbc] returns, with the same array
    for every budget that is large enough; the array has the shape of
    the input, every component with a box side lies between zero and
    the side and has moved by a whole number of sides. *)
Theorem _impose_pbc_wraps_by_whole_sides :
  forall (coords : list vec) (boxsize : vec),
    positive_sides boxsize ->
    exists (n : nat) (coords' : list vec),
      (forall fuel : nat, (n <= fuel)%nat ->
         _impose_pbc fuel coords boxsize = Some coords')
      /\ Forall2 (wrapped boxsize) coords coords'.
Proof.
  intros coords boxsize Hpos.
  destruct (_impose_pbc_enough coords boxsize Hpos) as [n Hn].
  destruct (Hn n (Nat.le_refl n)) as [coords' [E _]].
  exists n, coords'; split.
  - intros fuel Hfuel; now apply _impose_pbc_more with n.
  - now apply Forall2_wrapped with n.
Qed.

Lemma _impose_pbc_wraps_by_whole_sides_witness :
  positive_sides [10; 10]
  /\ exists (n : nat) (coords' : list vec),
      (forall fuel : nat, (n <= fuel)%nat ->
         _impose_pbc fuel [[-25; 3]; [31; 10]] [10; 10] = Some coords')
      /\ Forall2 (wrapped [10; 10]) [[-25; 3]; [31; 10]] coords'.
Proof.
  assert (H : positive_sides [10; 10])
    by (constructor; [lra | constructor; [lra | constructor]]).
  split; [exact H|].
  exact (_impose_pbc_wraps_by_whole_sides [[-25; 3]; [31; 10]] [10; 10] H).
Defined.

(** Wrapping twice is wrapping once: what [_impose_pbc] returns is
    returned unchanged by a second call, whatever its budget. *)
Theorem _impose_pbc_idempotent :
  forall (coords : list vec) (boxsize : vec),
    positive_sides boxsize ->
    exists (n : nat) (coords' : list vec),
      (forall fuel : nat, (n <= fuel)%nat ->
         _impose_pbc fuel coords boxsize = Some coords')
      /\ forall fuel' : nat,
           _impose_pbc fuel' coords' boxsize = Some coords'.
Proof.
  intros coords boxsize Hpos.
  destruct (_impose_pbc_enough coords boxsize Hpos) as [n Hn].
  destruct (Hn n (Nat.le_refl n)) as [coords' [E [_ Hbox]]].
  exists n, coords'; split.
  - intros fuel Hfuel; now apply _impose_pbc_more with n.
  - intros fuel'; now apply _impose_pbc_fixed.
Qed.

Lemma _impose_pbc_idempotent_witness :
  positive_sides [10; 10; 10]
  /\ exists (n : nat) (coords' : list vec),
      (forall fuel : nat, (n <= fuel)%nat ->
         _impose_pbc fuel [[-25; 3; 99]] [10; 10; 10] = Some coords')
      /\ forall fuel' : nat,
           _impose_pbc fuel' coords' [10; 10; 10] = Some coords'.
Proof.
  assert (H : positive_sides [10; 10; 10])
    by (constructor; [lra | constructor; [lra | constructor;
                                                  [lra | constructor]]]).
  split; [exact H|].
  exact (_impose_pbc_idempotent [[-25; 3; 99]] [10; 10; 10] H).
Defined.

(** *** A side that is not positive *)

Lemma while_below_never (side : R) (fuel : nat) :
  side <= 0 -> forall x : R, x < 0 -> while_below fuel side x = None.
Proof.
  intros Hs; induction fuel as [|fuel IH]; intros x Hx; simpl;
    destruct (Rlt_dec x 0) as [_ | Hn]; try lra; [reflexivity|].
  apply IH; lra.
Qed.

Lemma while_above_never (side : R) (fuel : nat) :
  side <= 0 -> forall x : R, x > side -> while_above fuel side x = None.
Proof.
  intros Hs; induction fuel as [|fuel IH]; intros x Hx; simpl;
    destruct (Rgt_dec x side) as [_ | Hn]; try lra; [reflexivity|].
  apply IH; lra.
Qed.

Lemma while_below_skip (side x : R) (fuel : nat) :
  0 <= x -> while_below fuel side x = Some x.
Proof.
  intros Hx; destruct fuel; simpl;
    destruct (Rlt_dec x 0); try lra; reflexivity.
Qed.

Lemma wrap_component_never (side x : R) (fuel : nat) :
  side <= 0 -> x <> 0 \/ side <> 0 -> wrap_component fuel side x = None.
Proof.
  intros Hs Hnz; unfold wrap_component.
  destruct (Rlt_dec x 0) as [Hneg | Hpos].
  - now rewrite while_below_never.
  - rewrite while_below_skip by lra.
    apply while_above_never; [assumption | lra].
Qed.

Lemma traverse_None {A B : Type} (f : A -> option B) (l : list A) (x : A) :
  In x l -> f x = None -> traverse f l = None.
Proof.
  induction l as [|y l IH]; intros Hin Hx; simpl; [destruct Hin|].
  destruct Hin as [-> | Hin].
  - now rewrite Hx.
  - rewrite (IH Hin Hx); destruct (f y); reflexivity.
Qed.

Lemma in_combine_seq_nth (p : vec) (i : nat) :
  (i < length p)%nat -> In (i, at_ p i) (combine (seq 0 (length p)) p).
Proof.
  intros Hi; rewrite <- (nth_combine_seq p i Hi).
  apply nth_In; now rewrite length_combine, length_seq, Nat.min_id.
Qed.

Lemma _impose_pbc_never (coords : list vec) (boxsize p : vec) (i : nat) :
  In p coords ->
  (i < length boxsize)%nat -> (i < length p)%nat ->
  at_ boxsize i <= 0 ->
  at_ p i <> 0 \/ at_ boxsize i <> 0 ->
  forall fuel : nat, _impose_pbc fuel coords boxsize = None.
Proof.
  intros Hp Hb Hi Hs Hnz fuel; unfold _impose_pbc.
  apply traverse_None with p; [exact Hp|].
  unfold wrap_particle.
  apply traverse_None with (i, at_ p i); [now apply in_combine_seq_nth|].
  apply Nat.ltb_lt in Hb; rewrite Hb.
  now apply wrap_component_never.
Qed.

(** ** The entry points up to the wrap *)

(** [corr] up to the wrap: the three tests and then [_impose_pbc]. *)
Lemma corr_checks (L : Library) (fuel : nat) (caller : arrays)
    (boxsize : vec) (z : Z) (rmin rmax : option R)
    (nr nphi ntheta : option nat) :
  (dimension_ok caller = false ->
   Correlations.corr fuel caller boxsize z rmin rmax nr nphi ntheta
   = Some (caller, Raise (ValueError dimension_message)))
  /\ (dimension_ok caller = true -> orientations_ok caller = false ->
      Correlations.corr fuel caller boxsize z rmin rmax nr nphi ntheta
      = Some (caller, Raise (ValueError
                "Shape of orientations must match positions array")))
  /\ (dimension_ok caller = true -> orientations_ok caller = true ->
      weights_ok caller = false ->
      Correlations.corr fuel caller boxsize z rmin rmax nr nphi ntheta
      = Some (caller, Raise (ValueError
                "Shape of weights must match positions array")))
  /\ (dimension_ok caller = true -> orientations_ok caller = true ->
      weights_ok caller = true ->
      _impose_pbc fuel (positions caller) boxsize = None ->
      Correlations.corr fuel caller boxsize z rmin rmax nr nphi ntheta
      = None)
  /\ (dimension_ok caller = true -> orientations_ok caller = true ->
      weights_ok caller = true ->
      forall coords,
        _impose_pbc fuel (positions caller) boxsize = Some coords ->
        exists out,
          Correlations.corr fuel caller boxsize z rmin rmax nr nphi ntheta
          = Some (set_positions caller coords, out)).
Proof.
  unfold Correlations.corr, dimension_ok, orientations_ok, weights_ok.
  destruct (shape2 (positions caller)) as [N ndim]; cbn [snd].
  repeat split.
  - intros ->; reflexivity.
  - intros -> ->; reflexivity.
  - intros -> -> ->; reflexivity.
  - intros -> -> -> ->; reflexivity.
  - intros -> -> -> coords ->; cbn [negb].
    destruct (_ =? 0)%nat; eexists; reflexivity.
Qed.

Lemma sdf_checks (L : Library) (fuel : nat) (caller : arrays)
    (boxsize : vec) (rmin rmax : option R) (nr : nat)
    (nphi ntheta : option nat) :
  (dimension_ok caller = false ->
   Cloud.sdf fuel caller boxsize rmin rmax nr nphi ntheta
   = Some (caller, Raise (ValueError dimension_message)))
  /\ (dimension_ok caller = true -> orientations_ok caller = false ->
      Cloud.sdf fuel caller boxsize rmin rmax nr nphi ntheta
      = Some (caller, Raise (ValueError
                "Shape of orientations array must match positions array")))
  /\ (dimension_ok caller = true -> orientations_ok caller = true ->
      _impose_pbc fuel (positions caller) boxsize = None ->
      Cloud.sdf fuel caller boxsize rmin rmax nr nphi ntheta = None)
  /\ (dimension_ok caller = true -> orientations_ok caller = true ->
      forall coords,
        _impose_pbc fuel (positions caller) boxsize = Some coords ->
        exists out,
          Cloud.sdf fuel caller boxsize rmin rmax nr nphi ntheta
          = Some (set_positions caller coords, out)).
Proof.
  unfold Cloud.sdf, dimension_ok, orientations_ok.
  destruct (shape2 (positions caller)) as [N ndim]; cbn [snd].
  repeat split.
  - intros ->; reflexivity.
  - intros -> ->; reflexivity.
  - intros -> -> ->; reflexivity.
  - intros -> -> coords ->; cbn [negb].
    eexists; reflexivity.
Qed.

(** ** The caller's arrays after a call *)

(** Wrapping changes nothing exactly when every coordinate already
    lies between zero and the side of its axis. *)
Lemma wrapped_fixed_iff (fuel : nat) (coords coords' : list vec)
    (boxsize : vec) :
  _impose_pbc fuel coords boxsize = Some coords' ->
  coords' = coords <-> in_box boxsize coords.
Proof.
  intros E; split.
  - intros ->; apply Forall2_wrapped in E.
    unfold in_box; apply Forall_forall; intros p Hp.
    assert (Hw : wrapped boxsize p p).
    { clear - E Hp.
      induction coords as [|q coords IH]; [destruct Hp|].
      inversion E as [|? ? ? ? Hq Hrest]; subst.
      destruct Hp as [-> | Hp]; [exact Hq | now apply IH]. }
    destruct Hw as [_ Hw]; intros i Hb Hi.
    now apply (proj1 (Hw i Hi)).
  - intros Hin; rewrite (_impose_pbc_fixed fuel _ _ Hin) in E.
    now injection E.
Qed.

Lemma corr_positions (L : Library) (fuel : nat) (caller : arrays)
    (boxsize : vec) (z : Z) (rmin rmax : option R)
    (nr nphi ntheta : option nat) (coords : list vec) :
  _impose_pbc fuel (positions caller) boxsize = Some coords ->
  exists caller' out,
    Correlations.corr fuel caller boxsize z rmin rmax nr nphi ntheta
    = Some (caller', out)
    /\ orientations caller' = orientations caller
    /\ weights caller' = weights caller
    /\ positions caller'
       = if accepted_by_corr caller then coords else positions caller.
Proof.
  intros E.
  pose proof (corr_checks L fuel caller boxsize z rmin rmax nr nphi ntheta)
    as [C1 [C2 [C3 [_ C5]]]].
  unfold accepted_by_corr.
  destruct (dimension_ok caller) eqn:Hd;
    [|exists caller; eexists; rewrite C1 by reflexivity; auto].
  destruct (orientations_ok caller) eqn:Ho;
    [|exists caller; eexists; rewrite C2 by reflexivity; auto].
  destruct (weights_ok caller) eqn:Hw;
    [|exists caller; eexists; rewrite C3 by reflexivity; auto].
  destruct (C5 eq_refl eq_refl eq_refl coords E) as [out Eout].
  exists (set_positions caller coords), out; auto.
Qed.

Lemma sdf_positions (L : Library) (fuel : nat) (caller : arrays)
    (boxsize : vec) (rmin rmax : option R) (nr : nat)
    (nphi ntheta : option nat) (coords : list vec) :
  _impose_pbc fuel (positions caller) boxsize = Some coords ->
  exists caller' out,
    Cloud.sdf fuel caller boxsize rmin rmax nr nphi ntheta
    = Some (caller', out)
    /\ orientations caller' = orientations caller
    /\ weights caller' = weights caller
    /\ positions caller'
       = if accepted_by_sdf caller then coords else positions caller.
Proof.
  intros E.
  pose proof (sdf_checks L fuel caller boxsize rmin rmax nr nphi ntheta)
    as [S1 [S2 [_ S4]]].
  unfold accepted_by_sdf.
  destruct (dimension_ok caller) eqn:Hd;
    [|exists caller; eexists; rewrite S1 by reflexivity; auto].
  destruct (orientations_ok caller) eqn:Ho;
    [|exists caller; eexists; rewrite S2 by reflexivity; auto].
  destruct (S4 eq_refl eq_refl coords E) as [out Eout].
  exists (set_positions caller coords), out; auto.
Qed.

(** C10, as the code has it: with positive box sides a call to [corr]
    or [sdf] comes back once the budget of the wrapping loops is large
    enough, and leaves the orientations and the weights of the caller
    as they were.  A call that passes the shape tests leaves the wrapped
    coordinates in the positions array, whether it then returns or
    raises; a call that is refused leaves the array alone.  So the
    array holds its old values exactly when the call was refused or
    every coordinate already lay between zero and the side of its
    axis. *)
Theorem C10_caller_arrays_after_call :
  forall (L : Library) (caller : arrays) (boxsize : vec) (z : Z)
         (rmin rmax : option R) (nr nphi ntheta : option nat) (nr' : nat),
    positive_sides boxsize ->
    exists (n : nat) (coords : list vec),
      Forall2 (wrapped boxsize) (positions caller) coords
      /\ forall fuel : nat, (n <= fuel)%nat ->
        (exists caller' out,
            Correlations.corr fuel caller boxsize z rmin rmax nr nphi ntheta
            = Some (caller', out)
            /\ orientations caller' = orientations caller
            /\ weights caller' = weights caller
            /\ positions caller'
               = (if accepted_by_corr caller
                  then coords else positions caller)
            /\ (positions caller' = positions caller
                <-> accepted_by_corr caller = false
                    \/ in_box boxsize (positions caller)))
        /\ (exists caller' out,
              Cloud.sdf fuel caller boxsize rmin rmax nr' nphi ntheta
              = Some (caller', out)
              /\ orientations caller' = orientations caller
              /\ weights caller' = weights caller
              /\ positions caller'
                 = (if accepted_by_sdf caller
                    then coords else positions caller)
              /\ (positions caller' = positions caller
                  <-> accepted_by_sdf caller = false
                      \/ in_box boxsize (positions caller))).
Proof.
  intros L caller boxsize z rmin rmax nr nphi ntheta nr' Hpos.
  destruct (_impose_pbc_enough (positions caller) boxsize Hpos) as [n Hn].
  destruct (Hn n (Nat.le_refl n)) as [coords [E _]].
  exists n, coords; split; [now apply Forall2_wrapped with n|].
  intros fuel Hfuel.
  pose proof (_impose_pbc_more _ _ _ _ _ E Hfuel) as E'.
  pose proof (wrapped_fixed_iff _ _ _ _ E') as Hfix.
  assert (Hiff : forall (ok : bool) (ps : list vec),
            ps = (if ok then coords else positions caller) ->
            ps = positions caller
            <-> ok = false \/ in_box boxsize (positions caller)).
  { intros ok ps ->; destruct ok.
    - rewrite Hfix; split; [now right | intros [H | H]; [discriminate | exact H]].
    - split; [now left | reflexivity]. }
  split.
  - destruct (corr_positions L fuel caller boxsize z rmin rmax nr nphi
                             ntheta coords E')
      as [caller' [out [Ec [Ho [Hw Hp]]]]].
    exists caller', out; repeat split; auto; now apply Hiff.
  - destruct (sdf_positions L fuel caller boxsize rmin rmax nr' nphi
                            ntheta coords E')
      as [caller' [out [Ec [Ho [Hw Hp]]]]].
    exists caller', out; repeat split; auto; now apply Hiff.
Qed.

(** A particle at x = -1 in a 10 x 10 box: after the call the caller's
    array holds x = 9. *)
Lemma C10_positions_rewritten :
  exists out,
    @Correlations.corr (fixed_library [(0, 1)%nat]) 1
      (mk_arrays [[-1; 5]; [3; 5]] None None) [10; 10] 1
      None None None None None
    = Some (mk_arrays [[-1 + 10; 5]; [3; 5]] None None, out)
    /\ [[-1 + 10; 5]; [3; 5]]
       <> positions (mk_arrays [[-1; 5]; [3; 5]] None None).
Proof.
  assert (E : _impose_pbc 1 [[-1; 5]; [3; 5]] [10; 10]
              = Some [[-1 + 10; 5]; [3; 5]]).
  { unfold _impose_pbc, wrap_particle, wrap_component; simpl.
    unfold at_; simpl; decide_reals; reflexivity. }
  unfold Correlations.corr.
  cbn [positions shape2 length hd Nat.eqb orb negb orientations weights].
  rewrite E.
  unfold Correlations._get_pairs.
  cbn [query_pairs fixed_library length Nat.eqb].
  eexists; split; [reflexivity|].
  cbn [positions]; intros H; injection H as H; lra.
Qed.

Lemma C10_caller_arrays_after_call_witness :
  positive_sides [10; 10]
  /\ exists (n : nat) (coords : list vec),
      Forall2 (wrapped [10; 10]) [[-1; 5]; [3; 5]] coords
      /\ forall fuel : nat, (n <= fuel)%nat ->
        (exists caller' out,
            @Correlations.corr (fixed_library [(0, 1)%nat]) fuel
              (mk_arrays [[-1; 5]; [3; 5]] None None) [10; 10] 1
              None None None None None
            = Some (caller', out)
            /\ orientations caller' = None
            /\ weights caller' = None
            /\ positions caller' = coords
            /\ (positions caller' = [[-1; 5]; [3; 5]]
                <-> accepted_by_corr
                      (mk_arrays [[-1; 5]; [3; 5]] None None) = false
                    \/ in_box [10; 10] [[-1; 5]; [3; 5]]))
        /\ (exists caller' out,
              @Cloud.sdf (fixed_library [(0, 1)%nat]) fuel
                (mk_arrays [[-1; 5]; [3; 5]] None None) [10; 10]
                None None 100 None None
              = Some (caller', out)
              /\ orientations caller' = None
              /\ weights caller' = None
              /\ positions caller' = coords
              /\ (positions caller' = [[-1; 5]; [3; 5]]
                  <-> accepted_by_sdf
                        (mk_arrays [[-1; 5]; [3; 5]] None None) = false
                      \/ in_box [10; 10] [[-1; 5]; [3; 5]])).
Proof.
  assert (H : positive_sides [10; 10])
    by (constructor; [lra | constructor; [lra | constructor]]).
  split; [exact H|].
  exact (C10_caller_arrays_after_call
           (fixed_library [(0, 1)%nat])
           (mk_arrays [[-1; 5]; [3; 5]] None None) [10; 10] 1
           None None None None None 100 H).
Defined.

(** ** No pair within the cutoff *)

Lemma corr_zero_pairs (L : Library) (fuel : nat) (caller : arrays)
    (boxsize : vec) (z : Z) (rmin rmax : option R)
    (nr nphi ntheta : option nat) (coords : list vec) :
  accepted_by_corr caller = true ->
  _impose_pbc fuel (positions caller) boxsize = Some coords ->
  query_pairs coords boxsize
    (match rmax with None => vmax boxsize / 2 | Some x => x end) = [] ->
  Correlations.corr fuel caller boxsize z rmin rmax nr nphi ntheta
  = Some (set_positions caller coords,
          Raise (ValueError zero_pairs_message)).
Proof.
  unfold accepted_by_corr, dimension_ok, orientations_ok, weights_ok,
    Correlations.corr.
  destruct (shape2 (positions caller)) as [N ndim]; cbn [snd].
  intros Hacc E Hq.
  apply andb_prop in Hacc; destruct Hacc as [Hacc Hw].
  apply andb_prop in Hacc; destruct Hacc as [Hd Ho].
  rewrite Hd, Ho, Hw, E; cbn [negb].
  unfold Correlations._get_pairs; rewrite Hq; reflexivity.
Qed.

Lemma sdf_zero_pairs (L : Library) (fuel : nat) (caller : arrays)
    (boxsize : vec) (rmin rmax : option R) (nr : nat)
    (nphi ntheta : option nat) (coords : list vec) :
  accepted_by_sdf caller = true ->
  _impose_pbc fuel (positions caller) boxsize = Some coords ->
  query_pairs coords boxsize
    (match rmax with None => vmax boxsize / 2 | Some x => x end) = [] ->
  @histogramdd L = Histogram.histogramdd ->
  Cloud.sdf fuel caller boxsize rmin rmax nr nphi ntheta
  = Some (set_positions caller coords,
          Raise (match orientations caller with
                 | None => TypingError
                 | Some _ => ValueError bins_message
                 end)).
Proof.
  unfold accepted_by_sdf, dimension_ok, orientations_ok, Cloud.sdf.
  destruct (shape2 (positions caller)) as [N ndim]; cbn [snd].
  intros Hacc E Hq Hh.
  apply andb_prop in Hacc; destruct Hacc as [Hd Ho].
  rewrite Hd, Ho, E; cbn [negb].
  unfold Cloud._get_pairs; rewrite Hq; cbn [app map].
  unfold Cloud._get_displacements.
  destruct (orientations caller) as [o|]; [|reflexivity].
  cbn [map map_result].
  f_equal; f_equal.
  unfold Cloud._get_distribution; rewrite Hh.
  destruct (1 <? nr)%nat;
    destruct (1 <? match nphi with Some n => n | None => 1 end)%nat;
    destruct (1 <? _)%nat; reflexivity.
Qed.

(** C7: on an input that passes the shape tests and on which the tree
    finds no pair, neither entry point returns a grid: once the wrapping
    loops have run, [corr] raises its own ValueError about the pairs,
    and [sdf] raises too, the ValueError of numpy's histogram, which is
    handed an empty sample and no edges (or, when the caller gave no
    orientations, numba's TypingError). *)
Theorem C7_zero_pairs :
  forall (L : Library) (caller : arrays) (boxsize : vec) (z : Z)
         (rmin rmax : option R) (nr nphi ntheta : option nat) (nr' : nat),
    accepted_by_corr caller = true ->
    positive_sides boxsize ->
    (forall (fuel : nat) (coords : list vec),
       _impose_pbc fuel (positions caller) boxsize = Some coords ->
       query_pairs coords boxsize
         (match rmax with None => vmax boxsize / 2 | Some x => x end)
       = []) ->
    @histogramdd L = Histogram.histogramdd ->
    exists n : nat, forall fuel : nat, (n <= fuel)%nat ->
      exists caller' : arrays,
        Correlations.corr fuel caller boxsize z rmin rmax nr nphi ntheta
        = Some (caller', Raise (ValueError zero_pairs_message))
        /\ Cloud.sdf fuel caller boxsize rmin rmax nr' nphi ntheta
           = Some (caller',
                   Raise (match orientations caller with
                          | None => TypingError
                          | Some _ => ValueError bins_message
                          end)).
Proof.
  intros L caller boxsize z rmin rmax nr nphi ntheta nr' Hacc Hpos Hq Hh.
  destruct (_impose_pbc_enough (positions caller) boxsize Hpos) as [n Hn].
  exists n; intros fuel Hfuel.
  destruct (Hn fuel Hfuel) as [coords [E _]].
  exists (set_positions caller coords); split.
  - apply corr_zero_pairs; trivial; now apply Hq with fuel.
  - apply sdf_zero_pairs; trivial; [|now apply Hq with fuel].
    unfold accepted_by_corr in Hacc; unfold accepted_by_sdf.
    apply andb_prop in Hacc; tauto.
Qed.

(** Two particles too far apart for any pair. *)
Lemma C7_zero_pairs_witness :
  exists n : nat, forall fuel : nat, (n <= fuel)%nat ->
    exists caller' : arrays,
      @Correlations.corr (fixed_library []) fuel
        (mk_arrays [[1; 1]; [6; 6]] (Some [[0; 1]; [0; 1]]) None)
        [10; 10] 1 None (Some 1) (Some 4%nat) None None
      = Some (caller', Raise (ValueError zero_pairs_message))
      /\ @Cloud.sdf (fixed_library []) fuel
           (mk_arrays [[1; 1]; [6; 6]] (Some [[0; 1]; [0; 1]]) None)
           [10; 10] None (Some 1) 4 None None
         = Some (caller', Raise (ValueError bins_message)).
Proof.
  apply (C7_zero_pairs (fixed_library [])
           (mk_arrays [[1; 1]; [6; 6]] (Some [[0; 1]; [0; 1]]) None)
           [10; 10] 1 None (Some 1) (Some 4%nat) None None 4).
  - reflexivity.
  - constructor; [lra | constructor; [lra | constructor]].
  - reflexivity.
  - reflexivity.
Defined.

(** ** Refused calls, accepted calls and calls that never return *)

(** A call that fails one of the shape tests is refused before the
    wrap: it returns for every budget and every box, raises the error of
    the first test that fails, and leaves the caller's arrays as they
    were. *)
Theorem refused_call_leaves_arrays :
  forall (L : Library) (fuel : nat) (caller : arrays) (boxsize : vec)
         (z : Z) (rmin rmax : option R) (nr nphi ntheta : option nat)
         (nr' : nat),
    (dimension_ok caller = false ->
     Correlations.corr fuel caller boxsize z rmin rmax nr nphi ntheta
     = Some (caller, Raise (ValueError dimension_message))
     /\ Cloud.sdf fuel caller boxsize rmin rmax nr' nphi ntheta
        = Some (caller, Raise (ValueError dimension_message)))
    /\ (dimension_ok caller = true -> orientations_ok caller = false ->
        Correlations.corr fuel caller boxsize z rmin rmax nr nphi ntheta
        = Some (caller, Raise (ValueError
                  "Shape of orientations must match positions array"))
        /\ Cloud.sdf fuel caller boxsize rmin rmax nr' nphi ntheta
           = Some (caller, Raise (ValueError
                "Shape of orientations array must match positions array")))
    /\ (dimension_ok caller = true -> orientations_ok caller = true ->
        weights_ok caller = false ->
        Correlations.corr fuel caller boxsize z rmin rmax nr nphi ntheta
        = Some (caller, Raise (ValueError
                  "Shape of weights must match positions array"))).
Proof.
  intros L fuel caller boxsize z rmin rmax nr nphi ntheta nr'.
  pose proof (corr_checks L fuel caller boxsize z rmin rmax nr nphi ntheta)
    as [C1 [C2 [C3 _]]].
  pose proof (sdf_checks L fuel caller boxsize rmin rmax nr' nphi ntheta)
    as [S1 [S2 _]].
  repeat split; auto.
Qed.

Lemma refused_call_leaves_arrays_witness :
  @Correlations.corr (fixed_library []) 0
    (mk_arrays [[-1; 2; 3; 4]] None None) [0; 0; 0; 0] 1
    None None None None None
  = Some (mk_arrays [[-1; 2; 3; 4]] None None,
          Raise (ValueError dimension_message))
  /\ @Cloud.sdf (fixed_library []) 0
       (mk_arrays [[-1; 2; 3; 4]] None None) [0; 0; 0; 0]
       None None 100 None None
     = Some (mk_arrays [[-1; 2; 3; 4]] None None,
             Raise (ValueError dimension_message)).
Proof.
  apply (refused_call_leaves_arrays (fixed_library []) 0
           (mk_arrays [[-1; 2; 3; 4]] None None) [0; 0; 0; 0] 1
           None None None None None 100).
  reflexivity.
Defined.

(** A call that passes the shape tests always writes the wrapped
    coordinates into the caller's positions array, whether it then
    returns a grid or raises. *)
Theorem accepted_call_wraps_positions :
  forall (L : Library) (caller : arrays) (boxsize : vec)
         (z : Z) (rmin rmax : option R) (nr nphi ntheta : option nat)
         (nr' : nat),
    dimension_ok caller = true ->
    orientations_ok caller = true ->
    positive_sides boxsize ->
    exists (n : nat) (coords : list vec),
      Forall2 (wrapped boxsize) (positions caller) coords
      /\ forall fuel : nat, (n <= fuel)%nat ->
           (weights_ok caller = true ->
            exists out,
              Correlations.corr fuel caller boxsize z rmin rmax
                                nr nphi ntheta
              = Some (set_positions caller coords, out))
           /\ exists out,
                Cloud.sdf fuel caller boxsize rmin rmax nr' nphi ntheta
                = Some (set_positions caller coords, out).
Proof.
  intros L caller boxsize z rmin rmax nr nphi ntheta nr' Hd Ho Hpos.
  destruct (_impose_pbc_enough (positions caller) boxsize Hpos) as [n Hn].
  destruct (Hn n (Nat.le_refl n)) as [coords [E _]].
  exists n, coords; split; [now apply Forall2_wrapped with n|].
  intros fuel Hfuel.
  pose proof (_impose_pbc_more _ _ _ _ _ E Hfuel) as E'.
  pose proof (corr_checks L fuel caller boxsize z rmin rmax nr nphi ntheta)
    as [_ [_ [_ [_ C]]]].
  pose proof (sdf_checks L fuel caller boxsize rmin rmax nr' nphi ntheta)
    as [_ [_ [_ S]]].
  split; [intros Hw|]; auto.
Qed.

Lemma accepted_call_wraps_positions_witness :
  exists (n : nat) (coords : list vec),
    Forall2 (wrapped [10; 10]) [[-1; 5]; [3; 5]] coords
    /\ forall fuel : nat, (n <= fuel)%nat ->
         (weights_ok (mk_arrays [[-1; 5]; [3; 5]] None None) = true ->
          exists out,
            @Correlations.corr (fixed_library []) fuel
              (mk_arrays [[-1; 5]; [3; 5]] None None) [10; 10] 1
              None None None None None
            = Some (set_positions (mk_arrays [[-1; 5]; [3; 5]] None None)
                                  coords, out))
         /\ exists out,
              @Cloud.sdf (fixed_library []) fuel
                (mk_arrays [[-1; 5]; [3; 5]] None None) [10; 10]
                None None 100 None None
              = Some (set_positions (mk_arrays [[-1; 5]; [3; 5]] None None)
                                    coords, out).
Proof.
  apply (accepted_call_wraps_positions (fixed_library [])
           (mk_arrays [[-1; 5]; [3; 5]] None None) [10; 10] 1
           None None None None None 100).
  - reflexivity.
  - reflexivity.
  - constructor; [lra | constructor; [lra | constructor]].
Defined.

(** With a box side that is zero or negative the wrap of a component
    on that axis never stops (unless side and component are both zero),
    so a call that passes the shape tests never returns. *)
Theorem call_never_returns_on_bad_side :
  forall (L : Library) (caller : arrays) (boxsize p : vec) (i : nat)
         (z : Z) (rmin rmax : option R) (nr nphi ntheta : option nat)
         (nr' : nat),
    dimension_ok caller = true ->
    orientations_ok caller = true ->
    In p (positions caller) ->
    (i < length boxsize)%nat -> (i < length p)%nat ->
    at_ boxsize i <= 0 ->
    at_ p i <> 0 \/ at_ boxsize i <> 0 ->
    forall fuel : nat,
      _impose_pbc fuel (positions caller) boxsize = None
      /\ (weights_ok caller = true ->
          Correlations.corr fuel caller boxsize z rmin rmax nr nphi ntheta
          = None)
      /\ Cloud.sdf fuel caller boxsize rmin rmax nr' nphi ntheta = None.
Proof.
  intros L caller boxsize p i z rmin rmax nr nphi ntheta nr'
         Hd Ho Hp Hb Hi Hs Hnz fuel.
  pose proof (_impose_pbc_never _ _ _ _ Hp Hb Hi Hs Hnz fuel) as E.
  pose proof (corr_checks L fuel caller boxsize z rmin rmax nr nphi ntheta)
    as [_ [_ [_ [C _]]]].
  pose proof (sdf_checks L fuel caller boxsize rmin rmax nr' nphi ntheta)
    as [_ [_ [S _]]].
  repeat split; auto.
Qed.

Lemma call_never_returns_on_bad_side_witness :
  _impose_pbc 1000 [[-1; 5]; [3; 5]] [0; 10] = None
  /\ (weights_ok (mk_arrays [[-1; 5]; [3; 5]] None None) = true ->
      @Correlations.corr (fixed_library []) 1000
        (mk_arrays [[-1; 5]; [3; 5]] None None) [0; 10] 1
        None None None None None
      = None)
  /\ @Cloud.sdf (fixed_library []) 1000
       (mk_arrays [[-1; 5]; [3; 5]] None None) [0; 10]
       None None 100 None None
     = None.
Proof.
  apply (call_never_returns_on_bad_side (fixed_library [])
           (mk_arrays [[-1; 5]; [3; 5]] None None) [0; 10] [-1; 5] 0 1
           None None None None None 100).
  - reflexivity.
  - reflexivity.
  - simpl; now left.
  - simpl; lia.
  - simpl; lia.
  - unfold at_; simpl; lra.
  - left; unfold at_; simpl; lra.
Defined.

(** ** The minimum image *)

Lemma length_vsub (a b : vec) :
  length (vsub a b) = Nat.min (length a) (length b).
Proof.
  revert b; induction a as [|x a IH]; intros [|y b]; simpl; trivial.
  now rewrite IH.
Qed.

Lemma nth_vsub (a b : vec) (i : nat) :
  (i < length a)%nat -> (i < length b)%nat ->
  at_ (vsub a b) i = at_ a i - at_ b i.
Proof.
  unfold at_; revert b i; induction a as [|x a IH]; intros [|y b] [|i];
    simpl; intros Ha Hb; try lia; [reflexivity|].
  apply IH; lia.
Qed.

Lemma fold_dot_le (a b : vec) (l : list nat) :
  (forall i, In i l -> Rabs (nth i a 0) <= Rabs (nth i b 0)) ->
  forall acc acc' : R, acc <= acc' ->
    fold_left (fun dot i => dot + nth i a 0 * nth i a 0) l acc
    <= fold_left (fun dot i => dot + nth i b 0 * nth i b 0) l acc'.
Proof.
  induction l as [|i l IH]; intros Hall acc acc' Hacc; simpl; [exact Hacc|].
  apply IH; [intros k Hk; apply Hall; now right|].
  pose proof (Rsqr_le_abs_1 _ _ (Hall i (or_introl eq_refl))) as Hs.
  unfold Rsqr in Hs; lra.
Qed.

(** A vector whose components are nowhere larger is not longer. *)
Lemma _norm_le (a b : vec) :
  length a = length b ->
  (forall i, (i < length a)%nat -> Rabs (at_ a i) <= Rabs (at_ b i)) ->
  _norm a <= _norm b.
Proof.
  intros Hlen Hall; unfold _norm; simpl.
  apply sqrt_le_1_alt; unfold _dot; rewrite <- Hlen.
  apply fold_dot_le; [|simpl; lra].
  intros i Hi; apply in_seq in Hi; apply Hall; lia.
Qed.

Lemma fold_dot_ge (a : vec) (l : list nat) :
  forall acc : R,
    acc <= fold_left (fun dot i => dot + nth i a 0 * nth i a 0) l acc
    /\ forall i, In i l ->
         acc + nth i a 0 * nth i a 0
         <= fold_left (fun dot i => dot + nth i a 0 * nth i a 0) l acc.
Proof.
  induction l as [|k l IH]; intros acc; simpl; [split; [lra | intros i []]|].
  destruct (IH (acc + nth k a 0 * nth k a 0)) as [H1 H2].
  pose proof (Rle_0_sqr (nth k a 0)) as Hk; unfold Rsqr in Hk.
  split; [lra|].
  intros i [<- | Hi]; [exact H1|].
  specialize (H2 i Hi); lra.
Qed.

(** No component is longer than the vector. *)
Lemma component_le_norm (a : vec) (i : nat) :
  (i < length a)%nat -> Rabs (at_ a i) <= _norm a.
Proof.
  intros Hi; unfold _norm; simpl.
  rewrite <- sqrt_Rsqr_abs.
  apply sqrt_le_1_alt; unfold _dot, at_, Rsqr.
  destruct (fold_dot_ge a (seq 0 (length a)) 0) as [_ H].
  specialize (H i ltac:(apply in_seq; lia)); simpl in *; lra.
Qed.

(** On one axis, with target and source inside the box, the candidate
    [_closest_point1d] picks is at least as near as every periodic
    image of the source, and at most half a side away. *)
Lemma nearest_of_three (side t s : R) :
  0 <= t <= side -> 0 <= s <= side ->
  let chosen := fst (_closest_point1d t [s; s - side; s + side]) in
  Rabs (chosen - t) <= side / 2
  /\ forall m : Z, Rabs (chosen - t) <= Rabs (s + IZR m * side - t).
Proof.
  intros Ht Hs chosen.
  destruct (_closest_point1d_spec t [s; s - side; s + side])
    as [_ Hmin]; [discriminate|].
  fold chosen in Hmin.
  pose proof (Hmin s (or_introl eq_refl)) as H0.
  pose proof (Hmin (s - side) (or_intror (or_introl eq_refl))) as Hm.
  pose proof (Hmin (s + side) (or_intror (or_intror (or_introl eq_refl))))
    as Hp.
  clear Hmin; revert H0 Hm Hp.
  generalize (Rabs (chosen - t)); intros d H0 Hm Hp.
  unfold Rabs in H0, Hm, Hp.
  destruct (Rcase_abs (s - t)), (Rcase_abs (s - side - t)),
    (Rcase_abs (s + side - t)); split; try lra;
    intros m; unfold Rabs; destruct (Rcase_abs (s + IZR m * side - t));
    (destruct (Z_lt_le_dec m (-1)) as [Hlo | Hlo];
     [apply IZR_lt in Hlo; assert (IZR m <= -2)
        by (apply IZR_le; apply lt_IZR in Hlo; lia); nra|]);
    (destruct (Z_lt_le_dec 1 m) as [Hhi | Hhi];
     [assert (2 <= IZR m) by (apply IZR_le; lia); nra|]);
    assert (Hcase : m = (-1)%Z \/ m = 0%Z \/ m = 1%Z) by lia;
    destruct Hcase as [-> | [-> | ->]]; lra.
Qed.

Lemma length_closest_image (target source boxsize : vec) :
  length (_closest_image target source boxsize) = length target.
Proof. unfold _closest_image; now rewrite length_map, length_seq. Qed.

(** The correction by the closest image never makes a displacement
    longer than the raw difference of the two positions. *)
Lemma displacement_le_raw (r_i r_j boxsize : vec) (rmax : R) :
  length r_j = length r_i ->
  _norm (displacement r_i r_j boxsize rmax) <= _norm (vsub r_j r_i).
Proof.
  intros Hlen; unfold displacement.
  destruct (Rge_dec _ rmax) as [_ | _]; [|apply Rle_refl].
  apply _norm_le.
  - now rewrite !length_vsub, length_closest_image, Hlen.
  - intros k Hk.
    rewrite length_vsub, length_closest_image, Nat.min_id in Hk.
    rewrite !nth_vsub
      by (rewrite ?length_closest_image, ?Hlen; assumption).
    rewrite _closest_image_at by assumption.
    apply _closest_point1d_spec; [discriminate | now left].
Qed.

Lemma closest_image_axis (r_i r_j boxsize : vec) (k : nat) :
  within boxsize r_i -> within boxsize r_j ->
  length boxsize = length r_i -> length r_j = length r_i ->
  (k < length r_i)%nat ->
  let image := _closest_image r_i r_j boxsize in
  Rabs (at_ image k - at_ r_i k) <= at_ boxsize k / 2
  /\ forall m : Z,
       Rabs (at_ image k - at_ r_i k)
       <= Rabs (at_ r_j k + IZR m * at_ boxsize k - at_ r_i k).
Proof.
  intros Hi Hj Hb Hlen Hk image; unfold image.
  rewrite _closest_image_at by assumption.
  apply nearest_of_three; [apply Hi | apply Hj]; lia.
Qed.

Lemma closest_image_norm (r_i r_j boxsize other : vec) :
  length boxsize = length r_i ->
  length r_j = length r_i ->
  within boxsize r_i ->
  within boxsize r_j ->
  periodic_image boxsize r_j other ->
  _norm (vsub (_closest_image r_i r_j boxsize) r_i)
  <= _norm (vsub other r_i).
Proof.
  intros Hb Hlen Hi Hj [Ho Himg].
  apply _norm_le.
  - now rewrite !length_vsub, length_closest_image, Ho, Hlen.
  - intros k Hk.
    rewrite length_vsub, length_closest_image, Nat.min_id in Hk.
    rewrite !nth_vsub
      by (rewrite ?length_closest_image, ?Ho, ?Hlen; assumption).
    destruct (Himg k ltac:(lia)) as [m ->].
    now apply closest_image_axis.
Qed.

(** With both particles inside the box, the image [_closest_image]
    builds axis by axis is the nearest of all periodic images of the
    source, in the norm [_norm]; each of its components is at most half
    a side away from the target. *)
Theorem closest_image_is_nearest_image :
  forall (r_i r_j boxsize other : vec),
    length boxsize = length r_i ->
    length r_j = length r_i ->
    within boxsize r_i ->
    within boxsize r_j ->
    periodic_image boxsize r_j other ->
    let image := _closest_image r_i r_j boxsize in
    _norm (vsub image r_i) <= _norm (vsub other r_i)
    /\ forall k : nat, (k < length r_i)%nat ->
         Rabs (at_ image k - at_ r_i k) <= at_ boxsize k / 2.
Proof.
  intros r_i r_j boxsize other Hb Hlen Hi Hj Himg image.
  split; [now apply closest_image_norm|].
  intros k Hk; now apply closest_image_axis.
Qed.

Lemma inside_10_1_5 : within [10; 10] [1; 5].
Proof.
  intros [|[|i]] Hb Hp; unfold at_; simpl in *; try lia; lra.
Qed.

Lemma inside_10_9_5 : within [10; 10] [9; 5].
Proof.
  intros [|[|i]] Hb Hp; unfold at_; simpl in *; try lia; lra.
Qed.

Lemma image_19_minus5 : periodic_image [10; 10] [9; 5] [19; -5].
Proof.
  split; [reflexivity|].
  intros [|[|k]] Hk; unfold at_; simpl in *; try lia.
  - exists 1%Z; lra.
  - exists (-1)%Z; lra.
Qed.

Lemma closest_image_is_nearest_image_witness :
  let image := _closest_image [1; 5] [9; 5] [10; 10] in
  _norm (vsub image [1; 5]) <= _norm (vsub [19; -5] [1; 5])
  /\ forall k : nat, (k < length [1; 5])%nat ->
       Rabs (at_ image k - at_ [1; 5] k) <= at_ [10; 10] k / 2.
Proof.
  exact (closest_image_is_nearest_image [1; 5] [9; 5] [10; 10] [19; -5]
           eq_refl eq_refl inside_10_1_5 inside_10_9_5 image_19_minus5).
Defined.

(** With both particles inside the box and a cutoff of at most half of
    every side, no periodic image of the source is nearer to the target
    than [displacement] says. *)
Lemma displacement_le_image (r_i r_j boxsize other : vec) (rmax : R) :
  length boxsize = length r_i ->
  length r_j = length r_i ->
  within boxsize r_i ->
  within boxsize r_j ->
  (forall k : nat, (k < length r_i)%nat -> rmax <= at_ boxsize k / 2) ->
  periodic_image boxsize r_j other ->
  _norm (displacement r_i r_j boxsize rmax) <= _norm (vsub other r_i).
Proof.
  intros Hb Hlen Hi Hj Hhalf [Ho Himg].
  unfold displacement.
  destruct (Rge_dec (_norm (vsub r_j r_i)) rmax) as [_ | Hlt].
  - apply closest_image_norm; trivial; now split.
  - apply _norm_le; [now rewrite !length_vsub, Ho|].
    intros k Hk.
    rewrite length_vsub, Hlen, Nat.min_id in Hk.
    rewrite !nth_vsub by (rewrite ?Ho, ?Hlen; assumption).
    destruct (Himg k ltac:(lia)) as [m ->].
    assert (Hk' : (k < length (vsub r_j r_i))%nat)
      by (rewrite length_vsub, Hlen, Nat.min_id; assumption).
    pose proof (component_le_norm (vsub r_j r_i) k Hk') as Hc.
    rewrite nth_vsub in Hc by (rewrite ?Hlen; assumption).
    specialize (Hhalf k Hk).
    assert (Hsmall : Rabs (at_ r_j k - at_ r_i k) < at_ boxsize k / 2)
      by lra.
    clear Hc Hlt.
    destruct (Z.eq_dec m 0) as [-> | Hm];
      [replace (at_ r_j k + 0 * at_ boxsize k) with (at_ r_j k) by ring;
       apply Rle_refl|].
    assert (Hside : 0 <= at_ boxsize k)
      by (destruct (Hi k ltac:(lia) Hk); lra).
    revert Hsmall; unfold Rabs.
    destruct (Rcase_abs (at_ r_j k - at_ r_i k)),
      (Rcase_abs (at_ r_j k + IZR m * at_ boxsize k - at_ r_i k));
      intros Hsmall;
      (destruct (Z_lt_le_dec m 0) as [Hneg | Hpos];
       [assert (IZR m <= -1) by (apply IZR_le; lia)
       |assert (1 <= IZR m) by (apply IZR_le; lia)]); nra.
Qed.

(** ** Rotations keep lengths *)

Lemma last_nth (p : vec) : last p 0 = at_ p (length p - 1).
Proof.
  unfold at_; induction p as [|x p IH]; [reflexivity|].
  destruct p as [|y p]; [reflexivity|].
  change (last (x :: y :: p) 0) with (last (y :: p) 0).
  rewrite IH; simpl; now rewrite Nat.sub_0_r.
Qed.

Lemma last_map_Some (f : R -> R) (p : vec) :
  p <> [] -> last (map (fun c => Some (f c)) p) (Some 0) = Some (f (last p 0)).
Proof.
  induction p as [|x p IH]; [congruence | intros _].
  destruct p as [|y p]; [reflexivity|].
  change (last (map (fun c => Some (f c)) (x :: y :: p)) (Some 0))
    with (last (map (fun c => Some (f c)) (y :: p)) (Some 0)).
  rewrite IH by discriminate; reflexivity.
Qed.

(** An orientation that is not the zero vector is normalised to
    numbers, and its last component then lies between -1 and 1. *)
Lemma normalised_nonzero (p : vec) :
  0 < _norm p ->
  normalised p = map (fun c => Some (c / _norm p)) p
  /\ last (normalised p) (Some 0) = Some (last p 0 / _norm p)
  /\ -1 <= last p 0 / _norm p <= 1.
Proof.
  intros Hn.
  assert (E : normalised p = map (fun c => Some (c / _norm p)) p).
  { unfold normalised; rewrite _norm_Some, map_map.
    apply map_ext; intros c; unfold fl_div.
    destruct (Req_dec_T (_norm p) 0); [lra | reflexivity]. }
  assert (Hne : p <> []).
  { intros ->; unfold _norm, _dot in Hn; simpl in Hn.
    rewrite sqrt_0 in Hn; lra. }
  split; [exact E|]; split.
  - rewrite E; now apply (last_map_Some (fun c => c / _norm p)).
  - rewrite last_nth.
    assert (Hi : (length p - 1 < length p)%nat)
      by (destruct p; [congruence | simpl; lia]).
    pose proof (component_le_norm p _ Hi) as Hc.
    assert (Hc' : - _norm p <= at_ p (length p - 1) <= _norm p)
      by (revert Hc; unfold Rabs; destruct (Rcase_abs _); lra).
    clear Hc.
    split.
    + apply Rmult_le_reg_r with (_norm p); [lra|].
      unfold Rdiv; rewrite Rmult_assoc, Rinv_l by lra; lra.
    + apply Rmult_le_reg_r with (_norm p); [lra|].
      unfold Rdiv; rewrite Rmult_assoc, Rinv_l by lra; lra.
Qed.

Lemma sin_cos_acos (c : R) :
  -1 <= c <= 1 ->
  sin (acos c) * sin (acos c) + c * c = 1.
Proof.
  intros Hc.
  pose proof (sin2_cos2 (acos c)) as H.
  rewrite cos_acos in H by lra.
  unfold Rsqr in H; lra.
Qed.

(** The matrices of [particle_cloud.py], written out for an
    orientation that is not the zero vector. *)
Lemma cloud_rotation_2 (p : vec) :
  0 < _norm p ->
  let c := last p 0 / _norm p in
  Cloud.rotation 2 (normalised p)
  = [[Some c; Some (- sin (acos c))]; [Some (sin (acos c)); Some c]]
  /\ sin (acos c) * sin (acos c) + c * c = 1.
Proof.
  intros Hn c.
  destruct (normalised_nonzero p Hn) as [_ [Hlast Hc]]; fold c in Hlast, Hc.
  split; [|now apply sin_cos_acos].
  unfold Cloud.rotation; rewrite Hlast; unfold fl_arccos.
  destruct (Rle_dec (-1) c); [|lra].
  destruct (Rle_dec c 1); [|lra].
  cbn [fl_cos fl_sin fl_opp fl_lift1 Nat.eqb].
  now rewrite cos_acos by lra.
Qed.

Lemma cloud_rotation_3 (p : vec) :
  0 < _norm p ->
  let c := last p 0 / _norm p in
  Cloud.rotation 3 (normalised p)
  = [[Some c; Some (- sin (acos c)); Some 0];
     [Some (sin (acos c)); Some c; Some 0];
     [Some 0; Some 0; Some 1]]
  /\ sin (acos c) * sin (acos c) + c * c = 1.
Proof.
  intros Hn c.
  destruct (normalised_nonzero p Hn) as [_ [Hlast Hc]]; fold c in Hlast, Hc.
  split; [|now apply sin_cos_acos].
  unfold Cloud.rotation; rewrite Hlast; unfold fl_arccos.
  destruct (Rle_dec (-1) c); [|lra].
  destruct (Rle_dec c 1); [|lra].
  cbn [fl_cos fl_sin fl_opp fl_lift1 Nat.eqb].
  now rewrite cos_acos by lra.
Qed.

Lemma norm_of_squares_2 (X Y x y : R) :
  X * X + Y * Y = x * x + y * y ->
  _norm [Some X; Some Y] = Some (_norm [x; y]).
Proof.
  intros E.
  change [Some X; Some Y] with (map Some [X; Y]).
  rewrite _norm_Some; f_equal.
  unfold _norm, _dot; simpl; f_equal; lra.
Qed.

Lemma norm_of_squares (X Y Z x y z : R) :
  X * X + Y * Y + Z * Z = x * x + y * y + z * z ->
  _norm [Some X; Some Y; Some Z] = Some (_norm [x; y; z]).
Proof.
  intros E.
  change [Some X; Some Y; Some Z] with (map Some [X; Y; Z]).
  rewrite _norm_Some; f_equal.
  unfold _norm, _dot; simpl; f_equal; lra.
Qed.

Lemma turn_keeps_length_2 (c s x y : R) :
  s * s + c * c = 1 ->
  _norm (_matvec [[Some c; Some (- s)]; [Some s; Some c]] [Some x; Some y])
  = Some (_norm [x; y]).
Proof.
  intros Hsc; unfold _matvec, _dot; simpl.
  apply norm_of_squares_2; nsatz.
Qed.

Lemma turn_keeps_length_3 (c s x y z : R) :
  s * s + c * c = 1 ->
  _norm (_matvec [[Some c; Some (- s); Some 0];
                  [Some s; Some c; Some 0];
                  [Some 0; Some 0; Some 1]]
                 [Some x; Some y; Some z])
  = Some (_norm [x; y; z]).
Proof.
  intros Hsc; unfold _matvec, _dot; simpl.
  apply norm_of_squares; nsatz.
Qed.

(** In two dimensions both modules turn every displacement by the
    same matrix, for every orientation that is not the zero vector;
    the displacement keeps its length. *)
Theorem planar_rotation_keeps_length :
  forall (p : vec) (x y : R),
    0 < _norm p ->
    let R_corr := Correlations._rotation_matrix (normalised p) in
    let R_cloud := Cloud.rotation 2 (normalised p) in
    (length p = 2%nat -> R_corr = R_cloud)
    /\ (length p = 2%nat ->
        _norm (_matvec R_corr [Some x; Some y]) = Some (_norm [x; y]))
    /\ _norm (_matvec R_cloud [Some x; Some y]) = Some (_norm [x; y]).
Proof.
  intros p x y Hn R_corr R_cloud.
  destruct (normalised_nonzero p Hn) as [E [Hlast Hc]].
  destruct (cloud_rotation_2 p Hn) as [Hcloud Hsc].
  fold R_cloud in Hcloud.
  assert (Hlen : length (normalised p) = length p)
    by (rewrite E; apply length_map).
  assert (Hcorr : length p = 2%nat -> R_corr = R_cloud).
  { intros H2; rewrite Hcloud.
    unfold R_corr, Correlations._rotation_matrix.
    rewrite Hlen, H2, Hlast; unfold fl_arccos.
    destruct (Rle_dec (-1) (last p 0 / _norm p)); [|lra].
    destruct (Rle_dec (last p 0 / _norm p) 1); [|lra].
    reflexivity. }
  assert (Hkeep : _norm (_matvec R_cloud [Some x; Some y])
                  = Some (_norm [x; y]))
    by (rewrite Hcloud; now apply turn_keeps_length_2).
  split; [exact Hcorr|].
  split; [intros H2; now rewrite (Hcorr H2) | exact Hkeep].
Qed.

(** Rodrigues' matrix for a unit orientation that is not parallel to
    the z axis: the image of a vector has the same sum of squares. *)
Lemma rodrigues_unit_image (a b c x y z : R) :
  a * a + b * b + c * c = 1 ->
  0 < a * a + b * b ->
  exists X Y Z : R,
    _matvec (Correlations._rotation_matrix [Some a; Some b; Some c])
            [Some x; Some y; Some z]
    = [Some X; Some Y; Some Z]
    /\ X * X + Y * Y + Z * Z = x * x + y * y + z * z.
Proof.
  intros Hunit Hpos.
  assert (Hc : -1 <= c <= 1) by (split; nra).
  set (s := sqrt (a * a + b * b)).
  assert (Hs : s * s = a * a + b * b) by (apply sqrt_sqrt; lra).
  assert (Hs0 : s <> 0) by (intros E; rewrite E in Hs; lra).
  assert (Hsin : sin (acos c) = s).
  { rewrite sin_acos by lra; unfold s; f_equal; unfold Rsqr; lra. }
  unfold Correlations._rotation_matrix; cbn [length Nat.eqb last map].
  unfold _norm at 1 2 3; unfold _dot at 1 2 3; unfold fat; simpl.
  replace (0 + b * b + - a * - a + 0 * 0) with (a * a + b * b) by ring.
  fold s.
  destruct (Rlt_dec (a * a + b * b) 0) as [Hn | _]; [lra|].
  destruct (Req_dec_T s 0) as [E | _]; [contradiction|].
  destruct (Rle_dec (-1) c) as [_ | Hn]; [|lra].
  destruct (Rle_dec c 1) as [_ | Hn]; [|lra].
  simpl; rewrite Hsin.
  clearbody s; clear Hsin.
  assert (Hk0 : exists k0, b / s = k0 /\ k0 * s = b)
    by (exists (b / s); split; [reflexivity | field; assumption]).
  assert (Hk1 : exists k1, - a / s = k1 /\ k1 * s = - a)
    by (exists (- a / s); split; [reflexivity | field; assumption]).
  destruct Hk0 as [k0 [E0 Hk0]]; destruct Hk1 as [k1 [E1 Hk1]].
  rewrite E0, E1.
  replace (0 / s) with 0 by (field; assumption).
  assert (Hk : k0 * k0 + k1 * k1 = 1).
  { apply Rmult_eq_reg_r with (s * s); [|nra].
    transitivity ((k0 * s) * (k0 * s) + (k1 * s) * (k1 * s)); [ring|].
    rewrite Hk0, Hk1, Hs; ring. }
  assert (Hsc : s * s + c * c = 1) by lra.
  unfold _matvec, _matmul, _dot, column, mat_add, mat_scale; simpl.
  do 3 eexists; split; [reflexivity|].
  clear - Hk Hsc.
  nsatz.
Qed.

Lemma norm3_sqr (a b c : R) :
  _norm [a; b; c] * _norm [a; b; c] = a * a + b * b + c * c.
Proof.
  unfold _norm, _dot; simpl.
  rewrite sqrt_sqrt; [ring | nra].
Qed.


Lemma norm3_positive (a b c : R) :
  0 < a * a + b * b -> 0 < _norm [a; b; c].
Proof.
  intros Hab; unfold _norm, _dot; simpl.
  apply sqrt_lt_R0; nra.
Qed.

(** The same for every orientation that is not parallel to the z
    axis, of whatever length. *)
Lemma rodrigues_image (a b c x y z : R) :
  0 < a * a + b * b ->
  exists X Y Z : R,
    _matvec (Correlations._rotation_matrix (normalised [a; b; c]))
            [Some x; Some y; Some z]
    = [Some X; Some Y; Some Z]
    /\ X * X + Y * Y + Z * Z = x * x + y * y + z * z.
Proof.
  intros Hab.
  pose proof (norm3_positive a b c Hab) as Hn.
  destruct (normalised_nonzero [a; b; c] Hn) as [E _].
  pose proof (norm3_sqr a b c) as Hsq.
  set (n := _norm [a; b; c]) in *.
  assert (Hn0 : n <> 0) by lra.
  assert (Hunit : a / n * (a / n) + b / n * (b / n) + c / n * (c / n) = 1).
  { replace (a / n * (a / n) + b / n * (b / n) + c / n * (c / n))
      with ((a * a + b * b + c * c) / (n * n)) by (field; assumption).
    rewrite <- Hsq; field; assumption. }
  assert (Hpos : 0 < a / n * (a / n) + b / n * (b / n)).
  { replace (a / n * (a / n) + b / n * (b / n))
      with ((a * a + b * b) * (/ n * / n)) by (field; assumption).
    apply Rmult_lt_0_compat; [assumption|].
    apply Rmult_lt_0_compat; apply Rinv_0_lt_compat; lra. }
  rewrite E; cbn [map].
  now apply rodrigues_unit_image.
Qed.

(** In three dimensions, for every orientation that is not the zero
    vector, the matrix of [particle_cloud.py] keeps the length and the
    z component of every displacement; the matrix of
    [particle_correlations.py] keeps the length whenever the orientation
    is not parallel to the z axis. *)
Theorem spatial_rotation_keeps_length :
  forall (a b c x y z : R),
    0 < _norm [a; b; c] ->
    let p_i := normalised [a; b; c] in
    let v := [Some x; Some y; Some z] in
    _norm (_matvec (Cloud.rotation 3 p_i) v) = Some (_norm [x; y; z])
    /\ fat (_matvec (Cloud.rotation 3 p_i) v) 2 = Some z
    /\ (0 < a * a + b * b ->
        _norm (_matvec (Correlations._rotation_matrix p_i) v)
        = Some (_norm [x; y; z])).
Proof.
  intros a b c x y z Hn p_i v.
  destruct (normalised_nonzero [a; b; c] Hn) as [E [Hlast Hc]].
  pose proof (norm3_sqr a b c) as Hsq.
  set (n := _norm [a; b; c]) in *.
  cbn [last] in Hlast, Hc.
  destruct (cloud_rotation_3 [a; b; c] Hn) as [Hcloud Hsc].
  cbn [last] in Hcloud, Hsc; fold n in Hcloud, Hsc; fold p_i in Hcloud.
  split; [|split].
  - rewrite Hcloud; now apply turn_keeps_length_3.
  - rewrite Hcloud; unfold v, _matvec, _dot, fat; simpl.
    f_equal; ring.
  - intros Hab.
    destruct (rodrigues_image a b c x y z Hab) as [X [Y [Z [EM Esq]]]].
    unfold p_i, v; rewrite EM.
    now apply norm_of_squares.
Qed.

Lemma spatial_rotation_keeps_length_witness :
  let p_i := normalised [3; 0; 4] in
  let v := [Some 1; Some 2; Some 3] in
  _norm (_matvec (Cloud.rotation 3 p_i) v) = Some (_norm [1; 2; 3])
  /\ fat (_matvec (Cloud.rotation 3 p_i) v) 2 = Some 3
  /\ (0 < 3 * 3 + 0 * 0 ->
      _norm (_matvec (Correlations._rotation_matrix p_i) v)
      = Some (_norm [1; 2; 3])).
Proof.
  apply (spatial_rotation_keeps_length 3 0 4 1 2 3).
  unfold _norm, _dot; simpl.
  apply sqrt_lt_R0; lra.
Defined.

Lemma planar_rotation_keeps_length_witness :
  let R_corr := Correlations._rotation_matrix (normalised [-3; 4]) in
  let R_cloud := Cloud.rotation 2 (normalised [-3; 4]) in
  (length [-3; 4] = 2%nat -> R_corr = R_cloud)
  /\ (length [-3; 4] = 2%nat ->
      _norm (_matvec R_corr [Some 1; Some 2]) = Some (_norm [1; 2]))
  /\ _norm (_matvec R_cloud [Some 1; Some 2]) = Some (_norm [1; 2]).
Proof.
  apply (planar_rotation_keeps_length [-3; 4] 1 2).
  unfold _norm, _dot; simpl.
  apply sqrt_lt_R0; lra.
Defined.

(** ** What an orientation changes in [particle_cloud.py] *)

Lemma length_displacement (r_i r_j boxsize : vec) (rmax : R) :
  length r_j = length r_i ->
  length (displacement r_i r_j boxsize rmax) = length r_i.
Proof.
  intros Hlen; unfold displacement.
  destruct (Rge_dec _ rmax);
    rewrite length_vsub, ?length_closest_image, ?Hlen; apply Nat.min_id.
Qed.

(** The rotated displacement of [particle_cloud.py] has the length,
    and in three dimensions the z component, of the displacement
    itself. *)
Lemma cloud_rotated (ndim : nat) (p d : vec) :
  ndim = 2%nat \/ ndim = 3%nat ->
  length d = ndim ->
  0 < _norm p ->
  let turned := _matvec (Cloud.rotation ndim (normalised p)) (map Some d) in
  linalg_norm turned = linalg_norm (map Some d)
  /\ fat turned 2 = fat (map Some d) 2.
Proof.
  intros Hd Hlen Hn turned; unfold linalg_norm, turned.
  rewrite _norm_Some.
  destruct Hd as [-> | ->].
  - destruct d as [|x [|y [|? ?]]]; try discriminate.
    destruct (cloud_rotation_2 p Hn) as [-> Hsc].
    split; [now apply turn_keeps_length_2 | reflexivity].
  - destruct d as [|x [|y [|z [|? ?]]]]; try discriminate.
    destruct (cloud_rotation_3 p Hn) as [-> Hsc].
    split; [now apply turn_keeps_length_3|].
    unfold _matvec, _dot, fat; simpl; f_equal; ring.
Qed.

(** ** When Rodrigues' matrix is a matrix of numbers *)


(** When the rotation axis has length zero, or is not a number, no
    entry of the matrix is a number. *)
Lemma rotation_matrix_degenerate (p0 p1 p2 : fl) :
  _norm [p1; fl_opp p0; Some 0] = Some 0
  \/ _norm [p1; fl_opp p0; Some 0] = None ->
  Correlations._rotation_matrix [p0; p1; p2] = all_nan.
Proof.
  intros Hk; unfold Correlations._rotation_matrix.
  cbn [length Nat.eqb last]; unfold fat at 1 2; cbn [nth].
  assert (Hdiv : forall c : fl,
            fl_div c (_norm [p1; fl_opp p0; Some 0]) = None).
  { intros [c|]; destruct Hk as [-> | ->]; simpl; trivial.
    destruct (Req_dec_T 0 0); [reflexivity | congruence]. }
  cbn [map]; rewrite !Hdiv.
  unfold fat; cbn [nth].
  generalize (fl_sin (fl_arccos p2)); intros sn.
  unfold _matmul, _dot, column, mat_add, mat_scale; simpl.
  destruct sn as [sn|], p2 as [p2|]; reflexivity.
Qed.

Lemma rodrigues_along_z (c x y z : R) :
  _matvec (Correlations._rotation_matrix (normalised [0; 0; c]))
          [Some x; Some y; Some z]
  = [None; None; None].
Proof.
  assert (HR : Correlations._rotation_matrix (normalised [0; 0; c])
               = all_nan).
  { unfold normalised; rewrite _norm_Some; cbn [map]; unfold fl_div.
    destruct (Req_dec_T (_norm [0; 0; c]) 0) as [_ | Hn].
    - apply rotation_matrix_degenerate; right; reflexivity.
    - apply rotation_matrix_degenerate; left.
      unfold _norm at 1, _dot; simpl.
      match goal with
      | |- (if Rlt_dec ?d 0 then _ else _) = _ =>
          replace d with 0 by (field; exact Hn)
      end.
      destruct (Rlt_dec 0 0); [lra|].
      now rewrite sqrt_0. }
  rewrite HR; reflexivity.
Qed.

(** The rotation of [particle_correlations.py] in three dimensions
    gives a displacement of numbers exactly when the orientation has a
    component off the z axis; an orientation along the z axis, in either
    direction, or the zero vector gives NaN in every component. *)
Theorem rodrigues_finite_iff_off_axis :
  forall (a b c x y z : R),
    let turned :=
      _matvec (Correlations._rotation_matrix (normalised [a; b; c]))
              [Some x; Some y; Some z] in
    ((exists X Y Z : R, turned = [Some X; Some Y; Some Z])
     <-> 0 < a * a + b * b)
    /\ (a * a + b * b = 0 -> turned = [None; None; None]).
Proof.
  intros a b c x y z turned.
  assert (Hz : a * a + b * b = 0 -> turned = [None; None; None]).
  { intros H0.
    assert (a = 0) by nra; assert (b = 0) by nra; subst a b.
    apply rodrigues_along_z. }
  split; [split|exact Hz].
  - intros [X [Y [Z E]]].
    destruct (Rlt_dec 0 (a * a + b * b)) as [H | H]; [exact H|].
    assert (H0 : a * a + b * b = 0) by nra.
    rewrite (Hz H0) in E; discriminate.
  - intros Hab.
    destruct (rodrigues_image a b c x y z Hab) as [X [Y [Z [E _]]]].
    now exists X, Y, Z.
Qed.

(** ** What the kernels bin *)

Section Updates.
Context {A : Type}.
Variable d : A.

Lemma length_upd (k : nat) (x : A) (l : list A) :
  length (upd k x l) = length l.
Proof.
  revert k; induction l as [|y l IH]; intros [|k]; simpl; trivial.
  now rewrite IH.
Qed.

Lemma nth_upd_same (k : nat) (x : A) (l : list A) :
  (k < length l)%nat -> nth k (upd k x l) d = x.
Proof.
  revert k; induction l as [|y l IH]; intros [|k] Hk; simpl in *;
    try lia; [reflexivity|].
  apply IH; lia.
Qed.

Lemma nth_upd_other (k k' : nat) (x : A) (l : list A) :
  k <> k' -> nth k (upd k' x l) d = nth k l d.
Proof.
  revert k k'; induction l as [|y l IH]; intros [|k] [|k'] Hk; simpl;
    try reflexivity; try congruence.
  apply IH; congruence.
Qed.

End Updates.

Lemma scalar_div_Ok (a b q : fl) :
  scalar_div a b = Ok q -> q = fl_div a b.
Proof.
  unfold scalar_div; destruct b as [y|].
  - destruct (Req_dec_T y 0); [discriminate | now intros [= <-]].
  - intros [= <-]; destruct a; reflexivity.
Qed.


Lemma scalar_pow_Ok (a : R) (z : Z) (x : fl) :
  scalar_pow a z = Ok x -> x = Some (powerRZ a z).
Proof.
  unfold scalar_pow; destruct (z <? 0)%Z.
  - destruct (Req_dec_T a 0); [discriminate | now intros [= <-]].
  - now intros [= <-].
Qed.


(** The entries [write_coords] leaves in a row that has one slot for
    every binned coordinate. *)
Lemma write_coords_entries (L : Library) (row v row' : list fl)
    (nr nphi ntheta : nat) :
  write_coords row v nr nphi ntheta = Ok row' ->
  length row = ncoords nr nphi ntheta ->
  length row' = length row
  /\ ((1 < nr)%nat -> nth 0 row' None = _norm v)
  /\ ((1 < nphi)%nat ->
      nth (phi_column nr) row' None = arctan2 (fat v 1) (fat v 0))
  /\ ((1 < ntheta)%nat ->
      nth (theta_column nr nphi) row' None
      = fl_arccos (fl_div (fat v 2) (_norm v))).
Proof.
  unfold write_coords, ncoords, theta_column, phi_column; cbn [filter].
  destruct (1 <? nr)%nat eqn:Hr; destruct (1 <? nphi)%nat eqn:Hp;
    destruct (1 <? ntheta)%nat eqn:Ht;
    rewrite ?Nat.ltb_lt, ?Nat.ltb_ge in *; cbn [length Nat.add];
    intros E Hlen;
    repeat (destruct row as [|? row]; try discriminate Hlen);
    try (destruct (scalar_div (fat v 2) (_norm v)) as [q|] eqn:Eq;
         [apply scalar_div_Ok in Eq; subst q | discriminate E]);
    cbn [bind upd] in E; injection E as <-;
    (split; [reflexivity|]);
    repeat split; intros H; try lia; reflexivity.
Qed.


Lemma in_schedule (pairs : list (nat * nat)) (k : nat) :
  (k < 2 * length pairs)%nat ->
  In (k, nth k (pairs ++ map swap pairs) (0, 0)%nat)
     (Correlations.schedule pairs).
Proof.
  intros Hk; unfold Correlations.schedule; cbv zeta.
  apply in_flat_map.
  destruct (Nat.lt_ge_cases k (length pairs)) as [Hlt | Hge].
  - exists k; split; [apply in_seq; lia|].
    left; f_equal; [lia|].
    cbn [Nat.eqb]; symmetry; now apply app_nth1.
  - exists (k - length pairs)%nat; split; [apply in_seq; lia|].
    right; left; f_equal; [lia|].
    cbn [Nat.eqb]; rewrite app_nth2 by lia.
    symmetry; apply (map_nth swap pairs (0, 0)%nat).
Qed.


Section Buffers.
Context `{Library}.
Variables (r w : list vec) (z : Z) (p : list vec) (boxsize : vec) (rmax : R).
Variables (nr nphi ntheta : nat) (rotate : bool).

Lemma fill_slot_unfold (rb : list (list fl)) (wb : list fl) (index : nat)
    (pair : nat * nat) :
  Correlations.fill_slot r w z p boxsize rmax nr nphi ntheta rotate
                         (rb, wb) (index, pair)
  = bind (if (1 <? length wb)%nat
          then bind (scalar_pow (pair_weight w pair) z)
                    (fun x => Ok (upd index x wb))
          else Ok wb) (fun wb' =>
    bind (write_coords (nth index rb [])
                       (corr_vector r p boxsize rmax rotate pair)
                       nr nphi ntheta)
         (fun row => Ok (upd index row rb, wb'))).
Proof.
  destruct pair as [i j]; unfold Correlations.fill_slot, corr_vector,
    pair_weight, turned; cbn [fst snd].
  destruct rotate; reflexivity.
Qed.

Lemma loop_raised (steps : list (nat * (nat * nat))) (e : exn) :
  fold_left
    (fun buffers step =>
       bind buffers (fun b =>
         Correlations.fill_slot r w z p boxsize rmax nr nphi ntheta rotate
                                b step))
    steps (Raise e)
  = Raise e.
Proof. induction steps as [|s steps IH]; [reflexivity | exact IH]. Qed.

(** What the loop leaves in the buffers when it returns. *)
Lemma loop_Ok (steps : list (nat * (nat * nat))) :
  forall (rb rb1 : list (list fl)) (wb wb1 : list fl),
    NoDup (map fst steps) ->
    fold_left
      (fun buffers step =>
         bind buffers (fun b =>
           Correlations.fill_slot r w z p boxsize rmax nr nphi ntheta rotate
                                  b step))
      steps (Ok (rb, wb))
    = Ok (rb1, wb1) ->
    length rb1 = length rb
    /\ length wb1 = length wb
    /\ (forall k : nat, ~ In k (map fst steps) ->
          nth k rb1 [] = nth k rb []
          /\ nth k wb1 (Some 0) = nth k wb (Some 0))
    /\ (forall index pair, In (index, pair) steps ->
          exists row,
            write_coords (nth index rb [])
                         (corr_vector r p boxsize rmax rotate pair)
                         nr nphi ntheta
            = Ok row
            /\ ((index < length rb)%nat -> nth index rb1 [] = row)
            /\ ((1 < length wb)%nat ->
                scalar_pow (pair_weight w pair) z
                = Ok (Some (powerRZ (pair_weight w pair) z))
                /\ ((index < length wb)%nat ->
                    nth index wb1 (Some 0)
                    = Some (powerRZ (pair_weight w pair) z))))
    /\ (~ (1 < length wb)%nat -> wb1 = wb).
Proof.
  induction steps as [|[index pair] steps IH];
    intros rb rb1 wb wb1 Hnd E; cbn [fold_left] in E.
  - injection E as <- <-.
    repeat split; trivial; intros ? ? [].
  - cbn [bind] in E; rewrite fill_slot_unfold in E.
    cbn [map fst] in Hnd; inversion Hnd as [|? ? Hnotin Hnd']; subst.
    assert (Hwb : exists wb',
              (if (1 <? length wb)%nat
               then bind (scalar_pow (pair_weight w pair) z)
                         (fun x => Ok (upd index x wb))
               else Ok wb) = Ok wb'
              /\ length wb' = length wb
              /\ (forall k, k <> index ->
                    nth k wb' (Some 0) = nth k wb (Some 0))
              /\ ((1 < length wb)%nat ->
                  scalar_pow (pair_weight w pair) z
                  = Ok (Some (powerRZ (pair_weight w pair) z))
                  /\ ((index < length wb)%nat ->
                      nth index wb' (Some 0)
                      = Some (powerRZ (pair_weight w pair) z)))
              /\ (~ (1 < length wb)%nat -> wb' = wb)).
    { destruct (1 <? length wb)%nat eqn:Hone.
      - apply Nat.ltb_lt in Hone.
        destruct (scalar_pow (pair_weight w pair) z) as [x|e] eqn:Ex;
          [|cbn [bind] in E; rewrite loop_raised in E; discriminate E].
        pose proof (scalar_pow_Ok _ _ _ Ex) as ->.
        eexists; split; [reflexivity|]; rewrite length_upd.
        split; [reflexivity|]; split; [|split].
        + intros k Hk; now apply nth_upd_other.
        + intros _; split; [reflexivity|].
          intros Hi; now apply nth_upd_same.
        + intros Hn; contradiction.
      - apply Nat.ltb_ge in Hone.
        exists wb; repeat split; trivial; intros; lia. }
    destruct Hwb as [wb' [Ewb [Hlw [Hw_other [Hw_same Hw_keep]]]]].
    rewrite Ewb in E; cbn [bind] in E.
    destruct (write_coords (nth index rb [])
                           (corr_vector r p boxsize rmax rotate pair)
                           nr nphi ntheta) as [row|e] eqn:Erow;
      [|cbn [bind] in E; rewrite loop_raised in E; discriminate E].
    cbn [bind] in E.
    destruct (IH _ _ _ _ Hnd' E) as [Hlr [Hlw1 [Hun [Hst Hkeep]]]].
    rewrite length_upd in Hlr; rewrite Hlw in Hlw1.
    split; [exact Hlr|]; split; [exact Hlw1|]; split; [|split].
    + intros k Hk; cbn [map fst] in Hk.
      destruct (Hun k) as [H1 H2]; [intros Hin; apply Hk; now right|].
      rewrite H1, H2; split.
      * apply nth_upd_other; intros ->; apply Hk; now left.
      * apply Hw_other; intros ->; apply Hk; now left.
    + intros index' pair' [Eq | Hin].
      * injection Eq as <- <-.
        exists row; split; [exact Erow|].
        destruct (Hun index Hnotin) as [H1 H2].
        split.
        -- intros Hi; rewrite H1; now apply nth_upd_same.
        -- intros Hone; destruct (Hw_same Hone) as [Ep Hx].
           split; [exact Ep|].
           intros Hi; rewrite H2; now apply Hx.
      * assert (Hne : index' <> index).
        { intros ->; apply Hnotin.
          change index with (fst (index, pair')); now apply in_map. }
        destruct (Hst index' pair' Hin) as [row' [Er [Hr Hw']]].
        rewrite nth_upd_other in Er by exact Hne.
        exists row'; split; [exact Er|]; split.
        -- intros Hi; apply Hr; now rewrite length_upd.
        -- intros Hone.
           destruct (Hw' ltac:(lia)) as [Ep Hx].
           split; [exact Ep|].
           intros Hi; apply Hx; lia.
    + intros Hn; rewrite Hkeep by lia; now apply Hw_keep.
Qed.



End Buffers.

(** What the kernel of [particle_correlations.py] has written when it
    returns: slot [k] of both buffers belongs to entry [k] of the pairs
    followed by the same pairs swapped. *)
Lemma corr_kernel_rows (L : Library) (rbuff : list (list fl))
    (wbuff : list fl) (pairs : list (nat * nat)) (r w : list vec) (z : Z)
    (p : list vec) (boxsize : vec) (rmax : R) (nr nphi ntheta : nat)
    (rij : list (list fl)) (wiwj : list fl) :
  length rbuff = (2 * length pairs)%nat ->
  Correlations._get_displacements rbuff wbuff pairs r w z p boxsize rmax
                                  nr nphi ntheta
  = Ok (rij, wiwj) ->
  let rotate := shape2_eqb (shape2 p) (shape2 r) in
  let ordered := pairs ++ map swap pairs in
  length rij = length rbuff
  /\ (forall k : nat, (k < 2 * length pairs)%nat ->
        write_coords (nth k rbuff [])
                     (corr_vector r p boxsize rmax rotate
                                  (nth k ordered (0, 0)%nat))
                     nr nphi ntheta
        = Ok (nth k rij [])).
Proof.
  intros Hr E rotate ordered.
  assert (Hnd : NoDup (map fst (Correlations.schedule pairs)))
    by (rewrite schedule_slots; apply slots_distinct; lia).
  unfold Correlations._get_displacements in E; fold rotate in E.
  destruct (loop_Ok r w z p boxsize rmax nr nphi ntheta rotate
                    _ _ _ _ _ Hnd E)
    as [Hlr [_ [_ [Hst _]]]].
  split; [exact Hlr|].
  intros k Hk.
  destruct (Hst k _ (in_schedule pairs k Hk)) as [row [Er [Hrow _]]].
  rewrite Hrow by lia; exact Er.
Qed.



(** *** Rotated displacements *)

Lemma corr_rotation_2 (p : vec) :
  0 < _norm p -> length p = 2%nat ->
  Correlations._rotation_matrix (normalised p)
  = Cloud.rotation 2 (normalised p).
Proof.
  intros Hn H2.
  destruct (normalised_nonzero p Hn) as [E [Hlast Hc]].
  destruct (cloud_rotation_2 p Hn) as [-> _].
  unfold Correlations._rotation_matrix.
  assert (Hlen : length (normalised p) = length p)
    by (rewrite E; apply length_map).
  rewrite Hlen, H2, Hlast; unfold fl_arccos.
  destruct (Rle_dec (-1) (last p 0 / _norm p)); [|lra].
  destruct (Rle_dec (last p 0 / _norm p) 1); [|lra].
  reflexivity.
Qed.

(** The vector [particle_cloud.py] takes the coordinates of has the
    length and the z component of the displacement. *)
Lemma cloud_turned (rotate : bool) (ndim : nat) (p_i d : vec) :
  ndim = 2%nat \/ ndim = 3%nat ->
  length d = ndim ->
  (rotate = true -> 0 < _norm p_i) ->
  let v := turned rotate (Cloud.rotation ndim (normalised p_i)) d in
  linalg_norm v = Some (_norm d) /\ fat v 2 = Some (at_ d 2).
Proof.
  intros Hd Hlen Hp v; unfold v, turned.
  assert (Hplain : linalg_norm (map Some d) = Some (_norm d)
                   /\ fat (map Some d) 2 = Some (at_ d 2)).
  { split; [apply _norm_Some | apply nth_map_Some]. }
  destruct rotate; [|exact Hplain].
  destruct (cloud_rotated ndim p_i d Hd Hlen (Hp eq_refl)) as [-> ->].
  exact Hplain.
Qed.

(** So has, as far as the length goes, the vector of
    [particle_correlations.py], for an orientation its rotation can
    handle. *)
Lemma corr_turned (rotate : bool) (ndim : nat) (p_i d : vec) :
  ndim = 2%nat \/ ndim = 3%nat ->
  length d = ndim ->
  (rotate = true -> length p_i = ndim /\ turnable p_i) ->
  _norm (turned rotate (Correlations._rotation_matrix (normalised p_i)) d)
  = Some (_norm d).
Proof.
  intros Hd Hlen Hp; unfold turned.
  destruct rotate; [|apply _norm_Some].
  destruct (Hp eq_refl) as [Hpl [Hn Hoff]].
  destruct Hd as [-> | ->].
  - rewrite corr_rotation_2 by assumption.
    destruct (cloud_rotated 2 p_i d (or_introl eq_refl) Hlen Hn) as [E _].
    unfold linalg_norm in E; rewrite E; apply _norm_Some.
  - destruct p_i as [|a [|b [|c [|? ?]]]]; try discriminate Hpl.
    destruct d as [|x [|y [|z [|? ?]]]]; try discriminate Hlen.
    specialize (Hoff eq_refl); unfold at_ in Hoff; cbn [nth] in Hoff.
    destruct (rodrigues_image a b c x y z Hoff) as [X [Y [Z [EM Esq]]]].
    cbn [map]; rewrite EM.
    now apply norm_of_squares.
Qed.

(** *** The kernel of [particle_cloud.py] *)

Lemma map_result_Ok {A B : Type} (f : A -> result B) (g : A -> B)
    (l : list A) (l' : list B) :
  (forall x y, In x l -> f x = Ok y -> y = g x) ->
  map_result f l = Ok l' -> l' = map g l.
Proof.
  revert l'; induction l as [|x l IH]; intros l' Hf E; cbn in E.
  - now injection E as <-.
  - destruct (f x) as [y|e] eqn:Ex; [|discriminate E]; cbn [bind] in E.
    destruct (map_result f l) as [t|e] eqn:Et; [|discriminate E].
    cbn [bind] in E; injection E as <-; cbn [map]; f_equal.
    + apply Hf; [now left | exact Ex].
    + apply IH; [|reflexivity].
      intros x' y' Hin; apply Hf; now right.
Qed.

Lemma map_result_ext {A B : Type} (f f' : A -> result B) (l : list A) :
  (forall x, In x l -> f x = f' x) -> map_result f l = map_result f' l.
Proof.
  induction l as [|x l IH]; intros Hf; [reflexivity|].
  cbn [map_result]; rewrite (Hf x (or_introl eq_refl)).
  rewrite IH; [reflexivity | intros x' Hin; apply Hf; now right].
Qed.

Lemma pair_displacement_turned (r p : list vec) (boxsize : vec) (rmax : R)
    (rotate : bool) (ndim : nat) (i j : nat) :
  Cloud.pair_displacement r p boxsize rmax rotate ndim (i, j)
  = turned rotate (Cloud.rotation ndim (normalised (nth i p [])))
           (displacement (nth i r []) (nth j r []) boxsize rmax).
Proof. unfold Cloud.pair_displacement, turned; destruct rotate; reflexivity. Qed.

(** The samples the kernel of [particle_cloud.py] returns. *)
Lemma cloud_kernel_Ok (L : Library) (r p : list vec)
    (pairs : list (nat * nat)) (boxsize : vec) (rmax : R)
    (nr nphi ntheta : nat) (rnorm phi theta : list fl) :
  Cloud._get_displacements r (Some p) pairs boxsize rmax nr nphi ntheta
  = Ok (rnorm, phi, theta) ->
  let r_of :=
    Cloud.pair_displacement r p boxsize rmax
      (shape2_eqb (shape2 p) (shape2 r)) (snd (shape2 r)) in
  rnorm = (if (1 <? nr)%nat
           then map (fun pair => linalg_norm (r_of pair)) pairs
           else [Some 0])
  /\ phi = (if (1 <? nphi)%nat
            then map (fun pair =>
                        arctan2 (fat (r_of pair) 1) (fat (r_of pair) 0))
                     pairs
            else [Some 0])
  /\ theta = (if (1 <? ntheta)%nat
              then map (fun pair =>
                          fl_arccos (fl_div (fat (r_of pair) 2)
                                            (linalg_norm (r_of pair))))
                       pairs
              else [Some 0]).
Proof.
  intros E r_of; unfold Cloud._get_displacements in E; fold r_of in E.
  destruct (1 <? ntheta)%nat.
  - destruct (map_result _ pairs) as [th|e] eqn:Eth; [|discriminate E].
    cbn [bind] in E; injection E as <- <- <-.
    split; [reflexivity|]; split; [reflexivity|].
    apply (map_result_Ok _
             (fun pair => fl_arccos (fl_div (fat (r_of pair) 2)
                                            (linalg_norm (r_of pair)))))
      in Eth; [exact Eth|].
    intros pair y _ Ey.
    destruct (scalar_div (fat (r_of pair) 2) (linalg_norm (r_of pair)))
      as [q|e] eqn:Eq; [|discriminate Ey].
    cbn [bind] in Ey; injection Ey as <-.
    now rewrite (scalar_div_Ok _ _ _ Eq).
  - cbn [bind] in E; injection E as <- <- <-.
    repeat split.
Qed.

(** *** The samples of one pair *)

Lemma cloud_samples (L : Library) (r p : list vec)
    (pairs : list (nat * nat)) (boxsize : vec) (rmax : R)
    (nr nphi ntheta : nat) (rnorm phi theta : list fl) (k : nat) :
  Cloud._get_displacements r (Some p) pairs boxsize rmax nr nphi ntheta
  = Ok (rnorm, phi, theta) ->
  (k < length pairs)%nat ->
  let pair := nth k pairs (0, 0)%nat in
  let v := turned (shape2_eqb (shape2 p) (shape2 r))
                  (Cloud.rotation (snd (shape2 r))
                                  (normalised (nth (fst pair) p [])))
                  (displacement (nth (fst pair) r []) (nth (snd pair) r [])
                                boxsize rmax) in
  ((1 < nr)%nat -> nth k rnorm None = linalg_norm v)
  /\ ((1 < nphi)%nat -> nth k phi None = arctan2 (fat v 1) (fat v 0))
  /\ ((1 < ntheta)%nat ->
      nth k theta None = fl_arccos (fl_div (fat v 2) (linalg_norm v))).
Proof.
  intros E Hk pair v.
  destruct (cloud_kernel_Ok L r p pairs boxsize rmax nr nphi ntheta
                            rnorm phi theta E) as [-> [-> ->]].
  assert (Hnth : forall (f : nat * nat -> fl),
            nth k (map f pairs) None = f pair).
  { intros f.
    rewrite (nth_indep _ None (f (0, 0)%nat)) by (now rewrite length_map).
    apply (map_nth f). }
  assert (Ev : Cloud.pair_displacement r p boxsize rmax
                 (shape2_eqb (shape2 p) (shape2 r)) (snd (shape2 r)) pair
               = v).
  { unfold v; destruct pair as [i j]; apply pair_displacement_turned. }
  repeat split; intros H; apply Nat.ltb_lt in H; rewrite H, Hnth, Ev;
    reflexivity.
Qed.

Lemma corr_samples (L : Library) (rbuff : list (list fl))
    (wbuff : list fl) (pairs : list (nat * nat)) (r w : list vec) (z : Z)
    (p : list vec) (boxsize : vec) (rmax : R) (nr nphi ntheta : nat)
    (rij : list (list fl)) (wiwj : list fl) (k : nat) :
  length rbuff = (2 * length pairs)%nat ->
  Forall (fun row => length row = ncoords nr nphi ntheta) rbuff ->
  Correlations._get_displacements rbuff wbuff pairs r w z p boxsize rmax
                                  nr nphi ntheta
  = Ok (rij, wiwj) ->
  (k < 2 * length pairs)%nat ->
  let pair := nth k (pairs ++ map swap pairs) (0, 0)%nat in
  let v := corr_vector r p boxsize rmax (shape2_eqb (shape2 p) (shape2 r))
                       pair in
  let row := nth k rij [] in
  ((1 < nr)%nat -> nth 0 row None = _norm v)
  /\ ((1 < nphi)%nat ->
      nth (phi_column nr) row None = arctan2 (fat v 1) (fat v 0))
  /\ ((1 < ntheta)%nat ->
      nth (theta_column nr nphi) row None
      = fl_arccos (fl_div (fat v 2) (_norm v))).
Proof.
  intros Hr Hrows E Hk pair v row.
  destruct (corr_kernel_rows L rbuff wbuff pairs r w z p boxsize rmax
                             nr nphi ntheta rij wiwj Hr E) as [_ Hw].
  specialize (Hw k Hk).
  assert (Hlen : length (nth k rbuff []) = ncoords nr nphi ntheta).
  { rewrite Forall_forall in Hrows; apply Hrows, nth_In; lia. }
  now destruct (write_coords_entries L _ _ _ _ _ _ Hw Hlen) as [_ Hent].
Qed.

(** C3: for every ordered pair (i, j) a kernel handles, the samples it
    stores are the coordinates of a displacement d (turned by the matrix
    of the orientation of i when orientations are given) that follows
    the minimum-image rule: d is r_j - r_i itself while the norm of that
    difference is below rmax; from rmax on it is image - r_i, where the
    image takes on every axis, whatever it takes on the other axes, the
    one of source, source - side, source + side that is nearest to the
    target coordinate.  In [particle_cloud.py] the ordered pairs are the
    entries of [pairs] and sample [k] belongs to entry [k]; in
    [particle_correlations.py] they are the pairs followed by the same
    pairs swapped and row [k] of the buffer belongs to entry [k]. *)
Theorem C3_minimum_image_displacement :
  forall (L : Library) (r p : list vec) (pairs : list (nat * nat))
         (boxsize : vec) (rmax : R) (nr nphi ntheta : nat),
    (forall i j, In (i, j) pairs ->
       length (nth j r []) = length (nth i r [])) ->
    let rotate := shape2_eqb (shape2 p) (shape2 r) in
    (forall rnorm phi theta : list fl,
       Cloud._get_displacements r (Some p) pairs boxsize rmax nr nphi ntheta
       = Ok (rnorm, phi, theta) ->
       forall k : nat, (k < length pairs)%nat ->
         let pair := nth k pairs (0, 0)%nat in
         exists d : vec,
           minimum_image (nth (fst pair) r []) (nth (snd pair) r [])
                         boxsize rmax d
           /\ let v := turned rotate
                         (Cloud.rotation (snd (shape2 r))
                            (normalised (nth (fst pair) p [])))
                         d in
              ((1 < nr)%nat -> nth k rnorm None = linalg_norm v)
              /\ ((1 < nphi)%nat ->
                  nth k phi None = arctan2 (fat v 1) (fat v 0))
              /\ ((1 < ntheta)%nat ->
                  nth k theta None
                  = fl_arccos (fl_div (fat v 2) (linalg_norm v))))
    /\ (forall (rbuff : list (list fl)) (wbuff : list fl) (w : list vec)
               (z : Z) (rij : list (list fl)) (wiwj : list fl),
          length rbuff = (2 * length pairs)%nat ->
          Forall (fun row => length row = ncoords nr nphi ntheta) rbuff ->
          Correlations._get_displacements rbuff wbuff pairs r w z p boxsize
                                          rmax nr nphi ntheta
          = Ok (rij, wiwj) ->
          forall k : nat, (k < 2 * length pairs)%nat ->
            let pair := nth k (pairs ++ map swap pairs) (0, 0)%nat in
            exists d : vec,
              minimum_image (nth (fst pair) r []) (nth (snd pair) r [])
                            boxsize rmax d
              /\ let v := turned rotate
                            (Correlations._rotation_matrix
                               (normalised (nth (fst pair) p [])))
                            d in
                 let row := nth k rij [] in
                 ((1 < nr)%nat -> nth 0 row None = _norm v)
                 /\ ((1 < nphi)%nat ->
                     nth (phi_column nr) row None
                     = arctan2 (fat v 1) (fat v 0))
                 /\ ((1 < ntheta)%nat ->
                     nth (theta_column nr nphi) row None
                     = fl_arccos (fl_div (fat v 2) (_norm v)))).
Proof.
  intros L r p pairs boxsize rmax nr nphi ntheta Hrows rotate; split.
  - intros rnorm phi theta E k Hk pair.
    exists (displacement (nth (fst pair) r []) (nth (snd pair) r [])
                         boxsize rmax).
    split; [apply displacement_minimum_image|].
    exact (cloud_samples L r p pairs boxsize rmax nr nphi ntheta
                         rnorm phi theta k E Hk).
  - intros rbuff wbuff w z rij wiwj Hr Hlen E k Hk pair.
    exists (displacement (nth (fst pair) r []) (nth (snd pair) r [])
                         boxsize rmax).
    split; [apply displacement_minimum_image|].
    exact (corr_samples L rbuff wbuff pairs r w z p boxsize rmax
                        nr nphi ntheta rij wiwj k Hr Hlen E Hk).
Qed.

(** *** Radial samples *)

Lemma ordered_rows (ndim : nat) (a : list vec) (pairs : list (nat * nat)) :
  rows_of ndim a pairs -> rows_of ndim a (pairs ++ map swap pairs).
Proof.
  intros Hrows i j Hin; apply in_app_or in Hin; destruct Hin as [Hin | Hin].
  - now apply Hrows.
  - apply (proj1 (in_map_swap _ _ _)) in Hin.
    destruct (Hrows j i Hin); now split.
Qed.

Lemma nth_pair_in (pairs : list (nat * nat)) (k : nat) :
  (k < length pairs)%nat ->
  In (fst (nth k pairs (0, 0)%nat), snd (nth k pairs (0, 0)%nat)) pairs.
Proof.
  intros Hk; rewrite <- surjective_pairing; now apply nth_In.
Qed.

(** The radial sample of [particle_cloud.py] is the length of the
    displacement, whatever the orientation. *)
Lemma cloud_radial (L : Library) (r p : list vec)
    (pairs : list (nat * nat)) (boxsize : vec) (rmax : R)
    (nr nphi ntheta : nat) (rnorm phi theta : list fl) (k : nat) :
  let ndim := snd (shape2 r) in
  ndim = 2%nat \/ ndim = 3%nat ->
  rows_of ndim r pairs ->
  (shape2_eqb (shape2 p) (shape2 r) = true ->
   forall i j, In (i, j) pairs -> 0 < _norm (nth i p [])) ->
  Cloud._get_displacements r (Some p) pairs boxsize rmax nr nphi ntheta
  = Ok (rnorm, phi, theta) ->
  (1 < nr)%nat ->
  (k < length pairs)%nat ->
  let pair := nth k pairs (0, 0)%nat in
  nth k rnorm None
  = Some (_norm (displacement (nth (fst pair) r []) (nth (snd pair) r [])
                              boxsize rmax)).
Proof.
  intros ndim Hd Hrows Hp E Hnr Hk pair.
  destruct (cloud_samples L r p pairs boxsize rmax nr nphi ntheta
                          rnorm phi theta k E Hk) as [Hn _].
  rewrite (Hn Hnr); fold pair ndim.
  pose proof (nth_pair_in pairs k Hk) as Hin; fold pair in Hin.
  destruct (Hrows _ _ Hin) as [Hi Hj].
  apply cloud_turned; trivial.
  - rewrite length_displacement; congruence.
  - intros Hrot; exact (Hp Hrot _ _ Hin).
Qed.

(** So is column 0 of the buffer of [particle_correlations.py], for
    orientations its rotation can handle. *)
Lemma corr_radial (L : Library) (rbuff : list (list fl))
    (wbuff : list fl) (pairs : list (nat * nat)) (r w : list vec) (z : Z)
    (p : list vec) (boxsize : vec) (rmax : R) (nr nphi ntheta : nat)
    (rij : list (list fl)) (wiwj : list fl) (k : nat) :
  let ndim := snd (shape2 r) in
  ndim = 2%nat \/ ndim = 3%nat ->
  rows_of ndim r pairs ->
  (shape2_eqb (shape2 p) (shape2 r) = true ->
   rows_of ndim p pairs
   /\ forall i j, In (i, j) pairs ->
        turnable (nth i p []) /\ turnable (nth j p [])) ->
  length rbuff = (2 * length pairs)%nat ->
  Forall (fun row => length row = ncoords nr nphi ntheta) rbuff ->
  Correlations._get_displacements rbuff wbuff pairs r w z p boxsize rmax
                                  nr nphi ntheta
  = Ok (rij, wiwj) ->
  (1 < nr)%nat ->
  (k < 2 * length pairs)%nat ->
  let pair := nth k (pairs ++ map swap pairs) (0, 0)%nat in
  nth 0 (nth k rij []) None
  = Some (_norm (displacement (nth (fst pair) r []) (nth (snd pair) r [])
                              boxsize rmax)).
Proof.
  intros ndim Hd Hrows Hp Hr Hlen E Hnr Hk pair.
  destruct (corr_samples L rbuff wbuff pairs r w z p boxsize rmax
                         nr nphi ntheta rij wiwj k Hr Hlen E Hk)
    as [Hn _].
  rewrite (Hn Hnr); fold pair; unfold corr_vector.
  assert (Hko : (k < length (pairs ++ map swap pairs))%nat)
    by (rewrite length_app, length_map; lia).
  pose proof (nth_pair_in _ k Hko) as Hin; fold pair in Hin.
  destruct (ordered_rows ndim r pairs Hrows _ _ Hin) as [Hi Hj].
  apply corr_turned with ndim; trivial.
  - rewrite length_displacement; congruence.
  - intros Hrot; destruct (Hp Hrot) as [Hprows Hturn].
    destruct (ordered_rows ndim p pairs Hprows _ _ Hin) as [Hpi _].
    split; [exact Hpi|].
    apply in_app_or in Hin; destruct Hin as [Hin | Hin].
    + now apply (Hturn _ _ Hin).
    + apply (proj1 (in_map_swap _ _ _)) in Hin.
      now apply (Hturn _ _ Hin).
Qed.

(** Two particles across a face of a 10 x 10 box, with orientations:
    runs of the two kernels that return. *)
Lemma cloud_kernel_example :
  exists rnorm phi theta : list fl,
    @Cloud._get_displacements (fixed_library [])
      [[1; 5]; [9; 5]] (Some [[3; 4]; [0; 1]]) [(0, 1); (1, 0)]%nat
      [10; 10] 5 100 20 1
    = Ok (rnorm, phi, theta).
Proof.
  unfold Cloud._get_displacements.
  cbn [Nat.ltb Nat.leb bind]; repeat eexists.
Qed.

Lemma corr_kernel_example :
  exists (rij : list (list fl)) (wiwj : list fl),
    @Correlations._get_displacements (fixed_library [])
      (repeat [Some 0; Some 0] 2) [] [(0, 1)%nat]
      [[1; 5]; [9; 5]] [[0; 0]] 1 [[3; 4]; [0; 1]] [10; 10] 5 100 20 1
    = Ok (rij, wiwj).
Proof.
  unfold Correlations._get_displacements, Correlations.schedule,
    Correlations.fill_slot, write_coords.
  cbn [Nat.ltb Nat.leb Nat.add Nat.mul Nat.eqb fold_left flat_map map seq
       length app nth upd repeat fst snd swap bind].
  repeat eexists.
Qed.

Lemma example_rows : rows_of 2 [[1; 5]; [9; 5]] [(0, 1); (1, 0)]%nat.
Proof.
  intros i j [E | [E | []]]; injection E as <- <-; split; reflexivity.
Qed.

Lemma example_rows_1 : rows_of 2 [[1; 5]; [9; 5]] [(0, 1)%nat].
Proof. intros i j [E | []]; injection E as <- <-; split; reflexivity. Qed.

Lemma example_orientation_rows : rows_of 2 [[3; 4]; [0; 1]] [(0, 1)%nat].
Proof. intros i j [E | []]; injection E as <- <-; split; reflexivity. Qed.

Lemma example_norm_3_4 : 0 < _norm [3; 4].
Proof. unfold _norm, _dot; simpl; apply sqrt_lt_R0; lra. Qed.

Lemma example_norm_0_1 : 0 < _norm [0; 1].
Proof. unfold _norm, _dot; simpl; apply sqrt_lt_R0; lra. Qed.

Lemma example_turnable :
  forall i j, In (i, j) [(0, 1)%nat] ->
    turnable (nth i [[3; 4]; [0; 1]] [])
    /\ turnable (nth j [[3; 4]; [0; 1]] []).
Proof.
  intros i j [E | []]; injection E as <- <-; cbn [nth]; split; split;
    try (intros H; discriminate H);
    [apply example_norm_3_4 | apply example_norm_0_1].
Qed.

Lemma example_buffer_rows :
  Forall (fun row : list fl => length row = ncoords 100 20 1)
         (repeat [Some 0; Some 0] 2).
Proof. repeat constructor. Qed.

Lemma C3_minimum_image_displacement_witness :
  (exists rnorm phi theta : list fl,
     @Cloud._get_displacements (fixed_library [])
       [[1; 5]; [9; 5]] (Some [[3; 4]; [0; 1]]) [(0, 1); (1, 0)]%nat
       [10; 10] 5 100 20 1
     = Ok (rnorm, phi, theta)
     /\ exists d : vec,
          minimum_image [1; 5] [9; 5] [10; 10] 5 d
          /\ nth 0 rnorm None
             = linalg_norm
                 (turned true (Cloud.rotation 2 (normalised [3; 4])) d))
  /\ (exists (rij : list (list fl)) (wiwj : list fl),
        @Correlations._get_displacements (fixed_library [])
          (repeat [Some 0; Some 0] 2) [] [(0, 1)%nat]
          [[1; 5]; [9; 5]] [[0; 0]] 1 [[3; 4]; [0; 1]] [10; 10] 5 100 20 1
        = Ok (rij, wiwj)
        /\ exists d : vec,
             minimum_image [9; 5] [1; 5] [10; 10] 5 d
             /\ nth 0 (nth 1 rij []) None
                = _norm (turned true
                           (Correlations._rotation_matrix
                              (normalised [0; 1])) d)).
Proof.
  split.
  - destruct cloud_kernel_example as [rnorm [phi [theta E]]].
    exists rnorm, phi, theta; split; [exact E|].
    destruct (C3_minimum_image_displacement (fixed_library [])
                [[1; 5]; [9; 5]] [[3; 4]; [0; 1]] [(0, 1); (1, 0)]%nat
                [10; 10] 5 100 20 1) as [Hcloud _].
    { intros i j [H | [H | []]]; injection H as <- <-; reflexivity. }
    destruct (Hcloud rnorm phi theta E 0%nat) as [d [Hd [Hn _]]];
      [simpl; lia|].
    exists d; split; [exact Hd|].
    apply Hn; lia.
  - destruct corr_kernel_example as [rij [wiwj E]].
    exists rij, wiwj; split; [exact E|].
    destruct (C3_minimum_image_displacement (fixed_library [])
                [[1; 5]; [9; 5]] [[3; 4]; [0; 1]] [(0, 1)%nat]
                [10; 10] 5 100 20 1) as [_ Hcorr].
    { intros i j [H | []]; injection H as <- <-; reflexivity. }
    destruct (Hcorr (repeat [Some 0; Some 0] 2) [] [[0; 0]] 1%Z rij wiwj
                    eq_refl example_buffer_rows E 1%nat)
      as [d [Hd [Hn _]]]; [simpl; lia|].
    exists d; split; [exact Hd|].
    apply Hn; lia.
Defined.

(** The closest-image correction never lengthens what is binned: the
    radial sample a kernel stores for an ordered pair (i, j) is a
    number, and it is no larger than the distance between r_i and r_j
    as they stand. *)
Theorem radial_sample_no_longer_than_raw :
  forall (L : Library) (r p : list vec) (pairs : list (nat * nat))
         (boxsize : vec) (rmax : R) (nr nphi ntheta : nat),
    let ndim := snd (shape2 r) in
    let rotate := shape2_eqb (shape2 p) (shape2 r) in
    ndim = 2%nat \/ ndim = 3%nat ->
    (1 < nr)%nat ->
    rows_of ndim r pairs ->
    (rotate = true ->
     rows_of ndim p pairs
     /\ forall i j, In (i, j) pairs ->
          turnable (nth i p []) /\ turnable (nth j p [])) ->
    (forall rnorm phi theta : list fl,
       Cloud._get_displacements r (Some p) pairs boxsize rmax nr nphi ntheta
       = Ok (rnorm, phi, theta) ->
       forall k : nat, (k < length pairs)%nat ->
         let pair := nth k pairs (0, 0)%nat in
         exists x : R,
           nth k rnorm None = Some x
           /\ x <= _norm (vsub (nth (snd pair) r []) (nth (fst pair) r [])))
    /\ (forall (rbuff : list (list fl)) (wbuff : list fl) (w : list vec)
               (z : Z) (rij : list (list fl)) (wiwj : list fl),
          length rbuff = (2 * length pairs)%nat ->
          Forall (fun row => length row = ncoords nr nphi ntheta) rbuff ->
          Correlations._get_displacements rbuff wbuff pairs r w z p boxsize
                                          rmax nr nphi ntheta
          = Ok (rij, wiwj) ->
          forall k : nat, (k < 2 * length pairs)%nat ->
            let pair := nth k (pairs ++ map swap pairs) (0, 0)%nat in
            exists x : R,
              nth 0 (nth k rij []) None = Some x
              /\ x <= _norm (vsub (nth (snd pair) r [])
                                  (nth (fst pair) r []))).
Proof.
  intros L r p pairs boxsize rmax nr nphi ntheta ndim rotate Hd Hnr Hrows
         Hp; split.
  - intros rnorm phi theta E k Hk pair.
    eexists; split.
    + apply (cloud_radial L r p pairs boxsize rmax nr nphi ntheta
                          rnorm phi theta k); trivial.
      intros Hrot i j Hin; now apply (proj2 (Hp Hrot) i j Hin).
    + pose proof (nth_pair_in pairs k Hk) as Hin; fold pair in Hin.
      destruct (Hrows _ _ Hin) as [Hi Hj].
      apply displacement_le_raw; congruence.
  - intros rbuff wbuff w z rij wiwj Hr Hlen E k Hk pair.
    eexists; split.
    + apply (corr_radial L rbuff wbuff pairs r w z p boxsize rmax
                         nr nphi ntheta rij wiwj k); trivial.
    + assert (Hko : (k < length (pairs ++ map swap pairs))%nat)
        by (rewrite length_app, length_map; lia).
      pose proof (nth_pair_in _ k Hko) as Hin; fold pair in Hin.
      destruct (ordered_rows ndim r pairs Hrows _ _ Hin) as [Hi Hj].
      apply displacement_le_raw; congruence.
Qed.

Lemma radial_sample_no_longer_than_raw_witness :
  exists (rij : list (list fl)) (wiwj : list fl),
    @Correlations._get_displacements (fixed_library [])
      (repeat [Some 0; Some 0] 2) [] [(0, 1)%nat]
      [[1; 5]; [9; 5]] [[0; 0]] 1 [[3; 4]; [0; 1]] [10; 10] 5 100 20 1
    = Ok (rij, wiwj)
    /\ exists x : R,
         nth 0 (nth 0 rij []) None = Some x
         /\ x <= _norm (vsub [9; 5] [1; 5]).
Proof.
  destruct corr_kernel_example as [rij [wiwj E]].
  exists rij, wiwj; split; [exact E|].
  destruct (radial_sample_no_longer_than_raw (fixed_library [])
              [[1; 5]; [9; 5]] [[3; 4]; [0; 1]] [(0, 1)%nat]
              [10; 10] 5 100 20 1) as [_ Hcorr].
  - now left.
  - lia.
  - exact example_rows_1.
  - intros _; split;
      [exact example_orientation_rows | exact example_turnable].
  - apply (Hcorr (repeat [Some 0; Some 0] 2) [] [[0; 0]] 1%Z rij wiwj
                 eq_refl example_buffer_rows E 0%nat).
    simpl; lia.
Defined.

(** With the particles inside the box and a cutoff of at most half of
    every side, the radial sample a kernel stores for an ordered pair
    (i, j) is the minimum-image distance: no periodic image of r_j is
    nearer to r_i. *)
Theorem radial_sample_is_minimum_image :
  forall (L : Library) (r p : list vec) (pairs : list (nat * nat))
         (boxsize : vec) (rmax : R) (nr nphi ntheta : nat),
    let ndim := snd (shape2 r) in
    let rotate := shape2_eqb (shape2 p) (shape2 r) in
    ndim = 2%nat \/ ndim = 3%nat ->
    (1 < nr)%nat ->
    rows_of ndim r pairs ->
    (rotate = true ->
     rows_of ndim p pairs
     /\ forall i j, In (i, j) pairs ->
          turnable (nth i p []) /\ turnable (nth j p [])) ->
    length boxsize = ndim ->
    (forall i j, In (i, j) pairs ->
       within boxsize (nth i r []) /\ within boxsize (nth j r [])) ->
    (forall a : nat, (a < ndim)%nat -> rmax <= at_ boxsize a / 2) ->
    (forall rnorm phi theta : list fl,
       Cloud._get_displacements r (Some p) pairs boxsize rmax nr nphi ntheta
       = Ok (rnorm, phi, theta) ->
       forall k : nat, (k < length pairs)%nat ->
         let pair := nth k pairs (0, 0)%nat in
         exists x : R,
           nth k rnorm None = Some x
           /\ forall other : vec,
                periodic_image boxsize (nth (snd pair) r []) other ->
                x <= _norm (vsub other (nth (fst pair) r [])))
    /\ (forall (rbuff : list (list fl)) (wbuff : list fl) (w : list vec)
               (z : Z) (rij : list (list fl)) (wiwj : list fl),
          length rbuff = (2 * length pairs)%nat ->
          Forall (fun row => length row = ncoords nr nphi ntheta) rbuff ->
          Correlations._get_displacements rbuff wbuff pairs r w z p boxsize
                                          rmax nr nphi ntheta
          = Ok (rij, wiwj) ->
          forall k : nat, (k < 2 * length pairs)%nat ->
            let pair := nth k (pairs ++ map swap pairs) (0, 0)%nat in
            exists x : R,
              nth 0 (nth k rij []) None = Some x
              /\ forall other : vec,
                   periodic_image boxsize (nth (snd pair) r []) other ->
                   x <= _norm (vsub other (nth (fst pair) r []))).
Proof.
  intros L r p pairs boxsize rmax nr nphi ntheta ndim rotate Hd Hnr Hrows
         Hp Hb Hin_box Hhalf.
  assert (Hnear : forall i j,
            In (i, j) (pairs ++ map swap pairs) ->
            forall other : vec,
              periodic_image boxsize (nth j r []) other ->
              _norm (displacement (nth i r []) (nth j r []) boxsize rmax)
              <= _norm (vsub other (nth i r []))).
  { intros i j Hin other Himg.
    destruct (ordered_rows ndim r pairs Hrows _ _ Hin) as [Hi Hj].
    assert (Hw : within boxsize (nth i r [])
                 /\ within boxsize (nth j r [])).
    { apply in_app_or in Hin; destruct Hin as [Hin | Hin].
      - now apply Hin_box.
      - apply (proj1 (in_map_swap _ _ _)) in Hin.
        destruct (Hin_box _ _ Hin); now split. }
    destruct Hw as [Hwi Hwj].
    apply displacement_le_image; trivial; try congruence.
    intros a Ha; apply Hhalf; congruence. }
  split.
  - intros rnorm phi theta E k Hk pair.
    eexists; split.
    + apply (cloud_radial L r p pairs boxsize rmax nr nphi ntheta
                          rnorm phi theta k); trivial.
      intros Hrot i j Hin; now apply (proj2 (Hp Hrot) i j Hin).
    + apply Hnear; apply in_or_app; left.
      unfold pair; now apply nth_pair_in.
  - intros rbuff wbuff w z rij wiwj Hr Hlen E k Hk pair.
    eexists; split.
    + apply (corr_radial L rbuff wbuff pairs r w z p boxsize rmax
                         nr nphi ntheta rij wiwj k); trivial.
    + apply Hnear; unfold pair; apply nth_pair_in.
      rewrite length_app, length_map; lia.
Qed.

Lemma radial_sample_is_minimum_image_witness :
  exists (rij : list (list fl)) (wiwj : list fl),
    @Correlations._get_displacements (fixed_library [])
      (repeat [Some 0; Some 0] 2) [] [(0, 1)%nat]
      [[1; 5]; [9; 5]] [[0; 0]] 1 [[3; 4]; [0; 1]] [10; 10] 5 100 20 1
    = Ok (rij, wiwj)
    /\ exists x : R,
         nth 0 (nth 0 rij []) None = Some x
         /\ x <= _norm (vsub [19; -5] [1; 5]).
Proof.
  destruct corr_kernel_example as [rij [wiwj E]].
  exists rij, wiwj; split; [exact E|].
  destruct (radial_sample_is_minimum_image (fixed_library [])
              [[1; 5]; [9; 5]] [[3; 4]; [0; 1]] [(0, 1)%nat]
              [10; 10] 5 100 20 1) as [_ Hcorr].
  - now left.
  - lia.
  - exact example_rows_1.
  - intros _; split;
      [exact example_orientation_rows | exact example_turnable].
  - reflexivity.
  - intros i j [H | []]; injection H as <- <-; split;
      [exact inside_10_1_5 | exact inside_10_9_5].
  - intros [|[|a]] Ha; unfold at_; simpl in *; try lia; lra.
  - destruct (Hcorr (repeat [Some 0; Some 0] 2) [] [[0; 0]] 1%Z rij wiwj
                    eq_refl example_buffer_rows E 0%nat)
      as [x [Ex Hx]]; [simpl; lia|].
    exists x; split; [exact Ex|].
    apply Hx; exact image_19_minus5.
Defined.

(** In [particle_cloud.py] the orientations change neither the radial
    nor the polar samples: with other orientations, none of them the
    zero vector, the kernel returns the same arrays [rnorm] and
    [theta]. *)
Theorem cloud_orientations_leave_r_and_theta :
  forall (L : Library) (r p p' : list vec) (pairs : list (nat * nat))
         (boxsize : vec) (rmax : R) (nr nphi ntheta : nat)
         (rnorm phi theta : list fl),
    let ndim := snd (shape2 r) in
    ndim = 2%nat \/ ndim = 3%nat ->
    rows_of ndim r pairs ->
    (forall i j, In (i, j) pairs ->
       0 < _norm (nth i p []) /\ 0 < _norm (nth i p' [])) ->
    Cloud._get_displacements r (Some p) pairs boxsize rmax nr nphi ntheta
    = Ok (rnorm, phi, theta) ->
    exists phi' : list fl,
      Cloud._get_displacements r (Some p') pairs boxsize rmax nr nphi ntheta
      = Ok (rnorm, phi', theta).
Proof.
  intros L r p p' pairs boxsize rmax nr nphi ntheta rnorm phi theta ndim
         Hd Hrows Hp E.
  assert (Hsame : forall (q : list vec) (rot : bool) (i j : nat),
            In (i, j) pairs -> 0 < _norm (nth i q []) ->
            let v := Cloud.pair_displacement r q boxsize rmax rot ndim
                       (i, j) in
            let d := displacement (nth i r []) (nth j r []) boxsize rmax in
            linalg_norm v = Some (_norm d) /\ fat v 2 = Some (at_ d 2)).
  { intros q rot i j Hin Hq v d; unfold v, d.
    rewrite pair_displacement_turned.
    destruct (Hrows _ _ Hin) as [Hi Hj].
    apply cloud_turned;
      [exact Hd | rewrite length_displacement; congruence
      | intros _; exact Hq]. }
  unfold Cloud._get_displacements in *; fold ndim in E |- *.
  set (rot := shape2_eqb (shape2 p) (shape2 r)) in *.
  set (rot' := shape2_eqb (shape2 p') (shape2 r)).
  assert (Enorm : forall (f : fl -> fl),
            map (fun pair =>
                   f (linalg_norm (Cloud.pair_displacement r p' boxsize rmax
                                                           rot' ndim pair)))
                pairs
            = map (fun pair =>
                     f (linalg_norm (Cloud.pair_displacement r p boxsize
                                                             rmax rot ndim
                                                             pair)))
                  pairs).
  { intros f; apply map_ext_in; intros [i j] Hin.
    destruct (Hp _ _ Hin) as [Hq Hq'].
    destruct (Hsame p rot i j Hin Hq) as [-> _].
    destruct (Hsame p' rot' i j Hin Hq') as [-> _].
    reflexivity. }
  assert (Etheta :
            map_result
              (fun pair =>
                 bind (scalar_div
                         (fat (Cloud.pair_displacement r p' boxsize rmax
                                                       rot' ndim pair) 2)
                         (linalg_norm
                            (Cloud.pair_displacement r p' boxsize rmax
                                                     rot' ndim pair)))
                      (fun q => Ok (fl_arccos q)))
              pairs
            = map_result
                (fun pair =>
                   bind (scalar_div
                           (fat (Cloud.pair_displacement r p boxsize rmax
                                                         rot ndim pair) 2)
                           (linalg_norm
                              (Cloud.pair_displacement r p boxsize rmax
                                                       rot ndim pair)))
                        (fun q => Ok (fl_arccos q)))
                pairs).
  { apply map_result_ext; intros [i j] Hin.
    destruct (Hp _ _ Hin) as [Hq Hq'].
    destruct (Hsame p rot i j Hin Hq) as [-> ->].
    destruct (Hsame p' rot' i j Hin Hq') as [-> ->].
    reflexivity. }
  rewrite Etheta.
  destruct (if (1 <? ntheta)%nat then _ else _) as [th|e];
    [|discriminate E].
  cbn [bind] in E |- *; injection E as <- _ <-.
  eexists; f_equal; f_equal; f_equal.
  destruct (1 <? nr)%nat; [|reflexivity].
  exact (Enorm (fun x => x)).
Qed.

Lemma cloud_orientations_leave_r_and_theta_witness :
  exists rnorm phi phi' theta : list fl,
    @Cloud._get_displacements (fixed_library [])
      [[1; 5]; [9; 5]] (Some [[3; 4]; [0; 1]]) [(0, 1); (1, 0)]%nat
      [10; 10] 5 100 20 1
    = Ok (rnorm, phi, theta)
    /\ @Cloud._get_displacements (fixed_library [])
         [[1; 5]; [9; 5]] (Some [[0; 1]; [3; 4]]) [(0, 1); (1, 0)]%nat
         [10; 10] 5 100 20 1
       = Ok (rnorm, phi', theta).
Proof.
  destruct cloud_kernel_example as [rnorm [phi [theta E]]].
  destruct (cloud_orientations_leave_r_and_theta (fixed_library [])
              [[1; 5]; [9; 5]] [[3; 4]; [0; 1]] [[0; 1]; [3; 4]]
              [(0, 1); (1, 0)]%nat [10; 10] 5 100 20 1 rnorm phi theta)
    as [phi' E'].
  - now left.
  - exact example_rows.
  - intros i j [H | [H | []]]; injection H as <- <-; cbn [nth]; split;
      first [apply example_norm_3_4 | apply example_norm_0_1].
  - exact E.
  - exists rnorm, phi, phi', theta; split; [exact E | exact E'].
Defined.

Lemma nth_map_default {A B : Type} (f : A -> B) (l : list A) (k : nat)
    (d : A) (d' : B) :
  f d = d' -> nth k (map f l) d' = f (nth k l d).
Proof. intros <-; apply map_nth. Qed.

(** With the same orientations the two modules bin the same radial
    distances: column 0 of the buffer [particle_correlations.py] fills
    is the array [rnorm] of [particle_cloud.py] for the doubled pair
    list of the same tree answer. *)
Theorem radial_samples_agree :
  forall (L : Library) (temp : list (nat * nat)) (r w p : list vec) (z : Z)
         (boxsize : vec) (rmax : R) (nr nphi ntheta : nat)
         (rbuff rij : list (list fl)) (wbuff wiwj rnorm phi theta : list fl),
    let ndim := snd (shape2 r) in
    ndim = 2%nat \/ ndim = 3%nat ->
    (1 < nr)%nat ->
    rows_of ndim r temp ->
    (shape2_eqb (shape2 p) (shape2 r) = true ->
     rows_of ndim p temp
     /\ forall i j, In (i, j) temp ->
          turnable (nth i p []) /\ turnable (nth j p [])) ->
    length rbuff = (2 * length temp)%nat ->
    Forall (fun row => length row = ncoords nr nphi ntheta) rbuff ->
    Correlations._get_displacements rbuff wbuff temp r w z p boxsize rmax
                                    nr nphi ntheta
    = Ok (rij, wiwj) ->
    Cloud._get_displacements r (Some p) (temp ++ map swap temp) boxsize rmax
                             nr nphi ntheta
    = Ok (rnorm, phi, theta) ->
    map (fun row => nth 0 row None) rij = rnorm.
Proof.
  intros L temp r w p z boxsize rmax nr nphi ntheta rbuff rij wbuff wiwj
         rnorm phi theta ndim Hd Hnr Hrows Hp Hr Hlen Ecorr Ecloud.
  assert (Hord : length (temp ++ map swap temp) = (2 * length temp)%nat)
    by (rewrite length_app, length_map; lia).
  assert (Hlrij : length rij = (2 * length temp)%nat).
  { destruct (corr_kernel_rows L rbuff wbuff temp r w z p boxsize rmax
                               nr nphi ntheta rij wiwj Hr Ecorr) as [H _].
    congruence. }
  assert (Hlrn : length rnorm = (2 * length temp)%nat).
  { destruct (cloud_kernel_Ok L r p _ boxsize rmax nr nphi ntheta
                              rnorm phi theta Ecloud) as [-> _].
    apply Nat.ltb_lt in Hnr; rewrite Hnr, length_map; exact Hord. }
  apply (nth_ext _ _ None None).
  - rewrite length_map; exact (eq_trans Hlrij (eq_sym Hlrn)).
  - intros k Hk; rewrite length_map in Hk.
    assert (Hk' : (k < 2 * length temp)%nat)
      by (rewrite <- Hlrij; exact Hk).
    clear Hk; rename Hk' into Hk.
    refine (eq_trans (nth_map_default _ rij k [] None eq_refl) _).
    refine (eq_trans
              (corr_radial L rbuff wbuff temp r w z p boxsize rmax
                           nr nphi ntheta rij wiwj k Hd Hrows Hp Hr Hlen
                           Ecorr Hnr Hk) _).
    symmetry.
    apply (cloud_radial L r p (temp ++ map swap temp) boxsize rmax
                        nr nphi ntheta rnorm phi theta k); trivial.
    + now apply ordered_rows.
    + intros Hrot i j Hin; destruct (Hp Hrot) as [_ Hturn].
      apply in_app_or in Hin; destruct Hin as [Hin | Hin].
      * now apply (Hturn _ _ Hin).
      * apply (proj1 (in_map_swap _ _ _)) in Hin.
        now apply (Hturn _ _ Hin).
    + lia.
Qed.

Lemma radial_samples_agree_witness :
  exists (rij : list (list fl)) (rnorm : list fl),
    (exists wiwj,
       @Correlations._get_displacements (fixed_library [])
         (repeat [Some 0; Some 0] 2) [] [(0, 1)%nat]
         [[1; 5]; [9; 5]] [[0; 0]] 1 [[3; 4]; [0; 1]] [10; 10] 5 100 20 1
       = Ok (rij, wiwj))
    /\ (exists phi theta,
          @Cloud._get_displacements (fixed_library [])
            [[1; 5]; [9; 5]] (Some [[3; 4]; [0; 1]]) [(0, 1); (1, 0)]%nat
            [10; 10] 5 100 20 1
          = Ok (rnorm, phi, theta))
    /\ map (fun row => nth 0 row None) rij = rnorm.
Proof.
  destruct corr_kernel_example as [rij [wiwj Ecorr]].
  destruct cloud_kernel_example as [rnorm [phi [theta Ecloud]]].
  exists rij, rnorm.
  split; [now exists wiwj|]; split; [now exists phi, theta|].
  apply (radial_samples_agree (fixed_library []) [(0, 1)%nat]
           [[1; 5]; [9; 5]] [[0; 0]] [[3; 4]; [0; 1]] 1 [10; 10] 5
           100 20 1 (repeat [Some 0; Some 0] 2) rij [] wiwj rnorm phi theta).
  - now left.
  - lia.
  - exact example_rows_1.
  - intros _; split;
      [exact example_orientation_rows | exact example_turnable].
  - reflexivity.
  - exact example_buffer_rows.
  - exact Ecorr.
  - exact Ecloud.
Defined.


(** ** Bin edges *)

Lemma length_linspace (a b : R) (num : nat) :
  length (linspace a b num) = num.
Proof. unfold linspace; now rewrite length_map, length_seq. Qed.

Lemma nth_linspace (a b : R) (num i : nat) :
  (i < num)%nat ->
  at_ (linspace a b num) i = a + INR i * ((b - a) / INR (num - 1)).
Proof. intros Hi; unfold at_, linspace; now rewrite nth_map_seq. Qed.

Lemma linspace_ends (a b : R) (n : nat) :
  (1 <= n)%nat ->
  at_ (linspace a b (n + 1)) 0 = a /\ at_ (linspace a b (n + 1)) n = b.
Proof.
  intros Hn; rewrite !nth_linspace by lia; split; [simpl; ring|].
  replace (n + 1 - 1)%nat with n by lia.
  field; apply not_0_INR; lia.
Qed.

Lemma increasing_of_steps (l : vec) :
  (forall i, (S i < length l)%nat -> at_ l i < at_ l (S i)) ->
  increasing l.
Proof.
  unfold at_; induction l as [|x l IH]; intros H; [exact I|].
  destruct l as [|y l]; [exact I|].
  split; [apply (H 0%nat); simpl; lia|].
  apply IH; intros i Hi; apply (H (S i)); simpl in *; lia.
Qed.

Lemma steps_of_increasing (l : vec) :
  increasing l ->
  forall i, (S i < length l)%nat -> at_ l i < at_ l (S i).
Proof.
  unfold at_; induction l as [|x l IH]; intros H i Hi; [simpl in Hi; lia|].
  destruct l as [|y l]; [simpl in Hi; lia|].
  destruct H as [Hxy H].
  destruct i as [|i]; [exact Hxy|].
  apply (IH H i); simpl in *; lia.
Qed.

(** An increasing map of evenly spaced points is increasing. *)
Lemma increasing_linspace (f : R -> R) (a b : R) (n : nat) :
  (1 <= n)%nat -> a < b ->
  (forall x y, x < y -> f x < f y) ->
  increasing (map f (linspace a b (n + 1))).
Proof.
  intros Hn Hab Hf; apply increasing_of_steps; intros i Hi.
  rewrite length_map, length_linspace in Hi.
  unfold at_.
  rewrite !(nth_indep _ 0 (f 0))
    by (rewrite length_map, length_linspace; lia).
  rewrite !(map_nth f).
  apply Hf; fold (at_ (linspace a b (n + 1)) i);
    fold (at_ (linspace a b (n + 1)) (S i)).
  rewrite !nth_linspace by lia.
  replace (n + 1 - 1)%nat with n by lia.
  rewrite S_INR.
  assert (0 < (b - a) / INR n).
  { apply Rdiv_lt_0_compat; [lra | apply lt_0_INR; lia]. }
  lra.
Qed.

Lemma at_map (f : R -> R) (l : vec) (i : nat) :
  (i < length l)%nat -> at_ (map f l) i = f (at_ l i).
Proof.
  intros Hi; unfold at_.
  rewrite (nth_indep _ 0 (f 0)) by (now rewrite length_map).
  apply (map_nth f).
Qed.

(** ** Volume elements: sign and total *)

Lemma volume_cell (count : ndarray) (r phi theta : vec) (d n m l : nat) :
  (n < length r - 1)%nat ->
  (m < length phi - 1)%nat ->
  (l < length theta - 1)%nat ->
  cell (_get_volume count r phi theta d) n m l
  = (at_ phi (m + 1) - at_ phi m)
    * ((at_ r (n + 1) ^ d - at_ r n ^ d) / INR d)
    * (if (d =? 3)%nat
       then cos (at_ theta l) - cos (at_ theta (l + 1))
       else 1).
Proof.
  intros Hn Hm Hl; unfold cell, _get_volume.
  rewrite (nth_map_seq _ _ n) by assumption.
  rewrite (nth_map_seq _ _ m) by assumption.
  rewrite (nth_map_seq _ _ l) by assumption.
  destruct (d =? 3)%nat; ring.
Qed.

Lemma shell_positive (d : nat) (a b : R) :
  d = 2%nat \/ d = 3%nat -> 0 <= a -> a < b ->
  0 < (b ^ d - a ^ d) / INR d.
Proof.
  intros Hd Ha Hab.
  destruct Hd as [-> | ->];
    (apply Rdiv_lt_0_compat; [simpl | apply lt_0_INR; lia]).
  - nra.
  - assert (Hq : 0 < b * b + a * b + a * a) by nra.
    replace (b * (b * (b * 1)) - a * (a * (a * 1)))
      with ((b - a) * (b * b + a * b + a * a)) by ring.
    apply Rmult_lt_0_compat; lra.
Qed.

Lemma volume_value_positive (r phi theta : vec) (d n m l : nat) :
  d = 2%nat \/ d = 3%nat ->
  increasing r -> 0 <= at_ r 0 ->
  increasing phi ->
  (d = 3%nat ->
   increasing theta /\ 0 <= at_ theta 0
   /\ at_ theta (length theta - 1) <= PI) ->
  (n < length r - 1)%nat ->
  (m < length phi - 1)%nat ->
  (l < length theta - 1)%nat ->
  0 < (at_ phi (m + 1) - at_ phi m)
      * ((at_ r (n + 1) ^ d - at_ r n ^ d) / INR d)
      * (if (d =? 3)%nat
         then cos (at_ theta l) - cos (at_ theta (l + 1))
         else 1).
Proof.
  intros Hd Hr Hr0 Hphi Hth Hn Hm Hl.
  replace (n + 1)%nat with (S n) by lia.
  replace (m + 1)%nat with (S m) by lia.
  replace (l + 1)%nat with (S l) by lia.
  pose proof (steps_of_increasing r Hr n ltac:(lia)) as Hrn.
  pose proof (steps_of_increasing phi Hphi m ltac:(lia)) as Hpm.
  pose proof (increasing_nth r Hr 0 n ltac:(lia) ltac:(lia)) as Hr0n.
  assert (Hshell : 0 < (at_ r (S n) ^ d - at_ r n ^ d) / INR d)
    by (apply shell_positive; trivial; lra).
  apply Rmult_lt_0_compat; [apply Rmult_lt_0_compat; [lra | exact Hshell]|].
  destruct (d =? 3)%nat eqn:E3; [|lra].
  apply Nat.eqb_eq in E3; destruct (Hth E3) as [Hinc [H0 Hpi]].
  pose proof (steps_of_increasing theta Hinc l ltac:(lia)) as Hstep.
  pose proof (increasing_nth theta Hinc 0 l ltac:(lia) ltac:(lia)) as Hlo.
  pose proof (increasing_nth theta Hinc (S l) (length theta - 1)
                ltac:(lia) ltac:(lia)) as Hhi.
  assert (cos (at_ theta (S l)) < cos (at_ theta l))
    by (apply cos_decreasing_1; lra).
  lra.
Qed.

(** With edges as [corr] and [sdf] build them (increasing, radii from
    zero up, polar angles between 0 and pi) every volume element is
    positive. *)
Theorem volume_elements_positive :
  forall (count : ndarray) (r phi theta : vec) (d n m l : nat),
    d = 2%nat \/ d = 3%nat ->
    increasing r -> 0 <= at_ r 0 ->
    increasing phi ->
    (d = 3%nat ->
     increasing theta /\ 0 <= at_ theta 0
     /\ at_ theta (length theta - 1) <= PI) ->
    (n < length r - 1)%nat ->
    (m < length phi - 1)%nat ->
    (l < length theta - 1)%nat ->
    0 < cell (_get_volume count r phi theta d) n m l.
Proof.
  intros count r phi theta d n m l Hd Hr Hr0 Hphi Hth Hn Hm Hl.
  rewrite volume_cell by assumption.
  now apply volume_value_positive.
Qed.

Lemma volume_elements_positive_witness :
  0 < cell (_get_volume (mk_ndarray [] [])
                        [0; 1; 2] [-1; 1] [0; PI / 2; PI] 3)
           1 0 1.
Proof.
  pose proof PI_RGT_0 as Hpi.
  apply (volume_elements_positive (mk_ndarray [] [])
           [0; 1; 2] [-1; 1] [0; PI / 2; PI] 3 1 0 1).
  - now right.
  - simpl; lra.
  - unfold at_; simpl; lra.
  - simpl; lra.
  - intros _; unfold at_; simpl; lra.
  - simpl; lia.
  - simpl; lia.
  - simpl; lia.
Defined.

Lemma Rsum_app (a b : vec) : Rsum (a ++ b) = Rsum a + Rsum b.
Proof.
  unfold Rsum; induction a as [|x a IH]; simpl; [ring|].
  rewrite IH; ring.
Qed.

Lemma Rsum_scale (c : R) (f : nat -> R) (l : list nat) :
  Rsum (map (fun i => c * f i) l) = c * Rsum (map f l).
Proof.
  unfold Rsum; induction l as [|i l IH]; simpl; [ring|].
  rewrite IH; ring.
Qed.

Lemma Rsum_ext (f g : nat -> R) (l : list nat) :
  (forall i, f i = g i) -> Rsum (map f l) = Rsum (map g l).
Proof. intros E; f_equal; apply map_ext; exact E. Qed.

Lemma Rsum_telescope (f : nat -> R) (k : nat) :
  Rsum (map (fun i => f (i + 1)%nat - f i) (seq 0 k)) = f k - f 0%nat.
Proof.
  induction k as [|k IH]; [unfold Rsum; simpl; ring|].
  rewrite seq_S, map_app, Rsum_app, IH; cbn [map plus].
  unfold Rsum; simpl.
  replace (k + 1)%nat with (S k) by lia; ring.
Qed.

Lemma Rsum_const (c : R) (k : nat) :
  Rsum (map (fun _ => c) (seq 0 k)) = INR k * c.
Proof.
  induction k as [|k IH]; [unfold Rsum; simpl; ring|].
  rewrite seq_S, map_app, Rsum_app, IH, S_INR.
  unfold Rsum; simpl; ring.
Qed.

(** The entries of a grid given cell by cell, added up axis by axis. *)
Lemma Rsum_grid (g : nat -> nat -> nat -> R) (sn sm sl : list nat) :
  Rsum (concat (concat
          (map (fun n => map (fun m => map (fun l => g n m l) sl) sm) sn)))
  = Rsum (map (fun n =>
            Rsum (map (fun m => Rsum (map (fun l => g n m l) sl)) sm)) sn).
Proof.
  assert (Hcons : forall x l, Rsum (x :: l) = x + Rsum l) by reflexivity.
  induction sn as [|n sn IH]; [reflexivity|].
  cbn [map concat]; rewrite concat_app, Rsum_app, IH, Hcons; f_equal.
  clear IH; induction sm as [|m sm IHm]; [reflexivity|].
  cbn [map concat]; rewrite Rsum_app, IHm, Hcons; reflexivity.
Qed.

Ltac ring_pow :=
  repeat match goal with
         | |- context [pow ?x ?k] =>
             is_var k; let p := fresh "p" in
             set (p := pow x k); clearbody p
         end;
  ring.

Lemma volume_total (count : ndarray) (r phi theta : vec) (d : nat) :
  let nr := (length r - 1)%nat in
  let nphi := (length phi - 1)%nat in
  let ntheta := (length theta - 1)%nat in
  Rsum (concat (concat (_get_volume count r phi theta d)))
  = (at_ r nr ^ d - at_ r 0 ^ d) / INR d
    * (at_ phi nphi - at_ phi 0)
    * (if (d =? 3)%nat
       then cos (at_ theta 0) - cos (at_ theta ntheta)
       else INR ntheta).
Proof.
  intros nr nphi ntheta; unfold _get_volume; fold nr nphi ntheta.
  rewrite (Rsum_grid
             (fun n m l =>
                let v := (at_ phi (m + 1) - at_ phi m)
                         * ((at_ r (n + 1) ^ d - at_ r n ^ d) / INR d) in
                if (d =? 3)%nat
                then v * (cos (at_ theta l) - cos (at_ theta (l + 1)))
                else v)).
  cbv zeta.
  set (T := if (d =? 3)%nat
            then cos (at_ theta 0) - cos (at_ theta ntheta)
            else INR ntheta).
  assert (Hl : forall n m,
            Rsum (map (fun l =>
                         if (d =? 3)%nat
                         then (at_ phi (m + 1) - at_ phi m)
                              * ((at_ r (n + 1) ^ d - at_ r n ^ d) / INR d)
                              * (cos (at_ theta l) - cos (at_ theta (l + 1)))
                         else (at_ phi (m + 1) - at_ phi m)
                              * ((at_ r (n + 1) ^ d - at_ r n ^ d) / INR d))
                      (seq 0 ntheta))
            = (at_ phi (m + 1) - at_ phi m)
              * (((at_ r (n + 1) ^ d - at_ r n ^ d) / INR d) * T)).
  { intros n m; unfold T; destruct (d =? 3)%nat.
    - rewrite (Rsum_ext _
                 (fun l => ((at_ phi (m + 1) - at_ phi m)
                            * ((at_ r (n + 1) ^ d - at_ r n ^ d) / INR d))
                           * (- cos (at_ theta (l + 1))
                              - - cos (at_ theta l))))
        by (intros; cbv iota; ring_pow).
      rewrite Rsum_scale.
      rewrite (Rsum_telescope (fun l => - cos (at_ theta l))); ring_pow.
    - rewrite Rsum_const; ring_pow. }
  rewrite (Rsum_ext _
             (fun n => ((at_ r (n + 1) ^ d - at_ r n ^ d) / INR d * T)
                       * (at_ phi nphi - at_ phi 0))).
  2:{ intros n.
      rewrite (Rsum_ext _
                 (fun m => ((at_ r (n + 1) ^ d - at_ r n ^ d) / INR d * T)
                           * (at_ phi (m + 1) - at_ phi m)))
        by (intros m; rewrite Hl; ring_pow).
      rewrite Rsum_scale, (Rsum_telescope (at_ phi)); ring_pow. }
  rewrite (Rsum_ext _
             (fun n => (T * (at_ phi nphi - at_ phi 0) / INR d)
                       * (at_ r (n + 1) ^ d - at_ r n ^ d)))
    by (intros n; unfold Rdiv; ring_pow).
  rewrite Rsum_scale, (Rsum_telescope (fun n => at_ r n ^ d)).
  unfold Rdiv; ring_pow.
Qed.

(** The volume elements add up by telescoping: over the whole grid
    they give the radial factor between the first and the last radial
    edge times the azimuthal span times, in three dimensions, the cosine
    difference between the first and the last polar edge. *)
Theorem volume_elements_total :
  forall (count : ndarray) (r phi theta : vec) (d : nat),
    let nr := (length r - 1)%nat in
    let nphi := (length phi - 1)%nat in
    let ntheta := (length theta - 1)%nat in
    Rsum (concat (concat (_get_volume count r phi theta d)))
    = (at_ r nr ^ d - at_ r 0 ^ d) / INR d
      * (at_ phi nphi - at_ phi 0)
      * (if (d =? 3)%nat
         then cos (at_ theta 0) - cos (at_ theta ntheta)
         else INR ntheta).
Proof. exact volume_total. Qed.

(** For the edges [corr] and [sdf] build, the volume elements add up
    to the volume of the spherical shell between rmin and rmax in three
    dimensions, and to the area of the annulus in two. *)
Theorem volume_elements_fill_the_shell :
  forall (count : ndarray) (rmin rmax : R) (nr nphi ntheta : nat),
    (1 <= nr)%nat -> (1 <= nphi)%nat -> (1 <= ntheta)%nat ->
    let r_n := linspace rmin rmax (nr + 1) in
    let phi_m := map (fun x => 2 * PI * x - PI) (linspace 0 1 (nphi + 1)) in
    let theta_l := fun k => map (fun x => PI * x) (linspace 0 1 (k + 1)) in
    Rsum (concat (concat (_get_volume count r_n phi_m (theta_l ntheta) 3)))
    = 4 / 3 * PI * (rmax ^ 3 - rmin ^ 3)
    /\ Rsum (concat (concat (_get_volume count r_n phi_m (theta_l 1%nat) 2)))
       = PI * (rmax ^ 2 - rmin ^ 2).
Proof.
  intros count rmin rmax nr nphi ntheta Hr Hphi Hth r_n phi_m theta_l.
  assert (Hends : forall k, (1 <= k)%nat ->
            length (theta_l k) = (k + 1)%nat
            /\ at_ (theta_l k) 0 = 0 /\ at_ (theta_l k) k = PI).
  { intros k Hk; unfold theta_l.
    rewrite length_map, length_linspace; split; [reflexivity|].
    rewrite !at_map by (rewrite length_linspace; lia).
    rewrite (proj1 (linspace_ends 0 1 k Hk)).
    rewrite (proj2 (linspace_ends 0 1 k Hk)); split; ring. }
  assert (Hr_len : length r_n = (nr + 1)%nat) by apply length_linspace.
  assert (Hp_len : length phi_m = (nphi + 1)%nat)
    by (unfold phi_m; now rewrite length_map, length_linspace).
  assert (Hp0 : at_ phi_m 0 = - PI).
  { unfold phi_m; rewrite at_map by (rewrite length_linspace; lia).
    rewrite (proj1 (linspace_ends 0 1 nphi Hphi)); ring. }
  assert (Hp1 : at_ phi_m nphi = PI).
  { unfold phi_m; rewrite at_map by (rewrite length_linspace; lia).
    rewrite (proj2 (linspace_ends 0 1 nphi Hphi)); ring. }
  destruct (linspace_ends rmin rmax nr Hr) as [Hr0 Hr1]; fold r_n in Hr0, Hr1.
  split; rewrite volume_total; rewrite Hr_len, Hp_len.
  - destruct (Hends ntheta Hth) as [-> [Ht0 Ht1]].
    replace (nr + 1 - 1)%nat with nr by lia.
    replace (nphi + 1 - 1)%nat with nphi by lia.
    replace (ntheta + 1 - 1)%nat with ntheta by lia.
    rewrite Hr0, Hr1, Hp0, Hp1, Ht0, Ht1, cos_0, cos_PI.
    cbn [Nat.eqb]; simpl INR; field.
  - destruct (Hends 1%nat (Nat.le_refl 1)) as [-> _].
    replace (nr + 1 - 1)%nat with nr by lia.
    replace (nphi + 1 - 1)%nat with nphi by lia.
    rewrite Hr0, Hr1, Hp0, Hp1.
    cbn [Nat.eqb plus minus]; simpl INR; field.
Qed.

Lemma volume_elements_fill_the_shell_witness :
  let r_n := linspace 0 5 (100 + 1) in
  let phi_m := map (fun x => 2 * PI * x - PI) (linspace 0 1 (20 + 1)) in
  let theta_l := fun k => map (fun x => PI * x) (linspace 0 1 (k + 1)) in
  Rsum (concat (concat
          (_get_volume (mk_ndarray [] []) r_n phi_m (theta_l 10%nat) 3)))
  = 4 / 3 * PI * (5 ^ 3 - 0 ^ 3)
  /\ Rsum (concat (concat
             (_get_volume (mk_ndarray [] []) r_n phi_m (theta_l 1%nat) 2)))
     = PI * (5 ^ 2 - 0 ^ 2).
Proof.
  apply (volume_elements_fill_the_shell (mk_ndarray [] []) 0 5 100 20 10);
    lia.
Defined.

(** ** The normalised distribution *)

Lemma volume_entries_positive (count : ndarray) (r phi theta : vec)
    (d : nat) :
  d = 2%nat \/ d = 3%nat ->
  increasing r -> 0 <= at_ r 0 ->
  increasing phi ->
  (d = 3%nat ->
   increasing theta /\ 0 <= at_ theta 0
   /\ at_ theta (length theta - 1) <= PI) ->
  Forall (fun v => 0 < v) (concat (concat (_get_volume count r phi theta d))).
Proof.
  intros Hd Hr Hr0 Hphi Hth.
  apply Forall_forall; intros v Hv.
  apply in_concat in Hv; destruct Hv as [row [Hrow Hv]].
  apply in_concat in Hrow; destruct Hrow as [plane [Hplane Hrow]].
  unfold _get_volume in Hplane.
  apply in_map_iff in Hplane; destruct Hplane as [n [<- Hn]].
  apply in_map_iff in Hrow; destruct Hrow as [m [<- Hm]].
  apply in_map_iff in Hv; destruct Hv as [l [<- Hl]].
  apply in_seq in Hn; apply in_seq in Hm; apply in_seq in Hl.
  cbv zeta.
  pose proof (volume_value_positive r phi theta d n m l Hd Hr Hr0 Hphi Hth
                ltac:(lia) ltac:(lia) ltac:(lia)) as P.
  destruct (d =? 3)%nat; lra.
Qed.

Lemma fold_prod_positive (sides : vec) (acc : R) :
  0 < acc -> Forall (fun side => 0 < side) sides ->
  0 < fold_left Rmult sides acc.
Proof.
  revert acc; induction sides as [|x t IH]; intros acc Hacc Hs;
    [exact Hacc|].
  inversion Hs as [|? ? Hx Ht]; subst; simpl.
  apply IH; [now apply Rmult_lt_0_compat | exact Ht].
Qed.

Lemma prod_positive (boxsize : vec) :
  positive_sides boxsize -> 0 < prod boxsize.
Proof. intros Hs; apply fold_prod_positive; [lra | exact Hs]. Qed.

Lemma normalisation_nonzero (N : nat) (vol : vec) (shp : list nat)
    (boxsize : vec) :
  (1 <= N)%nat -> positive_sides boxsize ->
  Forall (fun v => 0 < v) vol ->
  Forall finite_nonzero
    (data (normalisation N (mk_ndarray shp (map Some vol))
             (fl_div (Some (INR N)) (Some (prod boxsize))))).
Proof.
  intros HN Hs Hvol.
  pose proof (prod_positive boxsize Hs) as Hp.
  assert (HNr : 0 < INR N) by (apply lt_0_INR; lia).
  unfold fl_div; destruct (Req_dec_T (prod boxsize) 0) as [E | _]; [lra|].
  cbn [normalisation data].
  rewrite map_map; apply Forall_map.
  eapply Forall_impl; [|exact Hvol].
  intros v Hv; cbn.
  eexists; split; [reflexivity|].
  assert (0 < INR N / prod boxsize) by (now apply Rdiv_lt_0_compat).
  assert (0 < INR N * v) by (now apply Rmult_lt_0_compat).
  assert (0 < INR N * v * (INR N / prod boxsize))
    by (now apply Rmult_lt_0_compat).
  lra.
Qed.

Lemma divide_finite (A B : list fl) :
  Forall finite A -> Forall finite_nonzero B ->
  Forall finite (zip_with fl_div A B).
Proof.
  revert B; induction A as [|x A IH]; intros [|y B] HA HB; simpl;
    try constructor.
  - inversion HA as [|? ? [u ->] HA']; inversion HB as [|? ? [v [-> Hv]] HB'];
      subst.
    simpl; destruct (Req_dec_T v 0) as [E | _]; [contradiction|].
    now eexists.
  - inversion HA; inversion HB; subst; now apply IH.
Qed.

(** With at least one particle, positive box sides and edges as
    [corr] and [sdf] build them, the normalisation never divides by
    zero: for a finite count grid of the shape of the volume grid
    [_get_distribution] returns a grid of the same shape whose entries
    are all finite. *)
Theorem normalised_distribution_finite :
  forall (L : Library) (count : ndarray) (N : nat)
         (boxsize r_n phi_m theta_l : vec),
    length boxsize = 2%nat \/ length boxsize = 3%nat ->
    positive_sides boxsize ->
    (1 <= N)%nat ->
    increasing r_n -> 0 <= at_ r_n 0 ->
    increasing phi_m ->
    (length boxsize = 3%nat ->
     increasing theta_l /\ 0 <= at_ theta_l 0
     /\ at_ theta_l (length theta_l - 1) <= PI) ->
    shape count
    = filter (fun n => negb (n =? 1)%nat)
             [length r_n - 1; length phi_m - 1; length theta_l - 1]%nat ->
    Forall finite (data count) ->
    exists g : ndarray,
      scale_count count N boxsize r_n phi_m theta_l = Ok g
      /\ shape g = shape count
      /\ Forall finite (data g).
Proof.
  intros L count N boxsize r_n phi_m theta_l Hd Hs HN Hr Hr0 Hphi Hth
         Hshape Hfin.
  unfold scale_count, divide.
  destruct (list_eq_dec Nat.eq_dec _ _) as [_ | Hn];
    [|exfalso; apply Hn; exact Hshape].
  eexists; split; [reflexivity|]; split; [reflexivity|].
  cbn [data]; apply divide_finite; [exact Hfin|].
  unfold squeezed_volume.
  apply normalisation_nonzero; trivial.
  now apply volume_entries_positive.
Qed.

Lemma normalised_distribution_finite_witness :
  exists g : ndarray,
    @scale_count (fixed_library []) (mk_ndarray [2%nat] [Some 1; Some 3])
                 2 [10; 10] [0; 1; 2] [-1; 1] [0; 1]
    = Ok g
    /\ shape g = [2%nat]
    /\ Forall finite (data g).
Proof.
  apply (normalised_distribution_finite (fixed_library [])
           (mk_ndarray [2%nat] [Some 1; Some 3]) 2
           [10; 10] [0; 1; 2] [-1; 1] [0; 1]).
  - now left.
  - constructor; [lra | constructor; [lra | constructor]].
  - lia.
  - simpl; lra.
  - unfold at_; simpl; lra.
  - simpl; lra.
  - simpl; intros H; discriminate H.
  - reflexivity.
  - constructor; [now eexists | constructor; [now eexists | constructor]].
Defined.

(** With no particle (N = 0) the normalisation is zero in every cell,
    so no entry of the grid [_get_distribution] returns is finite. *)
Theorem empty_cloud_distribution_not_finite :
  forall (L : Library) (count g : ndarray)
         (boxsize r_n phi_m theta_l : vec),
    scale_count count 0 boxsize r_n phi_m theta_l = Ok g ->
    shape count
    = filter (fun n => negb (n =? 1)%nat)
             [length r_n - 1; length phi_m - 1; length theta_l - 1]%nat ->
    Forall (fun v => v = None) (data g).
Proof.
  intros L count g boxsize r_n phi_m theta_l Hg Hshape.
  unfold scale_count, divide in Hg.
  destruct (list_eq_dec Nat.eq_dec _ _) as [_ | Hn];
    [|exfalso; apply Hn; exact Hshape].
  injection Hg as <-; cbn [data normalisation squeezed_volume].
  rewrite !map_map.
  generalize (concat (concat (_get_volume count r_n phi_m theta_l
                                          (length boxsize)))).
  generalize (data count).
  intros A; induction A as [|x A IH]; intros [|v B]; simpl;
    try constructor; [|apply IH].
  destruct x as [x|]; [|reflexivity].
  unfold fl_div; destruct (Req_dec_T (prod boxsize) 0) as [E | E]; simpl;
    [reflexivity|].
  destruct (Req_dec_T _ 0) as [_ | Hnz]; [reflexivity|].
  exfalso; apply Hnz; unfold Rdiv; ring.
Qed.

Lemma empty_cloud_distribution_not_finite_witness :
  Forall (fun v => v = None)
    (zip_with fl_div [Some 1; Some 3]
       (data (normalisation 0
                (squeezed_volume (mk_ndarray [2%nat] [Some 1; Some 3])
                                 [0; 1; 2] [-1; 1] [0; 1] 2)
                (fl_div (Some (INR 0)) (Some (prod [10; 10])))))).
Proof.
  apply (empty_cloud_distribution_not_finite (fixed_library [])
           (mk_ndarray [2%nat] [Some 1; Some 3])
           (mk_ndarray [2%nat]
              (zip_with fl_div [Some 1; Some 3]
                 (data (normalisation 0
                    (squeezed_volume (mk_ndarray [2%nat] [Some 1; Some 3])
                                     [0; 1; 2] [-1; 1] [0; 1] 2)
                    (fl_div (Some (INR 0)) (Some (prod [10; 10])))))))
           [10; 10] [0; 1; 2] [-1; 1] [0; 1]).
  - reflexivity.
  - reflexivity.
Defined.

(** ** The two structure factors *)

(** [fourier_corr] of [particle_correlations.py] and
    [structure_factor] of [particle_cloud.py] return the same values
    and raise the same error on every input. *)
Theorem structure_factors_agree :
  forall (L : Library) (gr r : vec) (N : nat) (boxsize : vec)
         (q : option vec),
    Correlations.fourier_corr gr r N boxsize q
    = Cloud.structure_factor gr r N boxsize q.
Proof.
  intros L gr r N boxsize q.
  unfold Correlations.fourier_corr, Cloud.structure_factor.
  destruct (negb _); [reflexivity|].
  do 2 f_equal.
  apply map_ext; intros x.
  unfold Correlations.S, Cloud.S, Correlations.spatial.
  now rewrite !zip_with_map_r.
Qed.

(** ** The coordinates a call returns *)

Lemma removelast_map_seq (f : nat -> R) (n : nat) :
  removelast (map f (seq 0 (n + 1))) = map f (seq 0 n).
Proof.
  rewrite seq_app, map_app; change (seq (0 + n) 1) with [n].
  apply removelast_last.
Qed.

(** [np.linspace(a, b, n + 1)[:-1]] *)
Lemma lower_edges (a b : R) (n : nat) :
  removelast (linspace a b (n + 1))
  = map (fun k => a + INR k * ((b - a) / INR n)) (seq 0 n).
Proof.
  unfold linspace; rewrite removelast_map_seq.
  now replace (n + 1 - 1)%nat with n by lia.
Qed.

Lemma lower_edges_map (h : R -> R) (n : nat) :
  removelast (map h (linspace 0 1 (n + 1)))
  = map (fun k => h (INR k / INR n)) (seq 0 n).
Proof.
  unfold linspace; rewrite map_map, removelast_map_seq.
  replace (n + 1 - 1)%nat with n by lia.
  apply map_ext; intros k; f_equal; unfold Rdiv; ring.
Qed.

Lemma dimension_2_or_3 (ndim : nat) :
  negb ((ndim =? 2)%nat || (ndim =? 3)%nat) = false ->
  (ndim = 2%nat /\ (ndim =? 3)%nat = false)
  \/ (ndim = 3%nat /\ (ndim =? 3)%nat = true).
Proof.
  destruct (ndim =? 2)%nat eqn:E2; destruct (ndim =? 3)%nat eqn:E3;
    simpl; intros H; try discriminate H.
  - apply Nat.eqb_eq in E2, E3; lia.
  - left; split; [now apply Nat.eqb_eq | reflexivity].
  - right; split; [now apply Nat.eqb_eq | reflexivity].
Qed.

(** What [corr] returns when it returns: the edge arrays without
    their last entry, and the polar ones in three dimensions only. *)
Lemma corr_returned (L : Library) (fuel : nat) (caller caller' : arrays)
    (boxsize : vec) (z : Z) (rmin rmax : option R)
    (nr nphi ntheta : option nat)
    (g : ndarray) (r phi : vec) (theta : option vec) :
  Correlations.corr fuel caller boxsize z rmin rmax nr nphi ntheta
  = Some (caller', Ok (g, r, phi, theta)) ->
  let lo := match rmin with None => 0 | Some x => x end in
  let hi := match rmax with None => vmax boxsize / 2 | Some x => x end in
  let ndim := snd (shape2 (positions caller)) in
  r = removelast (linspace lo hi (Correlations.bin_count nr + 1))
  /\ phi = removelast (map (fun x => 2 * PI * x - PI)
                           (linspace 0 1 (Correlations.bin_count nphi + 1)))
  /\ ((ndim = 2%nat /\ theta = None)
      \/ (ndim = 3%nat
          /\ theta = Some (removelast
                             (map (fun x => PI * x)
                                  (linspace 0 1
                                     (Correlations.bin_count ntheta + 1)))))).
Proof.
  intros E lo hi ndim.
  unfold Correlations.corr in E; subst ndim.
  destruct (shape2 (positions caller)) as [N ndim]; cbn [snd].
  destruct (negb ((ndim =? 2)%nat || (ndim =? 3)%nat)) eqn:Ed;
    [discriminate E|].
  apply dimension_2_or_3 in Ed.
  destruct (negb _); [discriminate E|].
  destruct (negb _); [discriminate E|].
  destruct (_impose_pbc fuel (positions caller) boxsize);
    [|discriminate E].
  destruct (_ =? 0)%nat; [discriminate E|].
  destruct (Correlations._get_displacements _ _ _ _ _ _ _ _ _ _ _ _)
    as [[rij wiwj] | e]; [|discriminate E].
  cbn [bind] in E.
  destruct (Correlations._get_distribution _ _ _ _ _ _ _) as [g0 | e];
    [|discriminate E].
  cbn [bind] in E.
  injection E as _ <- <- <- <-.
  split; [reflexivity|]; split; [reflexivity|].
  destruct Ed as [[-> E3] | [-> E3]]; cbn [Nat.eqb].
  - left; split; reflexivity.
  - right; split; reflexivity.
Qed.

Lemma sdf_returned (L : Library) (fuel : nat) (caller caller' : arrays)
    (boxsize : vec) (rmin rmax : option R) (nr : nat)
    (nphi ntheta : option nat)
    (g : ndarray) (r phi : vec) (theta : option vec) :
  Cloud.sdf fuel caller boxsize rmin rmax nr nphi ntheta
  = Some (caller', Ok (g, r, phi, theta)) ->
  let lo := match rmin with None => 0 | Some x => x end in
  let hi := match rmax with None => vmax boxsize / 2 | Some x => x end in
  let ndim := snd (shape2 (positions caller)) in
  let n_phi := match nphi with None => 1%nat | Some n => n end in
  let n_theta := match ntheta with None => 1%nat | Some n => n end in
  r = removelast (linspace lo hi (nr + 1))
  /\ phi = removelast (map (fun x => 2 * PI * x - PI)
                           (linspace 0 1 (n_phi + 1)))
  /\ ((ndim = 2%nat /\ theta = None)
      \/ (ndim = 3%nat
          /\ theta = Some (removelast
                             (map (fun x => PI * x)
                                  (linspace 0 1 (n_theta + 1)))))).
Proof.
  intros E lo hi ndim n_phi n_theta.
  unfold Cloud.sdf in E; subst ndim.
  destruct (shape2 (positions caller)) as [N ndim]; cbn [snd].
  destruct (negb ((ndim =? 2)%nat || (ndim =? 3)%nat)) eqn:Ed;
    [discriminate E|].
  apply dimension_2_or_3 in Ed.
  destruct (negb _); [discriminate E|].
  destruct (_impose_pbc fuel (positions caller) boxsize);
    [|discriminate E].
  destruct (Cloud._get_displacements _ _ _ _ _ _ _ _)
    as [[[rs phis] thetas] | e]; [|discriminate E].
  cbn [bind] in E.
  destruct (Cloud._get_distribution _ _ _ _ _ _ _ _) as [g0 | e];
    [|discriminate E].
  cbn [bind] in E.
  injection E as _ <- <- <- <-.
  split; [reflexivity|]; split; [reflexivity|].
  destruct Ed as [[-> E3] | [-> E3]]; cbn [Nat.eqb].
  - left; split; reflexivity.
  - right; split; [reflexivity|].
    subst n_theta; destruct ntheta as [n|]; reflexivity.
Qed.

(** When [corr] returns, the coordinate arrays it returns are the
    lower edges of the bins: r holds rmin + k (rmax - rmin) / nr for
    k = 0 .. nr - 1 (it starts at rmin and never holds rmax), phi holds
    -pi + 2 pi k / nphi, and theta holds pi k / ntheta in three dimensions
    and is absent in two; nr, nphi and ntheta are the bin counts after
    the defaults (at least 1). *)
Theorem corr_returns_lower_edges :
  forall (L : Library) (fuel : nat) (caller caller' : arrays)
         (boxsize : vec) (z : Z) (rmin rmax : option R)
         (nr nphi ntheta : option nat)
         (g : ndarray) (r phi : vec) (theta : option vec),
    Correlations.corr fuel caller boxsize z rmin rmax nr nphi ntheta
    = Some (caller', Ok (g, r, phi, theta)) ->
    let lo := match rmin with None => 0 | Some x => x end in
    let hi := match rmax with None => vmax boxsize / 2 | Some x => x end in
    let ndim := snd (shape2 (positions caller)) in
    let n_r := Correlations.bin_count nr in
    let n_phi := Correlations.bin_count nphi in
    let n_theta := Correlations.bin_count ntheta in
    r = map (fun k => lo + INR k * ((hi - lo) / INR n_r)) (seq 0 n_r)
    /\ phi = map (fun k => 2 * PI * (INR k / INR n_phi) - PI) (seq 0 n_phi)
    /\ match theta with
       | None => ndim = 2%nat
       | Some th =>
           ndim = 3%nat
           /\ th = map (fun k => PI * (INR k / INR n_theta)) (seq 0 n_theta)
       end.
Proof.
  intros L fuel caller caller' boxsize z rmin rmax nr nphi ntheta
         g r phi theta E lo hi ndim n_r n_phi n_theta.
  destruct (corr_returned _ _ _ _ _ _ _ _ _ _ _ _ _ _ _ E)
    as [-> [-> Hth]].
  fold lo hi n_r n_phi n_theta ndim in Hth |- *.
  rewrite lower_edges, (lower_edges_map (fun x => 2 * PI * x - PI)).
  split; [reflexivity|]; split; [reflexivity|].
  destruct Hth as [[Hd ->] | [Hd ->]]; [exact Hd|].
  split; [exact Hd|].
  apply (lower_edges_map (fun x => PI * x)).
Qed.

(** Two particles in a 10 x 10 box, two radial bins: a call of [corr]
    that returns. *)
Lemma in_box_10_example : in_box [10; 10] [[1; 5]; [3; 5]].
Proof.
  constructor; [|constructor; [|constructor]];
    intros i Hb Hp; simpl in Hb;
    destruct i as [|[|i]]; unfold at_; simpl; try lra; lia.
Qed.

Lemma corr_example_returns :
  exists (caller' : arrays) (g : ndarray) (r phi : vec) (theta : option vec),
    @Correlations.corr (fixed_library [(0, 1)%nat]) 1
      (mk_arrays [[1; 5]; [3; 5]] None None) [10; 10] 1
      (Some 0) (Some 5) (Some 2%nat) None None
    = Some (caller', Ok (g, r, phi, theta)).
Proof.
  unfold Correlations.corr.
  cbn [positions shape2 length hd Nat.eqb orb negb orientations weights].
  rewrite (_impose_pbc_fixed 1 _ _ in_box_10_example).
  unfold Correlations._get_pairs.
  cbn [query_pairs fixed_library length Nat.eqb].
  unfold Correlations._get_displacements, Correlations.schedule,
    Correlations.fill_slot, write_coords.
  cbn [Correlations.bin_count Nat.ltb Nat.leb Nat.add Nat.mul Nat.eqb
       fold_left flat_map map seq length app nth upd shape2 shape2_eqb
       hd repeat fst snd andb swap filter positions set_positions bind].
  unfold Correlations._get_distribution.
  cbn [Correlations.bin_count Nat.ltb Nat.leb Nat.add linspace seq map
       length filter histogramdd fixed_library].
  unfold Histogram.histogramdd.
  cbn [Histogram.sample_dim length hd map Nat.eqb negb Nat.sub bind].
  unfold scale_count, divide, squeezed_volume, normalisation.
  cbn [shape length filter negb Nat.eqb Nat.sub].
  destruct (list_eq_dec Nat.eq_dec [2%nat] [2%nat]) as [_ | Hn];
    [|exfalso; apply Hn; reflexivity].
  cbn [bind]; repeat eexists.
Qed.

Lemma corr_returns_lower_edges_witness :
  exists (caller' : arrays) (g : ndarray) (r phi : vec) (theta : option vec),
    @Correlations.corr (fixed_library [(0, 1)%nat]) 1
      (mk_arrays [[1; 5]; [3; 5]] None None) [10; 10] 1
      (Some 0) (Some 5) (Some 2%nat) None None
    = Some (caller', Ok (g, r, phi, theta))
    /\ r = map (fun k => 0 + INR k * ((5 - 0) / INR 2)) [0; 1]%nat
    /\ phi = map (fun k => 2 * PI * (INR k / INR 1) - PI) [0%nat]
    /\ theta = None.
Proof.
  destruct corr_example_returns as [caller' [g [r [phi [theta E]]]]].
  exists caller', g, r, phi, theta; split; [exact E|].
  pose proof (corr_returns_lower_edges _ _ _ _ _ _ _ _ _ _ _ _ _ _ _ E) as P.
  cbv zeta in P; cbn [Correlations.bin_count Nat.ltb Nat.leb seq map] in P.
  destruct P as [Pr [Pphi Pth]].
  split; [exact Pr|]; split; [exact Pphi|].
  destruct theta as [th|]; [|reflexivity].
  destruct Pth as [Pth _]; simpl in Pth; discriminate Pth.
Defined.

(** When [sdf] returns, the coordinate arrays it returns are the lower
    edges of the bins, as for [corr]; the bin counts are taken as they
    are given (nphi and ntheta default to 1), so nr = 0 gives an empty
    array of radii. *)
Theorem sdf_returns_lower_edges :
  forall (L : Library) (fuel : nat) (caller caller' : arrays)
         (boxsize : vec) (rmin rmax : option R) (nr : nat)
         (nphi ntheta : option nat)
         (g : ndarray) (r phi : vec) (theta : option vec),
    Cloud.sdf fuel caller boxsize rmin rmax nr nphi ntheta
    = Some (caller', Ok (g, r, phi, theta)) ->
    let lo := match rmin with None => 0 | Some x => x end in
    let hi := match rmax with None => vmax boxsize / 2 | Some x => x end in
    let ndim := snd (shape2 (positions caller)) in
    let n_phi := match nphi with None => 1%nat | Some n => n end in
    let n_theta := match ntheta with None => 1%nat | Some n => n end in
    r = map (fun k => lo + INR k * ((hi - lo) / INR nr)) (seq 0 nr)
    /\ phi = map (fun k => 2 * PI * (INR k / INR n_phi) - PI) (seq 0 n_phi)
    /\ match theta with
       | None => ndim = 2%nat
       | Some th =>
           ndim = 3%nat
           /\ th = map (fun k => PI * (INR k / INR n_theta)) (seq 0 n_theta)
       end.
Proof.
  intros L fuel caller caller' boxsize rmin rmax nr nphi ntheta
         g r phi theta E lo hi ndim n_phi n_theta.
  destruct (sdf_returned _ _ _ _ _ _ _ _ _ _ _ _ _ _ E)
    as [-> [-> Hth]].
  fold lo hi n_phi n_theta ndim in Hth |- *.
  rewrite lower_edges, (lower_edges_map (fun x => 2 * PI * x - PI)).
  split; [reflexivity|]; split; [reflexivity|].
  destruct Hth as [[Hd ->] | [Hd ->]]; [exact Hd|].
  split; [exact Hd|].
  apply (lower_edges_map (fun x => PI * x)).
Qed.

(** The same two particles with orientations: a call of [sdf] that
    returns. *)
Lemma sdf_example_returns :
  exists (caller' : arrays) (g : ndarray) (r phi : vec) (theta : option vec),
    @Cloud.sdf (fixed_library [(0, 1)%nat]) 1
      (mk_arrays [[1; 5]; [3; 5]] (Some [[0; 1]; [3; 4]]) None) [10; 10]
      (Some 0) (Some 5) 2 None None
    = Some (caller', Ok (g, r, phi, theta)).
Proof.
  unfold Cloud.sdf.
  cbn [positions shape2 length hd Nat.eqb orb negb orientations weights
       shape2_eqb fst snd andb].
  rewrite (_impose_pbc_fixed 1 _ _ in_box_10_example).
  unfold Cloud._get_pairs, Cloud._get_displacements.
  cbn [query_pairs fixed_library length Nat.eqb Nat.ltb Nat.leb app map
       swap fst snd set_positions orientations bind].
  unfold Cloud._get_distribution.
  cbn [Nat.ltb Nat.leb Nat.add linspace seq map length filter fst snd
       histogramdd fixed_library].
  unfold Histogram.histogramdd.
  cbn [Histogram.sample_dim length hd map Nat.eqb negb Nat.sub bind].
  unfold scale_count, divide, squeezed_volume, normalisation.
  cbn [shape length filter negb Nat.eqb Nat.sub].
  destruct (list_eq_dec Nat.eq_dec [2%nat] [2%nat]) as [_ | Hn];
    [|exfalso; apply Hn; reflexivity].
  cbn [bind]; repeat eexists.
Qed.

Lemma sdf_returns_lower_edges_witness :
  exists (caller' : arrays) (g : ndarray) (r phi : vec) (theta : option vec),
    @Cloud.sdf (fixed_library [(0, 1)%nat]) 1
      (mk_arrays [[1; 5]; [3; 5]] (Some [[0; 1]; [3; 4]]) None) [10; 10]
      (Some 0) (Some 5) 2 None None
    = Some (caller', Ok (g, r, phi, theta))
    /\ r = map (fun k => 0 + INR k * ((5 - 0) / INR 2)) [0; 1]%nat
    /\ phi = map (fun k => 2 * PI * (INR k / INR 1) - PI) [0%nat]
    /\ theta = None.
Proof.
  destruct sdf_example_returns as [caller' [g [r [phi [theta E]]]]].
  exists caller', g, r, phi, theta; split; [exact E|].
  pose proof (sdf_returns_lower_edges _ _ _ _ _ _ _ _ _ _ _ _ _ _ E) as P.
  cbv zeta in P; cbn [seq map] in P.
  destruct P as [Pr [Pphi Pth]].
  split; [exact Pr|]; split; [exact Pphi|].
  destruct theta as [th|]; [|reflexivity].
  destruct Pth as [Pth _]; simpl in Pth; discriminate Pth.
Defined.

Lemma increasing_map_seq (f : nat -> R) (n : nat) :
  (forall k : nat, (S k < n)%nat -> f k < f (S k)) ->
  increasing (map f (seq 0 n)).
Proof.
  intros Hf; apply increasing_of_steps; intros k Hk.
  rewrite length_map, length_seq in Hk.
  unfold at_; rewrite !nth_map_seq by lia.
  now apply Hf.
Qed.

Lemma Forall_map_seq (f : nat -> R) (P : R -> Prop) (n : nat) :
  (forall k : nat, (k < n)%nat -> P (f k)) -> Forall P (map f (seq 0 n)).
Proof.
  intros Hf; apply Forall_forall; intros x Hx.
  apply in_map_iff in Hx; destruct Hx as [k [<- Hk]].
  apply in_seq in Hk; apply Hf; lia.
Qed.

(** The lower edges of evenly spaced bins between [h 0] and [h 1], for
    an increasing affine map [h x = a + x * (b - a)]. *)
Lemma lower_edges_in_order (a b : R) (n : nat) :
  a < b ->
  let edges := map (fun k => a + INR k / INR n * (b - a)) (seq 0 n) in
  increasing edges /\ Forall (fun x => a <= x < b) edges.
Proof.
  intros Hab edges; unfold edges; split.
  - apply increasing_map_seq; intros k Hk.
    assert (Hn : 0 < INR n) by (apply lt_0_INR; lia).
    rewrite S_INR.
    assert (0 < / INR n * (b - a))
      by (apply Rmult_lt_0_compat; [now apply Rinv_0_lt_compat | lra]).
    unfold Rdiv; nra.
  - apply Forall_map_seq; intros k Hk.
    assert (Hn : 0 < INR n) by (apply lt_0_INR; lia).
    assert (Hk0 : 0 <= INR k) by apply pos_INR.
    assert (Hkn : INR k < INR n) by (now apply lt_INR).
    assert (Hq : 0 <= INR k / INR n < 1).
    { split.
      - apply Rmult_le_pos; [exact Hk0 | left; now apply Rinv_0_lt_compat].
      - apply Rmult_lt_reg_r with (INR n); [exact Hn|].
        unfold Rdiv; rewrite Rmult_assoc, Rinv_l by lra; lra. }
    nra.
Qed.

(** With rmin < rmax, the coordinate arrays [corr] and [sdf] return
    are the left edges their docstrings promise: each array increases
    strictly, the radii lie in [rmin, rmax), the azimuthal angles in
    [-pi, pi) and the polar angles in [0, pi). *)
Theorem returned_edges_in_order :
  forall (L : Library) (fuel : nat) (caller caller' : arrays)
         (boxsize : vec) (z : Z) (rmin rmax : option R)
         (nr nphi ntheta : option nat) (nr' : nat)
         (g : ndarray) (r phi : vec) (theta : option vec),
    let lo := match rmin with None => 0 | Some x => x end in
    let hi := match rmax with None => vmax boxsize / 2 | Some x => x end in
    lo < hi ->
    Correlations.corr fuel caller boxsize z rmin rmax nr nphi ntheta
    = Some (caller', Ok (g, r, phi, theta))
    \/ Cloud.sdf fuel caller boxsize rmin rmax nr' nphi ntheta
       = Some (caller', Ok (g, r, phi, theta)) ->
    (increasing r /\ Forall (fun x => lo <= x < hi) r)
    /\ (increasing phi /\ Forall (fun x => - PI <= x < PI) phi)
    /\ match theta with
       | Some th => increasing th /\ Forall (fun x => 0 <= x < PI) th
       | None => True
       end.
Proof.
  intros L fuel caller caller' boxsize z rmin rmax nr nphi ntheta nr'
         g r phi theta lo hi Hlohi E.
  pose proof PI_RGT_0 as Hpi.
  assert (Hr : forall n : nat,
            let edges := removelast (linspace lo hi (n + 1)) in
            increasing edges /\ Forall (fun x => lo <= x < hi) edges).
  { intros n; cbv zeta; rewrite lower_edges.
    rewrite (map_ext _ (fun k => lo + INR k / INR n * (hi - lo)))
      by (intros k; unfold Rdiv; ring).
    now apply lower_edges_in_order. }
  assert (Hphi : forall n : nat,
            let edges := removelast (map (fun x => 2 * PI * x - PI)
                                         (linspace 0 1 (n + 1))) in
            increasing edges /\ Forall (fun x => - PI <= x < PI) edges).
  { intros n; cbv zeta.
    rewrite (lower_edges_map (fun x => 2 * PI * x - PI)).
    rewrite (map_ext _ (fun k => - PI + INR k / INR n * (PI - - PI)))
      by (intros k; unfold Rdiv; ring).
    apply lower_edges_in_order; lra. }
  assert (Hth : forall n : nat,
            let edges := removelast (map (fun x => PI * x)
                                         (linspace 0 1 (n + 1))) in
            increasing edges /\ Forall (fun x => 0 <= x < PI) edges).
  { intros n; cbv zeta.
    rewrite (lower_edges_map (fun x => PI * x)).
    rewrite (map_ext _ (fun k => 0 + INR k / INR n * (PI - 0)))
      by (intros k; unfold Rdiv; ring).
    apply lower_edges_in_order; lra. }
  destruct E as [E | E].
  - destruct (corr_returned _ _ _ _ _ _ _ _ _ _ _ _ _ _ _ E)
      as [-> [-> Ht]].
    split; [apply Hr|]; split; [apply Hphi|].
    destruct Ht as [[_ ->] | [_ ->]]; [exact I | apply Hth].
  - destruct (sdf_returned _ _ _ _ _ _ _ _ _ _ _ _ _ _ E)
      as [-> [-> Ht]].
    split; [apply Hr|]; split; [apply Hphi|].
    destruct Ht as [[_ ->] | [_ ->]]; [exact I | apply Hth].
Qed.

Lemma returned_edges_in_order_witness :
  exists (caller' : arrays) (g : ndarray) (r phi : vec) (theta : option vec),
    @Correlations.corr (fixed_library [(0, 1)%nat]) 1
      (mk_arrays [[1; 5]; [3; 5]] None None) [10; 10] 1
      (Some 0) (Some 5) (Some 2%nat) None None
    = Some (caller', Ok (g, r, phi, theta))
    /\ (increasing r /\ Forall (fun x => 0 <= x < 5) r)
    /\ (increasing phi /\ Forall (fun x => - PI <= x < PI) phi)
    /\ match theta with
       | Some th => increasing th /\ Forall (fun x => 0 <= x < PI) th
       | None => True
       end.
Proof.
  destruct corr_example_returns as [caller' [g [r [phi [theta E]]]]].
  exists caller', g, r, phi, theta; split; [exact E|].
  apply (returned_edges_in_order (fixed_library [(0, 1)%nat]) 1
           (mk_arrays [[1; 5]; [3; 5]] None None) caller' [10; 10] 1
           (Some 0) (Some 5) (Some 2%nat) None None 2 g r phi theta).
  - lra.
  - left; exact E.
Defined.

(** ** Orientations taken to the reference axis *)

Lemma planar_rotation_aligns_witness :
  _matvec (Correlations._rotation_matrix (normalised [1; 0]))
          (normalised [1; 0])
  = [Some 0; Some 1]
  /\ _matvec (Cloud.rotation 2 (normalised [1; 0])) (normalised [1; 0])
     = [Some 0; Some 1].
Proof. apply (planar_rotation_aligns 1 0); lra. Defined.

Lemma rodrigues_aligns_witness :
  _matvec (Correlations._rotation_matrix (normalised [1; 0; 0]))
          (normalised [1; 0; 0])
  = [Some 0; Some 0; Some 1].
Proof. apply (rodrigues_aligns 1 0 0); lra. Defined.
